(** * Class-SNA 2.0: identity resolution, relationship normalisation and
      network analysis

    A shallow embedding of
      - [src/components/dashboard/Dashboard.tsx]
          ([normalizeStudentNameKey], [buildStableStudentId],
           [resolveStudentIds], [buildParseResultFromAnalyzePayload]),
      - [src/lib/parser.ts] ([processCsvData], [processWithGemini]),
      - [src/lib/analyzer.ts] ([createSeededRng], [analyzeNetwork]),
      - [src/app/api/analyze/route.ts] ([normalizeGeminiPayload],
          [resolveGeminiModel]),
      - [src/app/api/export-excel/route.ts] and [src/lib/excel.ts] (the
          sanitisers of file and sheet names),
      - the upload page ([handleFileUpload]),
    followed by the properties of the written specification that these
    functions decide.

    Conventions.  A JavaScript string is the list of its UTF-16 code units.
    A JavaScript number is an IEEE-754 binary64 value ([PrimFloat.float]);
    the 32-bit integer operators are written over [Z] with their wrap-around
    spelled out.  A [Map] or [Set] is an association list or a list in
    insertion order, since the code iterates over several of them.  An
    exception is the [None] of an [option].  What the program imports and the
    repository does not contain (language built-ins with large tables, the
    graphology metrics, [crypto.randomUUID]) is an interface, passed as a
    type-class instance or as an argument. *)

From Stdlib Require Import String Ascii.
From Stdlib Require Import ZArith List Bool Lia Permutation Sorted.
From Stdlib Require Import Floats.
Import ListNotations.
Open Scope Z_scope.
Open Scope list_scope.

Set Implicit Arguments.
Set Warnings "-register-all".

(* ================================================================== *)
(** * Part I: the embedding                                            *)
(* ================================================================== *)

(** ** JavaScript values *)

Module JS.

(** A string: its UTF-16 code units, each in [0, 65535]. *)
Definition jsstring := list Z.

Definition jsstring_eq_dec : forall a b : jsstring, {a = b} + {a <> b} :=
  list_eq_dec Z.eq_dec.

(** [a === b] on strings. *)
Definition streq (a b : jsstring) : bool :=
  if jsstring_eq_dec a b then true else false.

(** A string literal of the source, written with Rocq's string notation
    (one code unit per character; the literals used are ASCII). *)
Definition lit (s : String.string) : jsstring :=
  map (fun a => Z.of_N (Ascii.N_of_ascii a)) (String.list_ascii_of_string s).
Arguments lit s%_string.

(** Truthiness of a string: the empty string is the only falsy one. *)
Definition truthy_str (s : jsstring) : bool :=
  match s with [] => false | _ :: _ => true end.

(** ECMAScript WhiteSpace and LineTerminator code points: what
    [String.prototype.trim] strips and what [\s] matches. *)
Definition isWhiteSpace (c : Z) : bool :=
  (c =? 9) || (c =? 10) || (c =? 11) || (c =? 12) || (c =? 13) ||
  (c =? 32) || (c =? 160) || (c =? 5760) ||
  ((8192 <=? c) && (c <=? 8202)) ||
  (c =? 8232) || (c =? 8233) || (c =? 8239) || (c =? 8287) ||
  (c =? 12288) || (c =? 65279).

Fixpoint trimStart (s : jsstring) : jsstring :=
  match s with
  | [] => []
  | c :: r => if isWhiteSpace c then trimStart r else s
  end.

Definition trimEnd (s : jsstring) : jsstring := rev (trimStart (rev s)).

(** [s.trim()] *)
Definition trim (s : jsstring) : jsstring := trimEnd (trimStart s).

(** [s.replace(/\s+/g, " ")]: every maximal run of white space becomes one
    space.  [inRun] records that the previous code unit was white space. *)
Fixpoint collapseFrom (inRun : bool) (s : jsstring) : jsstring :=
  match s with
  | [] => []
  | c :: r =>
      if isWhiteSpace c
      then (if inRun then collapseFrom true r else 32 :: collapseFrom true r)
      else c :: collapseFrom false r
  end.

Definition collapseWhiteSpace (s : jsstring) : jsstring := collapseFrom false s.

(** Surrogates, for the string iterator. *)
Definition isHighSurrogate (c : Z) : bool := (55296 <=? c) && (c <=? 56319).
Definition isLowSurrogate (c : Z) : bool := (56320 <=? c) && (c <=? 57343).

(** [for (const char of s)] yields the code points of [s]; the loops of the
    program only read [char.charCodeAt(0)], the first code unit of each:
    a surrogate pair contributes its high surrogate alone. *)
Fixpoint firstUnits (s : jsstring) : list Z :=
  match s with
  | [] => []
  | c :: r =>
      match r with
      | d :: r' =>
          if isHighSurrogate c && isLowSurrogate d
          then c :: firstUnits r'
          else c :: firstUnits r
      | [] => [c]
      end
  end.

(** *** 32-bit integer operators *)

Definition two32 : Z := 4294967296.

Definition ToUint32 (z : Z) : Z := z mod two32.

Definition ToInt32 (z : Z) : Z :=
  let m := z mod two32 in if m <? 2147483648 then m else m - two32.

(** [a ^ b] *)
Definition bxor (a b : Z) : Z := ToInt32 (Z.lxor (ToInt32 a) (ToInt32 b)).

(** [Math.imul(a, b)] *)
Definition imul (a b : Z) : Z := ToInt32 (ToInt32 a * ToInt32 b).

(** [a << n], for a shift count below 32 *)
Definition shl (a n : Z) : Z := ToInt32 (Z.shiftl (ToInt32 a) n).

(** [a >>> n], for a shift count below 32 *)
Definition ushr (a n : Z) : Z := Z.shiftr (ToUint32 a) n.

(** *** Printing integers *)

(** The digit characters ['0'..'9'], ['a'..'z']. *)
Definition digitChar (d : Z) : Z := if d <? 10 then 48 + d else 87 + d.

(** The digits of [n] in base [radix], most significant first, written in
    front of [acc]; [fuel] bounds the number of digits. *)
Fixpoint digitsAcc (radix : Z) (fuel : nat) (n : Z) (acc : jsstring) : jsstring :=
  match fuel with
  | O => acc
  | S k =>
      let acc' := digitChar (n mod radix) :: acc in
      if n / radix =? 0 then acc' else digitsAcc radix k (n / radix) acc'
  end.

(** [n.toString(radix)] for an integer [n >= 0]: a number below [2^k] has at
    most [k] digits in any base from 2 on. *)
Definition intToString (radix : Z) (n : Z) : jsstring :=
  digitsAcc radix (S (Z.to_nat (Z.log2 n))) n [].

(** *** Numbers *)

Definition number := float.

(** Truthiness of a number: [0], [-0] and [NaN] are falsy. *)
Definition truthy_num (x : number) : bool :=
  negb (PrimFloat.is_zero x || PrimFloat.is_nan x).

(** [x || 0] for an optional numeric attribute. *)
Definition orZero (x : option number) : number :=
  match x with
  | Some v => if truthy_num v then v else PrimFloat.zero
  | None => PrimFloat.zero
  end.

(** *** Untyped values: what [JSON.parse] returns, and [undefined] *)

Inductive value : Type :=
| VUndefined
| VNull
| VBool (b : bool)
| VNumber (x : number)
| VString (s : jsstring)
| VArray (items : list value)
| VObject (props : list (jsstring * value)).

(** [o.k] on the own properties of a parsed object. *)
Fixpoint getProp (props : list (jsstring * value)) (k : jsstring) : value :=
  match props with
  | [] => VUndefined
  | (k', v) :: r => if streq k' k then v else getProp r k
  end.

(** [v.k] for a value that passed [typeof v === "object"] and [!!v]:
    an array has none of the properties the program asks for. *)
Definition field (v : value) (k : jsstring) : value :=
  match v with
  | VObject props => getProp props k
  | _ => VUndefined
  end.

(** [v.k] for any value: reading a property of [null] or of [undefined]
    throws; a primitive has none of the properties the program asks for. *)
Definition member (v : value) (k : jsstring) : option value :=
  match v with
  | VUndefined | VNull => None
  | _ => Some (field v k)
  end.

(** [Array.isArray(v) ? v : []] *)
Definition arrayOrEmpty (v : value) : list value :=
  match v with
  | VArray items => items
  | _ => []
  end.

(** [typeof v === "object"] *)
Definition typeofObject (v : value) : bool :=
  match v with
  | VNull | VArray _ | VObject _ => true
  | _ => false
  end.

(** [!!v] *)
Definition truthy (v : value) : bool :=
  match v with
  | VUndefined | VNull => false
  | VBool b => b
  | VNumber x => truthy_num x
  | VString s => truthy_str s
  | VArray _ | VObject _ => true
  end.

(** [v ?? d] *)
Definition nullish (v d : value) : value :=
  match v with
  | VUndefined | VNull => d
  | _ => v
  end.

(** The built-ins that rest on large tables or on the shortest-decimal
    algorithm are left to the host. *)
Class Host : Type := {
  (** [String.prototype.toLowerCase] *)
  toLowerCase : jsstring -> jsstring;
  (** [Number.prototype.toString] in base 10 *)
  NumberToString : number -> jsstring;
  (** [StringToNumber], the conversion behind [Number("...")] *)
  StringToNumber : jsstring -> number
}.

Section Conversions.
Context {host : Host}.

Definition joinWith (sep : jsstring) (parts : list jsstring) : jsstring :=
  match parts with
  | [] => []
  | p :: ps => fold_left (fun acc q => acc ++ sep ++ q) ps p
  end.

(** [o.hasOwnProperty(k)] on the properties of a parsed object. *)
Definition hasOwn (props : list (jsstring * value)) (k : jsstring) : bool :=
  existsb (fun kv => streq (fst kv) k) props.

(** [String(v)]; [None] is the [TypeError] "Cannot convert object to
    primitive value".  An array prints its items separated by commas, with
    [null] and [undefined] items printed as nothing.  A plain object prints
    as ["[object Object]"] through [Object.prototype.toString], unless it
    has a property [toString] of its own: a parsed value is never a
    function, so the conversion finds no method that returns a primitive
    ([valueOf], own or inherited, returns none either) and throws. *)
Fixpoint ToString (v : value) : option jsstring :=
  match v with
  | VUndefined => Some (lit "undefined")
  | VNull => Some (lit "null")
  | VBool true => Some (lit "true")
  | VBool false => Some (lit "false")
  | VNumber x => Some (NumberToString x)
  | VString s => Some s
  | VArray items =>
      option_map (joinWith (lit ","))
        ((fix each (l : list value) : option (list jsstring) :=
            match l with
            | [] => Some []
            | i :: r =>
                match (match i with
                       | VUndefined | VNull => Some []
                       | _ => ToString i
                       end), each r with
                | Some p, Some ps => Some (p :: ps)
                | _, _ => None
                end
            end) items)
  | VObject props =>
      if hasOwn props (lit "toString") then None else Some (lit "[object Object]")
  end.

(** [Number(v)]; [None] is the same [TypeError]: an object or an array is
    converted through [valueOf], which returns the object itself, and then
    through [toString]. *)
Definition ToNumber (v : value) : option number :=
  match v with
  | VUndefined => Some PrimFloat.nan
  | VNull => Some PrimFloat.zero
  | VBool true => Some PrimFloat.one
  | VBool false => Some PrimFloat.zero
  | VNumber x => Some x
  | VString s => Some (StringToNumber s)
  | VArray _ | VObject _ => option_map StringToNumber (ToString v)
  end.
End Conversions.

(** *** Exceptions

    A computation that can throw returns an [option]: [None] is the
    exception.  [x <- e ;; k] runs [k] on what [e] returns and throws when
    [e] does. *)
Notation "x <- e ;; k" :=
  (match e with Some x => k | None => None end)
  (at level 61, e at next level, right associativity).

(** *** Maps and sets in insertion order *)

Section Collections.
Variable V : Type.

(** [m.get(k)] *)
Fixpoint mapGet (m : list (jsstring * V)) (k : jsstring) : option V :=
  match m with
  | [] => None
  | (k', v) :: r => if streq k' k then Some v else mapGet r k
  end.

(** [m.set(k, v)]: an existing key keeps its place. *)
Fixpoint mapSet (m : list (jsstring * V)) (k : jsstring) (v : V)
  : list (jsstring * V) :=
  match m with
  | [] => [(k, v)]
  | (k', v') :: r =>
      if streq k' k then (k', v) :: r else (k', v') :: mapSet r k v
  end.
End Collections.

(** [s.has(x)] *)
Definition setHas (s : list jsstring) (x : jsstring) : bool :=
  existsb (streq x) s.

(** [s.add(x)] *)
Definition setAdd (s : list jsstring) (x : jsstring) : list jsstring :=
  if setHas s x then s else s ++ [x].

End JS.

(** ** [src/types/network.ts] *)

Module Network.
Import JS.

(** A community label.  The type of the field is [number]; its only
    producers are the indices the Louvain library numbers communities with
    and the literal [1], so a label is a natural number, falsy when [0]. *)
Definition communityLabel := N.

Record Node : Type := mkNode {
  id : jsstring;
  name : jsstring;
  label : jsstring;
  group : number;
  inDegree : option number;
  outDegree : option number;
  betweenness : option number;
  closeness : option number;
  eigenvector : option number;
  community : option communityLabel
}.

Record Edge : Type := mkEdge {
  source : jsstring;
  target : jsstring;
  type : jsstring;
  weight : number
}.

(** The object literal [{ id, name, label: name, group: 1 }]. *)
Definition freshNode (i n : jsstring) : Node :=
  mkNode i n n PrimFloat.one None None None None None None.

(** The key of the invariant "one edge per (source, target, type)". *)
Definition triple (e : Edge) : jsstring * jsstring * jsstring :=
  (source e, target e, type e).
End Network.

(** ** [src/lib/parser.ts] *)

Module Parser.
Import JS Network.

(** *** [processCsvData], lines 138-150: merge duplicate edges *)

(** [`${re.source}-${re.target}-${re.type}`] *)
Definition csvKey (re : Edge) : jsstring :=
  source re ++ lit "-" ++ target re ++ lit "-" ++ type re.

(** One turn of [rawEdges.forEach]: [existing.weight += re.weight] changes
    the object held by the map, which keeps its place. *)
Definition csvMergeStep (edgeMap : list (jsstring * Edge)) (re : Edge)
  : list (jsstring * Edge) :=
  let key := csvKey re in
  match mapGet edgeMap key with
  | Some existing =>
      mapSet edgeMap key
        (mkEdge (source existing) (target existing) (type existing)
                (weight existing + weight re)%float)
  | None => mapSet edgeMap key re
  end.

(** [Array.from(edgeMap.values())] after the loop. *)
Definition mergeCsvEdges (rawEdges : list Edge) : list Edge :=
  map snd (fold_left csvMergeStep rawEdges []).

(** *** [processWithGemini] *)

(** The objects built by the callback of [relationships.map], still keyed
    by student name. *)
Record CanonicalEdge : Type := mkCanonical {
  c_source : jsstring;
  c_target : jsstring;
  c_type : jsstring;
  c_weight : number
}.

Section WithHost.
Context {host : Host}.

(** Lines 196-214: the callback of [relationships.map].  It returns an
    edge, or [null] ([Some None]), which the following [filter] removes, or
    it throws ([None]) when [String] or [Number] does: the four conversions
    come before the test that returns [null]. *)
Definition normalizeRelationship (rel : value) : option (option CanonicalEdge) :=
  if negb (truthy rel) || negb (typeofObject rel) then Some None
  else
    from <- ToString (nullish (field rel (lit "from")) (VString [])) ;;
    to <- ToString (nullish (field rel (lit "to")) (VString [])) ;;
    ty <- ToString (nullish (field rel (lit "type")) (VString (lit "general"))) ;;
    rawWeight <- ToNumber (field rel (lit "weight")) ;;
    let source := trim from in
    let target := trim to in
    let type := let t := trim ty in if truthy_str t then t else lit "general" in
    let weight :=
      if PrimFloat.is_finite rawWeight && (0 <? rawWeight)%float
      then rawWeight else PrimFloat.one in
    if negb (truthy_str source) || negb (truthy_str target) || streq source target
    then Some None
    else Some (Some (mkCanonical source target type weight)).

(** Lines 195-215: [relationships.map(...).filter(edge => edge !== null)];
    an exception of the callback ends the call. *)
Fixpoint canonicalEdgesOf (relationships : list value) : option (list CanonicalEdge) :=
  match relationships with
  | [] => Some []
  | rel :: rest =>
      edge <- normalizeRelationship rel ;;
      edges <- canonicalEdgesOf rest ;;
      Some (match edge with Some e => e :: edges | None => edges end)
  end.

(** Lines 217-225: the set of canonical names, in insertion order. *)
Definition addStudent (set : list jsstring) (student : value) : option (list jsstring) :=
  text <- ToString (nullish student (VString [])) ;;
  let name := trim text in
  Some (if truthy_str name then setAdd set name else set).

Fixpoint addStudents (students : list value) (set : list jsstring)
  : option (list jsstring) :=
  match students with
  | [] => Some set
  | student :: rest => set' <- addStudent set student ;; addStudents rest set'
  end.

Definition addEndpoints (set : list jsstring) (edge : CanonicalEdge) : list jsstring :=
  setAdd (setAdd set (c_source edge)) (c_target edge).

Definition canonicalNameSet (students : list value) (canonicalEdges : list CanonicalEdge)
  : option (list jsstring) :=
  set <- addStudents students [] ;;
  Some (fold_left addEndpoints canonicalEdges set).

(** Lines 274-285 (and Dashboard.tsx, lines 174-185):
    [Number.isFinite(Number(v)) ? Number(v) : undefined]. *)
Definition finiteOrUndefined (v : value) : option (option number) :=
  x <- ToNumber v ;;
  Some (if PrimFloat.is_finite x then Some x else None).

Record QualitySignals : Type := mkQualitySignals {
  respondentCount : option number;
  unknownStudentCount : option number;
  studentCountRatio : option number
}.

(** Lines 260-261 and 273-286: [payload.metadata ?? {}],
    [metadata.quality_signals ?? {}] and the three numbers read from it. *)
Definition qualitySignalsOf (payloadMetadata : value) : option QualitySignals :=
  let metadata := nullish payloadMetadata (VObject []) in
  let qualitySignals := nullish (field metadata (lit "quality_signals")) (VObject []) in
  respondentCount <- finiteOrUndefined (field qualitySignals (lit "respondent_count")) ;;
  unknownStudentCount <-
    finiteOrUndefined (field qualitySignals (lit "unknown_student_count")) ;;
  studentCountRatio <-
    finiteOrUndefined (field qualitySignals (lit "student_count_ratio")) ;;
  Some (mkQualitySignals respondentCount unknownStudentCount studentCountRatio).
End WithHost.

(** Lines 227-237: one node per canonical name, its id minted by
    [crypto.randomUUID()].  [randomUUID k] is what the [k]-th call of the
    run returns. *)
Definition mintStep (randomUUID : nat -> jsstring)
           (st : list Node * list (jsstring * jsstring)) (name : jsstring)
  : list Node * list (jsstring * jsstring) :=
  let i := lit "STU_" ++ randomUUID (length (fst st)) in
  (fst st ++ [freshNode i name], mapSet (snd st) name i).

Definition mintNodes (randomUUID : nat -> jsstring) (names : list jsstring)
  : list Node * list (jsstring * jsstring) :=
  fold_left (mintStep randomUUID) names ([], []).

(** [`${sourceId}::${targetId}::${edge.type}`] *)
Definition edgeKey (sourceId targetId type : jsstring) : jsstring :=
  sourceId ++ lit "::" ++ targetId ++ lit "::" ++ type.

(** Lines 240-257 (and the same loop in Dashboard.tsx, lines 139-156): one
    turn of [canonicalEdges.forEach]. *)
Definition edgeMapStep (nameToId : list (jsstring * jsstring))
           (edgeMap : list (jsstring * Edge)) (edge : CanonicalEdge)
  : list (jsstring * Edge) :=
  match mapGet nameToId (c_source edge), mapGet nameToId (c_target edge) with
  | Some sourceId, Some targetId =>
      if negb (truthy_str sourceId) || negb (truthy_str targetId)
         || streq sourceId targetId
      then edgeMap
      else
        let key := edgeKey sourceId targetId (c_type edge) in
        match mapGet edgeMap key with
        | Some existing =>
            mapSet edgeMap key
              (mkEdge (source existing) (target existing) (type existing)
                      (weight existing + c_weight edge)%float)
        | None =>
            mapSet edgeMap key (mkEdge sourceId targetId (c_type edge) (c_weight edge))
        end
  | _, _ => edgeMap
  end.

(** [Array.from(edgeMap.values())] after the loop. *)
Definition buildEdges (nameToId : list (jsstring * jsstring))
           (canonicalEdges : list CanonicalEdge) : list Edge :=
  map snd (fold_left (edgeMapStep nameToId) canonicalEdges []).

(** The part of the result that the claims speak about. *)
Record ParseResult : Type := mkParseResult {
  nodes : list Node;
  edges : list Edge
}.

(** [processWithGemini] from [payload], the parsed body of a response that
    is [ok], on.  [None] is the rejection of the promise by an exception:
    of a property read on [null], or of [String] or [Number] in the two
    loops or on the quality signals of the metadata.  The metadata is
    computed and left out of the result. *)
Definition processWithGemini {host : Host} (randomUUID : nat -> jsstring)
           (payload : value) : option ParseResult :=
  relationshipsRaw <- member payload (lit "relationships") ;;
  studentsRaw <- member payload (lit "students") ;;
  let relationships := arrayOrEmpty relationshipsRaw in
  let students := arrayOrEmpty studentsRaw in
  canonicalEdges <- canonicalEdgesOf relationships ;;
  names <- canonicalNameSet students canonicalEdges ;;
  let minted := mintNodes randomUUID names in
  let edges := buildEdges (snd minted) canonicalEdges in
  payloadMetadata <- member payload (lit "metadata") ;;
  qualitySignals <- qualitySignalsOf payloadMetadata ;;
  Some (mkParseResult (fst minted) edges).
End Parser.

(** ** The graphology interface

    The graph library is imported, not part of the repository.  What follows
    is its documented behaviour for the calls the analyzer makes: nodes and
    edges are kept in insertion order; [addNode] throws on a key that exists;
    [addDirectedEdge] throws when an endpoint is missing. *)

Module Graphology.
Import JS.

Inductive GraphType : Type := directed | undirected | mixed.

(** The attributes the analyzer reads back from a node.  [addNode(n.id,
    { ...n })] copies every field of the input node; the copies of [id] and
    of the six metric fields are never read again and are left out. *)
Record Attributes : Type := mkAttributes {
  name : jsstring;
  label : jsstring;
  group : number;
  community : option Network.communityLabel;
  inDegreeCentrality : option number;
  outDegreeCentrality : option number;
  betweennessCentrality : option number;
  closenessCentrality : option number;
  eigenvectorCentrality : option number
}.

Record GraphEdge : Type := mkGraphEdge {
  source : jsstring;
  target : jsstring;
  type : jsstring;
  weight : number
}.

Record Graph : Type := mkGraph {
  graphType : GraphType;
  multi : bool;
  nodes : list (jsstring * Attributes);
  edges : list GraphEdge
}.

(** [new Graph({ type, multi })] *)
Definition newGraph (t : GraphType) (m : bool) : Graph := mkGraph t m [] [].

(** [graph.hasNode(key)] *)
Definition hasNode (g : Graph) (key : jsstring) : bool :=
  existsb (fun kv => streq (fst kv) key) (nodes g).

(** [graph.addNode(key, attributes)] *)
Definition addNode (g : Graph) (key : jsstring) (a : Attributes) : option Graph :=
  if hasNode g key then None
  else Some (mkGraph (graphType g) (multi g) (nodes g ++ [(key, a)]) (edges g)).

Definition sameEnds (s t : jsstring) (e : GraphEdge) : bool :=
  streq (source e) s && streq (target e) t.

(** [graph.addDirectedEdge(source, target, { type, weight })] *)
Definition addDirectedEdge (g : Graph) (s t ty : jsstring) (w : number)
  : option Graph :=
  match graphType g with
  | undirected => None
  | _ =>
      if negb (hasNode g s) || negb (hasNode g t) then None
      else if negb (multi g) && existsb (sameEnds s t) (edges g) then None
      else Some (mkGraph (graphType g) (multi g) (nodes g)
                         (edges g ++ [mkGraphEdge s t ty w]))
  end.

(** [graph.copy()]: a new graph of the same type and options with the same
    nodes, attributes and edges. *)
Definition copy (g : Graph) : Graph :=
  mkGraph (graphType g) (multi g) (nodes g) (edges g).

(** [graph.updateEachNodeAttributes((key, attr) => f key attr)] *)
Definition updateEachNodeAttributes (f : jsstring -> Attributes -> Attributes)
           (g : Graph) : Graph :=
  mkGraph (graphType g) (multi g)
          (map (fun kv => (fst kv, f (fst kv) (snd kv))) (nodes g)) (edges g).

(** [graph.mapNodes((key, attr) => f key attr)] *)
Definition mapNodes (A : Type) (f : jsstring -> Attributes -> A) (g : Graph) : list A :=
  map (fun kv => f (fst kv) (snd kv)) (nodes g).

(** The routines of graphology-metrics and graphology-communities-louvain
    that the analyzer calls.  A centrality's [assign] either throws ([None])
    or stores one value on every node; [louvain] either throws or returns
    the object [communities], whose entry for a node may be missing.  The
    generator handed to [louvain] is given as the sequence of the values
    its successive calls return. *)
Class Metrics : Type := {
  inDegreeCentrality_assign : Graph -> option (jsstring -> number);
  outDegreeCentrality_assign : Graph -> option (jsstring -> number);
  betweennessCentrality_assign : Graph -> option (jsstring -> number);
  closenessCentrality_assign : Graph -> option (jsstring -> number);
  (** called with [{ maxIterations: 1000, tolerance: 1e-6 }] *)
  eigenvectorCentrality_assign : Graph -> option (jsstring -> number);
  (** called with [{ getEdgeWeight: "weight", rng, randomWalk: true }] *)
  louvain : Graph -> (nat -> number) -> option (jsstring -> option Network.communityLabel)
}.
End Graphology.

(** ** [src/lib/analyzer.ts] *)

Module Analyzer.
Import JS Network.
Module G := Graphology.

(** *** [createSeededRng] *)

(** One turn of the hashing loop: [seed ^= char.charCodeAt(0);
    seed = Math.imul(seed, 16777619)]. *)
Definition fnvStep (seed c : Z) : Z := imul (bxor seed c) 16777619.

(** The seed the closure starts from. *)
Definition initialSeed (seedSource : jsstring) : Z :=
  let seed := fold_left fnvStep (firstUnits seedSource) 2166136261 in
  if seed =? 0 then 1 else seed.

(** The three assignments of the closure. *)
Definition xorshift (seed : Z) : Z :=
  let seed := bxor seed (shl seed 13) in
  let seed := bxor seed (ushr seed 17) in
  bxor seed (shl seed 5).

(** [(seed >>> 0) / 4294967296]: the quotient of an integer below [2^32]
    by [2^32] is exact in binary64. *)
Definition unitInterval (seed : Z) : number :=
  (PrimFloat.of_uint63 (Uint63.of_Z (ushr seed 0)) / 4294967296)%float.

(** The state after [k] calls of the closure. *)
Fixpoint seedAfter (k : nat) (seed : Z) : Z :=
  match k with
  | O => seed
  | S k' => xorshift (seedAfter k' seed)
  end.

(** [createSeededRng(seedSource)]: call number [k] (from 0) returns
    [createSeededRng seedSource k]. *)
Definition createSeededRng (seedSource : jsstring) : nat -> number :=
  fun k => unitInterval (seedAfter (S k) (initialSeed seedSource)).

(** *** [Array.prototype.sort] without a comparator, on strings *)

(** [a <= b] in the order of UTF-16 code units. *)
Fixpoint strLeb (a b : jsstring) : bool :=
  match a, b with
  | [], _ => true
  | _ :: _, [] => false
  | x :: a', y :: b' => if x =? y then strLeb a' b' else x <? y
  end.

Fixpoint insertSorted (x : jsstring) (l : list jsstring) : list jsstring :=
  match l with
  | [] => [x]
  | y :: r => if strLeb x y then x :: l else y :: insertSorted x r
  end.

(** The order is total and two strings that compare equal are the same
    string, so every sorting algorithm returns this list. *)
Definition sort (l : list jsstring) : list jsstring :=
  fold_right insertSorted [] l.

Section WithHost.
Context {host : Host}.

(** [`${edge.source}>${edge.target}:${edge.type}:${edge.weight}`] *)
Definition edgeText (edge : Edge) : jsstring :=
  source edge ++ lit ">" ++ target edge ++ lit ":" ++ type edge ++ lit ":"
    ++ NumberToString (weight edge).

(** Lines 70-76. *)
Definition seedSourceOf (nodes : list Node) (edges : list Edge) : jsstring :=
  joinWith (lit "|") (sort (map id nodes)) ++ lit "::"
    ++ joinWith (lit "|") (sort (map edgeText edges)).
End WithHost.

(** *** [analyzeNetwork] *)

(** [{ ...n }] as read back by the analyzer. *)
Definition attributesOf (n : Node) : G.Attributes :=
  G.mkAttributes (name n) (label n) (group n) (community n)
                 None None None None None.

(** Lines 32-36. *)
Definition addNodeStep (acc : option G.Graph) (n : Node) : option G.Graph :=
  match acc with
  | None => None
  | Some g =>
      if G.hasNode g (id n) then Some g else G.addNode g (id n) (attributesOf n)
  end.

(** Lines 38-42. *)
Definition addEdgeStep (acc : option G.Graph) (e : Edge) : option G.Graph :=
  match acc with
  | None => None
  | Some g =>
      if G.hasNode g (source e) && G.hasNode g (target e)
      then G.addDirectedEdge g (source e) (target e) (type e) (weight e)
      else Some g
  end.

(** Lines 30-42: the graph, or the exception that escapes the builder. *)
Definition buildGraph (nodes : list Node) (edges : list Edge) : option G.Graph :=
  fold_left addEdgeStep edges
    (fold_left addNodeStep nodes (Some (G.newGraph G.directed true))).

Definition setInDegree (f : jsstring -> number) (k : jsstring) (a : G.Attributes) :=
  G.mkAttributes (G.name a) (G.label a) (G.group a) (G.community a)
    (Some (f k)) (G.outDegreeCentrality a) (G.betweennessCentrality a)
    (G.closenessCentrality a) (G.eigenvectorCentrality a).

Definition setOutDegree (f : jsstring -> number) (k : jsstring) (a : G.Attributes) :=
  G.mkAttributes (G.name a) (G.label a) (G.group a) (G.community a)
    (G.inDegreeCentrality a) (Some (f k)) (G.betweennessCentrality a)
    (G.closenessCentrality a) (G.eigenvectorCentrality a).

Definition setBetweenness (f : jsstring -> number) (k : jsstring) (a : G.Attributes) :=
  G.mkAttributes (G.name a) (G.label a) (G.group a) (G.community a)
    (G.inDegreeCentrality a) (G.outDegreeCentrality a) (Some (f k))
    (G.closenessCentrality a) (G.eigenvectorCentrality a).

Definition setCloseness (f : jsstring -> number) (k : jsstring) (a : G.Attributes) :=
  G.mkAttributes (G.name a) (G.label a) (G.group a) (G.community a)
    (G.inDegreeCentrality a) (G.outDegreeCentrality a) (G.betweennessCentrality a)
    (Some (f k)) (G.eigenvectorCentrality a).

Definition setEigenvector (f : jsstring -> number) (k : jsstring) (a : G.Attributes) :=
  G.mkAttributes (G.name a) (G.label a) (G.group a) (G.community a)
    (G.inDegreeCentrality a) (G.outDegreeCentrality a) (G.betweennessCentrality a)
    (G.closenessCentrality a) (Some (f k)).

(** [c || 1] for a community label that may be missing. *)
Definition orOne (c : option communityLabel) : communityLabel :=
  match c with
  | Some 0%N | None => 1%N
  | Some l => l
  end.

(** [graph.setNodeAttribute(node, 'community', communities[node] || 1)] *)
Definition setCommunity (communities : jsstring -> option communityLabel)
           (k : jsstring) (a : G.Attributes) :=
  G.mkAttributes (G.name a) (G.label a) (G.group a) (Some (orOne (communities k)))
    (G.inDegreeCentrality a) (G.outDegreeCentrality a) (G.betweennessCentrality a)
    (G.closenessCentrality a) (G.eigenvectorCentrality a).

Section WithLibraries.
Context {host : Host} {lib : G.Metrics}.

(** Lines 48-51: one [try] around both degree centralities. *)
Definition degreeStage (g : G.Graph) : G.Graph :=
  match G.inDegreeCentrality_assign g with
  | None => g
  | Some fin =>
      let g1 := G.updateEachNodeAttributes (setInDegree fin) g in
      match G.outDegreeCentrality_assign g1 with
      | None => g1
      | Some fout => G.updateEachNodeAttributes (setOutDegree fout) g1
      end
  end.

(** Lines 53-55. *)
Definition betweennessStage (g : G.Graph) : G.Graph :=
  match G.betweennessCentrality_assign g with
  | None => g
  | Some f => G.updateEachNodeAttributes (setBetweenness f) g
  end.

(** Lines 57-61. *)
Definition closenessStage (g : G.Graph) : G.Graph :=
  match G.closenessCentrality_assign g with
  | None => g
  | Some f => G.updateEachNodeAttributes (setCloseness f) g
  end.

(** Lines 63-65. *)
Definition eigenvectorStage (g : G.Graph) : G.Graph :=
  match G.eigenvectorCentrality_assign g with
  | None => g
  | Some f => G.updateEachNodeAttributes (setEigenvector f) g
  end.

(** Line 80: the first argument of the call of [louvain]. *)
Definition louvainInput (g : G.Graph) : G.Graph := G.copy g.

(** Lines 69-90. *)
Definition communityStage (nodes : list Node) (edges : list Edge) (g : G.Graph)
  : G.Graph :=
  let rng := createSeededRng (seedSourceOf nodes edges) in
  match G.louvain (louvainInput g) rng with
  | None => g
  | Some communities => G.updateEachNodeAttributes (setCommunity communities) g
  end.

(** Lines 93-104: the callback of [graph.mapNodes]. *)
Definition enrich (node : jsstring) (attr : G.Attributes) : Node :=
  mkNode node (G.name attr) (G.label attr) (G.group attr)
         (Some (orZero (G.inDegreeCentrality attr)))
         (Some (orZero (G.outDegreeCentrality attr)))
         (Some (orZero (G.betweennessCentrality attr)))
         (Some (orZero (G.closenessCentrality attr)))
         (Some (orZero (G.eigenvectorCentrality attr)))
         (Some (orOne (G.community attr))).

(** Line 107: [(n.inDegree || 0) === 0]. *)
Definition isIsolated (n : Node) : bool :=
  (orZero (inDegree n) =? 0)%float.

Record AnalysisResult : Type := mkResult {
  graph : G.Graph;
  nodes : list Node;
  edges : list Edge;
  isolatedStudents : list Node
}.

(** The graph after every stage, as [graph.mapNodes] finds it. *)
Definition analyzedGraph (nodes : list Node) (edges : list Edge) (g : G.Graph)
  : G.Graph :=
  communityStage nodes edges
    (eigenvectorStage (closenessStage (betweennessStage (degreeStage g)))).

(** [analyzeNetwork(nodes, edges)]; [None] would be an exception thrown
    outside the [try] blocks, that is, by the builder. *)
Definition analyzeNetwork (nodes : list Node) (edges : list Edge)
  : option AnalysisResult :=
  match buildGraph nodes edges with
  | None => None
  | Some g0 =>
      let g := analyzedGraph nodes edges g0 in
      let enrichedNodes := G.mapNodes enrich g in
      Some (mkResult g enrichedNodes edges (filter isIsolated enrichedNodes))
  end.
End WithLibraries.
End Analyzer.

(** ** [src/components/dashboard/Dashboard.tsx] *)

Module Dashboard.
Import JS Network.

(** [buildStableStudentId]: the FNV-1a loop of 32-bit arithmetic over the
    first code unit of every code point, printed in base 36. *)
Definition buildStableStudentId (name : jsstring) : jsstring :=
  let hash := fold_left Analyzer.fnvStep (firstUnits name) 2166136261 in
  lit "STU_" ++ intToString 36 (ushr hash 0).

(** [`${candidateId}_${suffix}`] *)
Definition withSuffix (candidateId : jsstring) (suffix : Z) : jsstring :=
  candidateId ++ lit "_" ++ intToString 10 suffix.

(** [while (usedIds.has(`${candidateId}_${suffix}`)) suffix += 1;]
    The loop leaves at the first free suffix; [fuel] turns are enough when
    [fuel] is the size of [usedIds] (see [nextFreeSuffix_free]). *)
Fixpoint nextFreeSuffix (fuel : nat) (usedIds : list jsstring)
         (candidateId : jsstring) (suffix : Z) : Z :=
  match fuel with
  | O => suffix
  | S k =>
      if setHas usedIds (withSuffix candidateId suffix)
      then nextFreeSuffix k usedIds candidateId (suffix + 1)
      else suffix
  end.

Section WithHost.
Context {host : Host}.

(** [normalizeStudentNameKey] *)
Definition normalizeStudentNameKey (name : jsstring) : jsstring :=
  toLowerCase (collapseWhiteSpace (trim name)).

(** Lines 62-65: [previousIdByName], from [previousNodes || []]. *)
Definition previousIdByName (previousNodes : option (list Node))
  : list (jsstring * jsstring) :=
  fold_left (fun m node => mapSet m (normalizeStudentNameKey (name node)) (id node))
            (match previousNodes with Some l => l | None => [] end) [].

(** Line 72: [reusedId || buildStableStudentId(name)]. *)
Definition firstCandidate (prev : list (jsstring * jsstring)) (name : jsstring)
  : jsstring :=
  match mapGet prev (normalizeStudentNameKey name) with
  | Some reusedId =>
      if truthy_str reusedId then reusedId else buildStableStudentId name
  | None => buildStableStudentId name
  end.

(** Lines 74-78. *)
Definition freeCandidate (usedIds : list jsstring) (candidateId : jsstring)
  : jsstring :=
  if setHas usedIds candidateId
  then withSuffix candidateId
         (nextFreeSuffix (length usedIds) usedIds candidateId 2)
  else candidateId.

(** Lines 69-82: one turn of [canonicalNames.forEach], on the pair
    ([usedIds], [nameToId]). *)
Definition resolveStep (prev : list (jsstring * jsstring))
           (st : list jsstring * list (jsstring * jsstring)) (name : jsstring)
  : list jsstring * list (jsstring * jsstring) :=
  let candidateId := freeCandidate (fst st) (firstCandidate prev name) in
  (setAdd (fst st) candidateId, mapSet (snd st) name candidateId).

(** [resolveStudentIds(canonicalNames, previousNodes)] *)
Definition resolveStudentIds (canonicalNames : list jsstring)
           (previousNodes : option (list Node)) : list (jsstring * jsstring) :=
  snd (fold_left (resolveStep (previousIdByName previousNodes))
                 canonicalNames ([], [])).

(** Lines 128-136: [nameToId.get(name) || buildStableStudentId(name)]. *)
Definition nodeOf (nameToId : list (jsstring * jsstring)) (name : jsstring) : Node :=
  let i := match mapGet nameToId name with
           | Some i => if truthy_str i then i else buildStableStudentId name
           | None => buildStableStudentId name
           end in
  freshNode i name.

Definition nodesOf (nameToId : list (jsstring * jsstring))
           (canonicalNames : list jsstring) : list Node :=
  map (nodeOf nameToId) canonicalNames.

(** [buildParseResultFromAnalyzePayload(payload, rawCsvData, previousNodes)].
    [None] is an exception: of a property read on [null], of [String] or
    [Number] in the two loops over the payload or on the quality signals of
    the metadata, or of the graph builder.  The metadata is computed and
    left out of the result. *)
Definition buildParseResultFromAnalyzePayload {lib : Graphology.Metrics}
           (payload : value)
           (previousNodes : option (list Node)) : option Parser.ParseResult :=
  relationshipsRaw <- member payload (lit "relationships") ;;
  studentsRaw <- member payload (lit "students") ;;
  let relationships := arrayOrEmpty relationshipsRaw in
  let students := arrayOrEmpty studentsRaw in
  canonicalEdges <- Parser.canonicalEdgesOf relationships ;;
  canonicalNames <- Parser.canonicalNameSet students canonicalEdges ;;
  let nameToId := resolveStudentIds canonicalNames previousNodes in
  let nodes := nodesOf nameToId canonicalNames in
  let edges := Parser.buildEdges nameToId canonicalEdges in
  analyzedData <- Analyzer.analyzeNetwork nodes edges ;;
  apiMetadata <- member payload (lit "metadata") ;;
  qualitySignals <- Parser.qualitySignalsOf apiMetadata ;;
  Some (Parser.mkParseResult (Analyzer.nodes analyzedData)
                             (Analyzer.edges analyzedData)).
End WithHost.
End Dashboard.

(** ** [src/lib/excel.ts] and [src/app/api/export-excel/route.ts]:
       the names of the exported workbook *)

Module Excel.
Import JS.

(** The class [[a-zA-Z0-9._-]]. *)
Definition isFileNameChar (c : Z) : bool :=
  ((97 <=? c) && (c <=? 122)) || ((65 <=? c) && (c <=? 90))
  || ((48 <=? c) && (c <=? 57)) || (c =? 46) || (c =? 95) || (c =? 45).

(** The class [[\\/:*?\[\]]]. *)
Definition isSheetNameForbidden (c : Z) : bool :=
  (c =? 92) || (c =? 47) || (c =? 58) || (c =? 42) || (c =? 63)
  || (c =? 91) || (c =? 93).

(** [s.endsWith(suffix)] *)
Definition endsWith (s suffix : jsstring) : bool :=
  (length suffix <=? length s)%nat
  && streq (skipn (length s - length suffix) s) suffix.

Definition fallbackFileName : jsstring := lit "class-sna-export.xlsx".

(** The three lines that both sanitisers of file names share:
    [fileName.replace(/[^a-zA-Z0-9._-]/g, "").trim()], the fallback for an
    empty result, and the extension. *)
Definition cleanFileName (fileName : jsstring) : jsstring :=
  let cleaned := trim (filter isFileNameChar fileName) in
  if negb (truthy_str cleaned) then fallbackFileName
  else if endsWith cleaned (lit ".xlsx") then cleaned
       else cleaned ++ lit ".xlsx".

(** [sanitizeClientFileName], excel.ts. *)
Definition sanitizeClientFileName (fileName : jsstring) : jsstring :=
  cleanFileName fileName.

(** [sanitizeDownloadFileName], route.ts: the name may be missing. *)
Definition sanitizeDownloadFileName (fileName : option jsstring) : jsstring :=
  match fileName with
  | None => fallbackFileName
  | Some f => if negb (truthy_str f) then fallbackFileName else cleanFileName f
  end.

(** [sanitizeSheetName], route.ts. *)
Definition sanitizeSheetName (name fallback : jsstring) : jsstring :=
  let cleaned := trim (filter (fun c => negb (isSheetNameForbidden c)) name) in
  if negb (truthy_str cleaned) then fallback else firstn 31 cleaned.
End Excel.

(** ** Property access on plain objects

    [o[key]] on an object made by an object literal or by [{}]: an own
    property, or a member of [Object.prototype]. *)

Module JSObject.
Import JS.

(** The properties inherited from [Object.prototype]: functions, and the
    prototype itself for [__proto__]. *)
Definition objectPrototypeKeys : list jsstring :=
  [lit "constructor"; lit "hasOwnProperty"; lit "isPrototypeOf";
   lit "propertyIsEnumerable"; lit "toLocaleString"; lit "toString";
   lit "valueOf"; lit "__proto__"; lit "__defineGetter__";
   lit "__defineSetter__"; lit "__lookupGetter__"; lit "__lookupSetter__"].

Inductive Lookup (V : Type) : Type :=
| Own (v : V)
| Missing
| Inherited.
Arguments Own {V} v.
Arguments Missing {V}.
Arguments Inherited {V}.

(** [o[key]], from the own properties of [o]. *)
Definition get {V : Type} (own : list (jsstring * V)) (key : jsstring) : Lookup V :=
  match mapGet own key with
  | Some v => Own v
  | None => if setHas objectPrototypeKeys key then Inherited else Missing
  end.
End JSObject.

(** ** [src/app/api/analyze/route.ts]: the normaliser of the server

    [normalizeGeminiPayload] reads the parsed answer of the model before the
    route sends it on; the client then reads the response with the loops
    modelled in [Parser].  The members [question_types] and
    [normalization_notes] of the metadata are computed, since [String] can
    throw on their entries, and left out of the result. *)

Module AnalyzeRoute.
Import JS.

(** [AnalyzeRelationship]: [{ from, to, type, weight }]. *)
Record AnalyzeRelationship : Type := mkRelationship {
  rel_from : jsstring;
  rel_to : jsstring;
  rel_type : jsstring;
  rel_weight : number
}.

Record AnalyzeResult : Type := mkAnalyzeResult {
  students : list jsstring;
  relationships : list AnalyzeRelationship
}.

Section WithHost.
Context {host : Host}.

(** Lines 205-215: the callback of [obj.relationships.map]: a
    relationship, or [null] ([Some None]), or an exception of [String] or
    [Number] ([None]). *)
Definition normalizeRelationship (rel : value) : option (option AnalyzeRelationship) :=
  if negb (truthy rel) || negb (typeofObject rel) then Some None
  else
    fromText <- ToString (nullish (field rel (lit "from")) (VString [])) ;;
    toText <- ToString (nullish (field rel (lit "to")) (VString [])) ;;
    typeText <- ToString (nullish (field rel (lit "type")) (VString (lit "general"))) ;;
    rawWeight <- ToNumber (field rel (lit "weight")) ;;
    let from := trim fromText in
    let to := trim toText in
    let type := let t := trim typeText in if truthy_str t then t else lit "general" in
    let weight :=
      if PrimFloat.is_finite rawWeight && (0 <? rawWeight)%float
      then rawWeight else PrimFloat.one in
    if negb (truthy_str from) || negb (truthy_str to) || streq from to
    then Some None
    else Some (Some (mkRelationship from to type weight)).

Fixpoint relationshipsOf (items : list value) : option (list AnalyzeRelationship) :=
  match items with
  | [] => Some []
  | rel :: rest =>
      edge <- normalizeRelationship rel ;;
      edges <- relationshipsOf rest ;;
      Some (match edge with Some e => e :: edges | None => edges end)
  end.

(** Line 200: [obj.students.map((v) => String(v ?? "").trim()).filter(Boolean)];
    line 240 does the same on [notesRaw]. *)
Fixpoint studentsOf (items : list value) : option (list jsstring) :=
  match items with
  | [] => Some []
  | v :: rest =>
      text <- ToString (nullish v (VString [])) ;;
      names <- studentsOf rest ;;
      let name := trim text in
      Some (if truthy_str name then name :: names else names)
  end.

(** Lines 242-246: [new Set(students)], then both ends of every
    relationship. *)
Definition addEnds (set : list jsstring) (edge : AnalyzeRelationship) : list jsstring :=
  setAdd (setAdd set (rel_from edge)) (rel_to edge).

(** [Object.entries(v)] for a value that passed [typeof v === "object"] and
    [!!v]: the own properties of an object, each key once, and the items of
    an array under their indices.  (For an object, the keys that are
    indices come first in [Object.entries]; the order plays no part in what
    follows.) *)
Definition entries (v : value) : list (jsstring * value) :=
  match v with
  | VObject props =>
      map (fun k => (k, getProp props k)) (fold_left setAdd (map fst props) [])
  | VArray items =>
      combine (map (fun i => intToString 10 (Z.of_nat i)) (seq 0 (length items))) items
  | _ => []
  end.

(** Lines 225-231: the callback of [Object.entries(questionTypesRaw).forEach],
    on the object [question_types]. *)
Fixpoint questionTypesOf (es : list (jsstring * value))
         (question_types : list (jsstring * jsstring))
  : option (list (jsstring * jsstring)) :=
  match es with
  | [] => Some question_types
  | (key, value) :: rest =>
      text <- ToString (nullish value (VString [])) ;;
      let k := trim key in
      let v := trim text in
      questionTypesOf rest
        (if truthy_str k && truthy_str v then mapSet question_types k v
         else question_types)
  end.

(** Lines 219-222 and 234-237:
    [obj.metadata && typeof obj.metadata === "object" ? obj.metadata[k] : undefined]. *)
Definition metadataMember (obj : value) (k : jsstring) : value :=
  let metadata := field obj (lit "metadata") in
  if truthy metadata && typeofObject metadata then field metadata k else VUndefined.

(** [normalizeGeminiPayload]; [None] is an exception of [String] or
    [Number], which the route answers with status 500. *)
Definition normalizeGeminiPayload (payload : value) : option AnalyzeResult :=
  let obj := if truthy payload && typeofObject payload then payload else VObject [] in
  students <-
    match field obj (lit "students") with
    | VArray items => studentsOf items
    | _ => Some []
    end ;;
  relationships <-
    match field obj (lit "relationships") with
    | VArray items => relationshipsOf items
    | _ => Some []
    end ;;
  let questionTypesRaw := metadataMember obj (lit "question_types") in
  question_types <-
    (if truthy questionTypesRaw && typeofObject questionTypesRaw
     then questionTypesOf (entries questionTypesRaw) []
     else Some []) ;;
  let notesRaw := metadataMember obj (lit "normalization_notes") in
  normalization_notes <-
    match notesRaw with
    | VArray items => studentsOf items
    | _ => Some []
    end ;;
  let studentSet := fold_left addEnds relationships (fold_left setAdd students []) in
  Some (mkAnalyzeResult studentSet relationships).

(** *** [resolveGeminiModel] *)

Definition flashModel : jsstring := lit "gemini-3-flash-preview".

(** Lines 262-274: the object literal [aliasMap]. *)
Definition aliasMap : list (jsstring * jsstring) :=
  [(lit "pro", lit "gemini-2.5-pro");
   (lit "2.5-pro", lit "gemini-2.5-pro");
   (lit "gemini-2.5-pro", lit "gemini-2.5-pro");
   (lit "3.1-pro", lit "gemini-3.1-pro-preview");
   (lit "3.1-pro-preview", lit "gemini-3.1-pro-preview");
   (lit "gemini-3.1-pro-preview", lit "gemini-3.1-pro-preview");
   (lit "pro-preview", lit "gemini-3.1-pro-preview");
   (lit "3.0-flash", lit "gemini-3-flash-preview");
   (lit "3-flash", lit "gemini-3-flash-preview");
   (lit "flash", lit "gemini-3-flash-preview");
   (lit "gemini-3-flash-preview", lit "gemini-3-flash-preview")].

(** What the function returns: the declared type is [string], but
    [aliasMap[normalized]] is a member of [Object.prototype] when
    [normalized] names one. *)
Inductive ModelChoice : Type :=
| ModelName (name : jsstring)
| PrototypeMember (key : jsstring).

Definition resolveGeminiModel (model : option jsstring) : ModelChoice :=
  let normalized := toLowerCase (trim (match model with Some m => m | None => [] end)) in
  if negb (truthy_str normalized) then ModelName flashModel
  else
    match JSObject.get aliasMap normalized with
    | JSObject.Own name => ModelName (if truthy_str name then name else flashModel)
    | JSObject.Missing => ModelName flashModel
    | JSObject.Inherited => PrototypeMember normalized
    end.

(** [POST], lines 383-384 and 473-474: the model that is run first. *)
Definition primaryModelOf (requestedModel : jsstring) : ModelChoice :=
  let requestedModelName := resolveGeminiModel (Some requestedModel) in
  let preferFlashFirst :=
    negb (truthy_str requestedModel) ||
    match requestedModelName with
    | ModelName name => streq name flashModel
    | PrototypeMember _ => false
    end in
  if preferFlashFirst then ModelName flashModel else requestedModelName.
End WithHost.
End AnalyzeRoute.

(** ** The upload page, [UploadPage]

    [handleFileUpload], from [payload], the parsed body of a response of
    the analyze route that is [ok], on: the result of [processWithGemini]
    goes through [analyzeNetwork], and the nodes and edges of the analysis
    are handed to the dashboard.  [None] is an exception, caught by the
    handler: nothing is handed on. *)

Module UploadPage.
Import JS Network.

Definition handleFileUpload {host : Host} {lib : Graphology.Metrics}
           (randomUUID : nat -> jsstring) (payload : value)
  : option Parser.ParseResult :=
  result <- Parser.processWithGemini randomUUID payload ;;
  analyzedData <- Analyzer.analyzeNetwork (Parser.nodes result) (Parser.edges result) ;;
  Some (Parser.mkParseResult (Analyzer.nodes analyzedData)
                             (Analyzer.edges analyzedData)).
End UploadPage.

(** ** [src/lib/parser.ts]: [processCsvData]

    The function from [results.data] on: the rows that [Papa.parse] returns
    with [header: true], each row as its own properties in the order of
    [Object.keys].  A field of the line is stored as a string under the
    header of its column; the fields of a line that has more of them than
    the header are stored together, as an array, under [__parsed_extra]
    (the source types a row as [Record<string, string>] all the same).  The
    Korean keywords are written as their UTF-16 code units. *)

Module CsvParser.
Import JS Network.

(** What a row holds under a key. *)
Inductive Cell : Type :=
| Text (s : jsstring)
| Fields (items : list jsstring).

Definition Row : Type := list (jsstring * Cell).

(** The ways in which the promise is rejected: the three errors thrown by
    the function, and the [TypeError] of [.trim()] on a value that is not a
    string. *)
Inductive CsvError : Type :=
| EmptyCsv
| TooFewColumns
| NoRelationshipColumns
| TrimIsNotAFunction.

Inductive Outcome (A : Type) : Type :=
| Resolve (a : A)
| Reject (e : CsvError).
Arguments Resolve {A} a.
Arguments Reject {A} e.

Definition bind {A B : Type} (x : Outcome A) (f : A -> Outcome B) : Outcome B :=
  match x with
  | Resolve a => f a
  | Reject e => Reject e
  end.

(** *** Reading a cell *)

(** [row[col]] *)
Definition getCell (row : Row) (col : jsstring) : JSObject.Lookup Cell :=
  JSObject.get row col.

(** [(row[col] || "").trim()]: an array and an inherited property are
    truthy and have no method [trim]. *)
Definition cellText (row : Row) (col : jsstring) : Outcome jsstring :=
  match getCell row col with
  | JSObject.Own (Text s) => Resolve (trim (if truthy_str s then s else []))
  | JSObject.Own (Fields _) => Reject TrimIsNotAFunction
  | JSObject.Missing => Resolve (trim [])
  | JSObject.Inherited => Reject TrimIsNotAFunction
  end.

(** *** Strings *)

Fixpoint startsWith (s prefix : jsstring) : bool :=
  match prefix, s with
  | [], _ => true
  | _ :: _, [] => false
  | a :: p, b :: r => (a =? b) && startsWith r p
  end.

(** [s.includes(search)] *)
Fixpoint includes (s search : jsstring) : bool :=
  startsWith s search ||
  match s with
  | [] => false
  | _ :: r => includes r search
  end.

(** The class [[,;\n]]. *)
Definition isSeparator (c : Z) : bool := (c =? 44) || (c =? 59) || (c =? 10).

(** [s.split(/[,;\n]+/)]: the pieces between the maximal runs of
    separators; [piece] is the piece being read, [inRun] records that the
    previous code unit was a separator. *)
Fixpoint splitFrom (piece : jsstring) (inRun : bool) (s : jsstring) : list jsstring :=
  match s with
  | [] => [piece]
  | c :: r =>
      if isSeparator c
      then (if inRun then splitFrom piece true r else piece :: splitFrom [] true r)
      else splitFrom (piece ++ [c]) false r
  end.

Definition split (s : jsstring) : list jsstring := splitFrom [] false s.

(** Line 114:
    [response.split(/[,;\n]+/).map(t => t.trim()).filter(Boolean)]. *)
Definition targetsOf (response : jsstring) : list jsstring :=
  filter truthy_str (map trim (split response)).

(** *** Columns *)

(** Line 59: name, student, respondent, oneself (in Korean), and [name],
    [student], [respondent]. *)
Definition respondentKeywords : list jsstring :=
  [[51060; 47492]; [54617; 49373]; [51025; 45813; 51088]; [48376; 51064];
   lit "name"; lit "student"; lit "respondent"].

(** Line 66: [timestamp], then timestamp, submission, time (in Korean), and
    [time]. *)
Definition excludeKeywords : list jsstring :=
  [lit "timestamp"; [53440; 51076; 49828; 53484; 54532]; [51228; 52636];
   [49884; 44036]; lit "time"].

(** Line 67: school year, class, sex (in Korean), and [gender], [grade],
    [class]. *)
Definition metadataKeywords : list jsstring :=
  [[54617; 45380]; [48152]; [49457; 48324];
   lit "gender"; lit "grade"; lit "class"].

(** Lines 83-93: the entries of [typeMap], in the order of
    [Object.entries]. *)
Definition typeMap : list (jsstring * jsstring) :=
  [([52828; 44396], lit "friendship");
   ([51339; 50500], lit "preference");
   ([54801; 50629], lit "collaboration");
   ([46020; 50880], lit "help");
   ([44277; 48512], lit "study");
   ([49440; 53469], lit "selection");
   ([54632; 44760], lit "together");
   ([49548; 53685], lit "communication");
   ([49888; 47280], lit "trust")].

Section WithHost.
Context {host : Host}.

(** [keywords.some(keyword => col.toLowerCase().includes(keyword))] *)
Definition mentions (keywords : list jsstring) (col : jsstring) : bool :=
  existsb (fun keyword => includes (toLowerCase col) keyword) keywords.

(** Line 53: [Object.keys(data[0]).map(k => k.trim())]. *)
Definition columnsOf (row : Row) : list jsstring := map (fun kv => trim (fst kv)) row.

(** Lines 60-63; [columns[0]] is read when [columns] has two entries at
    least. *)
Definition respondentColOf (columns : list jsstring) : jsstring :=
  match find (mentions respondentKeywords) columns with
  | Some col => if truthy_str col then col else hd [] columns
  | None => hd [] columns
  end.

(** Lines 68-72. *)
Definition relationshipColsOf (columns : list jsstring) (respondentCol : jsstring)
  : list jsstring :=
  filter (fun col => negb (streq col respondentCol)
                     && negb (mentions excludeKeywords col)
                     && negb (mentions metadataKeywords col))
         columns.

(** Lines 95-101: [getRelType]. *)
Definition getRelType (colName : jsstring) : jsstring :=
  match find (fun entry => includes (toLowerCase colName) (fst entry)) typeMap with
  | Some entry => snd entry
  | None => lit "general"
  end.

(** *** The loop over the rows, on the pair ([nodeSet], [rawEdges]) *)

Definition State : Type := (list jsstring * list Edge)%type.

(** Lines 116-126: one turn of [targets.forEach]. *)
Definition targetStep (sourceName relType : jsstring) (st : State) (targetName : jsstring)
  : State :=
  if truthy_str targetName && negb (streq targetName sourceName)
  then (setAdd (fst st) targetName,
        snd st ++ [mkEdge sourceName targetName relType PrimFloat.one])
  else st.

(** Lines 108-127: one turn of [relationshipCols.forEach]. *)
Definition colStep (row : Row) (sourceName : jsstring) (acc : Outcome State)
           (col : jsstring) : Outcome State :=
  bind acc (fun st =>
    let relType := getRelType col in
    bind (cellText row col) (fun response =>
      if negb (truthy_str response) then Resolve st
      else Resolve (fold_left (targetStep sourceName relType) (targetsOf response) st))).

(** Lines 103-128: one turn of [data.forEach]. *)
Definition rowStep (respondentCol : jsstring) (relationshipCols : list jsstring)
           (acc : Outcome State) (row : Row) : Outcome State :=
  bind acc (fun st =>
    bind (cellText row respondentCol) (fun sourceName =>
      if negb (truthy_str sourceName) then Resolve st
      else fold_left (colStep row sourceName) relationshipCols
                     (Resolve (setAdd (fst st) sourceName, snd st)))).

(** [processCsvData], from [results.data] on; the metadata of the result
    (the two lengths) is left out. *)
Definition processCsvData (data : list Row) : Outcome Parser.ParseResult :=
  match data with
  | [] => Reject EmptyCsv
  | row0 :: _ =>
      let columns := columnsOf row0 in
      if (length columns <? 2)%nat then Reject TooFewColumns
      else
        let respondentCol := respondentColOf columns in
        let relationshipCols := relationshipColsOf columns respondentCol in
        match relationshipCols with
        | [] => Reject NoRelationshipColumns
        | _ :: _ =>
            bind (fold_left (rowStep respondentCol relationshipCols) data (Resolve ([], [])))
                 (fun st =>
                    Resolve (Parser.mkParseResult
                               (map (fun name => freshNode name name) (fst st))
                               (Parser.mergeCsvEdges (snd st))))
        end
  end.
End WithHost.
End CsvParser.

(** ** Instances for running the model

    A host that covers what the examples below need: lower-casing of the
    ASCII letters, and the decimal form of the integers (any other number is
    printed as ["NaN"], any string that is not a run of decimal digits is
    read as [NaN]).  The theorems are stated for every host; the examples run
    on strings and numbers where this one agrees with JavaScript. *)

Module Examples.
Import JS Network.

Definition asciiLower (c : Z) : Z :=
  if (65 <=? c) && (c <=? 90) then c + 32 else c.

(** The integer a binary64 value denotes, when it is one. *)
Definition integerOf (x : number) : option Z :=
  match Prim2SF x with
  | S754_zero _ => Some 0
  | S754_finite s m e =>
      let v := if 0 <=? e then Z.pos m * 2 ^ e
               else Z.pos m / 2 ^ (- e) in
      if (0 <=? e) || (Z.pos m mod 2 ^ (- e) =? 0)
      then Some (if s then - v else v)
      else None
  | _ => None
  end.

Definition printInteger (x : number) : jsstring :=
  match integerOf x with
  | Some z => if z <? 0 then lit "-" ++ intToString 10 (- z) else intToString 10 z
  | None => lit "NaN"
  end.

Definition isDigit (c : Z) : bool := (48 <=? c) && (c <=? 57).

Definition readDigits (s : jsstring) : number :=
  match s with
  | [] => PrimFloat.zero
  | _ =>
      if forallb isDigit s
      then PrimFloat.of_uint63
             (Uint63.of_Z (fold_left (fun a c => a * 10 + (c - 48)) s 0))
      else PrimFloat.nan
  end.

#[export] Instance asciiHost : Host := {|
  toLowerCase := map asciiLower;
  NumberToString := printInteger;
  StringToNumber := readDigits
|}.

Definition countIf (A : Type) (p : A -> bool) (l : list A) : Z :=
  Z.of_nat (length (filter p l)).

Definition ofZ (z : Z) : number := PrimFloat.of_uint63 (Uint63.of_Z z).

(** Degree centralities as graphology-metrics defines them: the degree
    divided by [order - 1]. *)
Definition degreeRatio (pick : Graphology.GraphEdge -> jsstring)
           (g : Graphology.Graph) (k : jsstring) : number :=
  (ofZ (countIf (fun e => streq (pick e) k) (Graphology.edges g))
     / ofZ (Z.of_nat (length (Graphology.nodes g)) - 1))%float.

(** The position of a node, in insertion order. *)
Fixpoint indexOf (k : jsstring) (l : list (jsstring * Graphology.Attributes)) (i : N)
  : option N :=
  match l with
  | [] => None
  | kv :: r => if streq (fst kv) k then Some i else indexOf k r (i + 1)%N
  end.

(** The Louvain routine on a graph without edges: nothing can be merged,
    and the nodes are numbered 0, 1, 2, ... in iteration order.  On any
    other graph this stand-in throws. *)
Definition louvainWithoutEdges (g : Graphology.Graph) (rng : nat -> number)
  : option (jsstring -> option communityLabel) :=
  match Graphology.edges g with
  | [] => Some (fun k => indexOf k (Graphology.nodes g) 0%N)
  | _ :: _ => None
  end.

(** A library whose degree centralities are the real ones, whose path-based
    centralities are constant, and whose Louvain routine is the stand-in. *)
Definition quietLibrary : Graphology.Metrics := {|
  Graphology.inDegreeCentrality_assign :=
    fun g => Some (degreeRatio Graphology.target g);
  Graphology.outDegreeCentrality_assign :=
    fun g => Some (degreeRatio Graphology.source g);
  Graphology.betweennessCentrality_assign := fun g => Some (fun _ => PrimFloat.zero);
  Graphology.closenessCentrality_assign := fun g => Some (fun _ => PrimFloat.zero);
  Graphology.eigenvectorCentrality_assign := fun g => None;
  Graphology.louvain := louvainWithoutEdges
|}.

(** The same library with an in-degree routine that throws. *)
Definition inDegreeThrows : Graphology.Metrics := {|
  Graphology.inDegreeCentrality_assign := fun g => None;
  Graphology.outDegreeCentrality_assign :=
    fun g => Some (degreeRatio Graphology.source g);
  Graphology.betweennessCentrality_assign := fun g => Some (fun _ => PrimFloat.zero);
  Graphology.closenessCentrality_assign := fun g => Some (fun _ => PrimFloat.zero);
  Graphology.eigenvectorCentrality_assign := fun g => None;
  Graphology.louvain := louvainWithoutEdges
|}.

Definition alice : jsstring := lit "Alice".
Definition bob : jsstring := lit "Bob".
Definition carol : jsstring := lit "Carol".
Definition friendship : jsstring := lit "friendship".

(** A source of UUIDs that never repeats: the [k]-th call returns [k] in
    decimal.  (Any sequence of distinct strings would do.) *)
Definition countingUUID (k : nat) : jsstring := intToString 10 (Z.of_nat k).

(** Two names of one code point each, outside the Basic Multilingual Plane
    (U+1F600 and U+1F601): their first code units are the same high
    surrogate, so [buildStableStudentId] gives them one hash. *)
Definition grinning : jsstring := [55357; 56832].
Definition beaming : jsstring := [55357; 56833].

(** The classes of the examples. *)
Definition aliceNode : Node := freshNode alice alice.
Definition bobNode : Node := freshNode bob bob.
Definition carolNode : Node := freshNode carol carol.
Definition nominates (a b : jsstring) : Edge := mkEdge a b friendship 1%float.
Definition idA : jsstring := lit "STU_a".
Definition idB : jsstring := lit "STU_b".
Definition twoStudents : list (jsstring * jsstring) := [(alice, idA); (bob, idB)].
Definition aliceToBob : Parser.CanonicalEdge :=
  Parser.mkCanonical alice bob friendship 1%float.
(** A survey of two answers, as [Papa.parse] returns it. *)
Definition survey : list CsvParser.Row :=
  [[(lit "Timestamp", CsvParser.Text (lit "2024-03-04 09:00"));
    (lit "Name", CsvParser.Text (lit " Alice "));
    (lit "Who do you play with?", CsvParser.Text (lit "Bob; Carol, Alice"))];
   [(lit "Timestamp", CsvParser.Text (lit "2024-03-04 09:05"));
    (lit "Name", CsvParser.Text (lit "Bob"));
    (lit "Who do you play with?", CsvParser.Text (lit "Alice,,Alice"))]].

(** The same question under a header with a space in front of [name]. *)
Definition untrimmedSurvey : list CsvParser.Row :=
  [[(lit " name", CsvParser.Text (lit "Alice"));
    (lit "friend", CsvParser.Text (lit "Bob"))]].
(** A tuple with names, and a tuple whose [from] is an object with a member
    [toString]. *)
Definition goodTuple : value :=
  VObject [(lit "from", VString (lit "Alice")); (lit "to", VString (lit "Bob"))].

Definition badTuple : value :=
  VObject [(lit "from", VObject [(lit "toString", VNumber 1%float)]);
           (lit "to", VString (lit "Bob"))].

(** The body of a response with the given students and relationships. *)
Definition body (students relationships : list value) : value :=
  VObject [(lit "students", VArray students);
           (lit "relationships", VArray relationships)].
End Examples.

(** ** Vocabulary of the properties

    The notions in which the properties of Part II are stated: what the
    builder keeps, what a guarded stage stores, what the merging loops file
    under a key.  None of them is part of the program. *)

Import JS Network.
Module G := Graphology.
Unset Implicit Arguments.

(** *** Digits and lists of strings *)

(** The digit a digit character stands for. *)
Definition unDigit (c : Z) : Z := if c <? 97 then c - 48 else c - 87.

(** The number a string of digits denotes. *)
Definition valueOf (radix : Z) (s : jsstring) : Z :=
  fold_left (fun a c => a * radix + unDigit c) s 0.

(** A decidable form of [NoDup], to settle concrete instances by evaluation. *)
Fixpoint distinctb (l : list jsstring) : bool :=
  match l with
  | [] => true
  | x :: r => negb (setHas r x) && distinctb r
  end.

(** *** Identity resolution *)

Section ResolverVocabulary.
Context {host : Host}.

(** The id held for a name by a table of previous ids. *)
Definition previousId (P : list (jsstring * jsstring)) (n : jsstring) : jsstring :=
  match mapGet P (Dashboard.normalizeStudentNameKey n) with
  | Some i => i
  | None => []
  end.
End ResolverVocabulary.

(** *** The graph builder and the stages of the analysis *)

(** The input nodes that the guard [!graph.hasNode(n.id)] lets through:
    the first node of every id. *)
Fixpoint keepFirst (seen : list jsstring) (l : list Node) : list Node :=
  match l with
  | [] => []
  | n :: r =>
      if setHas seen (id n) then keepFirst seen r
      else n :: keepFirst (seen ++ [id n]) r
  end.

(** The input edges that the guard of line 39 lets through. *)
Definition keptEdges (ids : list jsstring) (edges : list Edge) : list Edge :=
  filter (fun e => setHas ids (source e) && setHas ids (target e)) edges.

(** The entry of the graph for an input node, and the graph edge for an
    input edge. *)
Definition nodeEntry (n : Node) : jsstring * G.Attributes :=
  (id n, Analyzer.attributesOf n).

Definition graphEdgeOf (e : Edge) : G.GraphEdge :=
  G.mkGraphEdge (source e) (target e) (type e) (weight e).

Section StageVocabulary.
Context {host : Host} {lib : G.Metrics}.

(** What a guarded stage does to the attributes of the node [k]. *)
Definition degreeUpdate (g : G.Graph) (k : jsstring) (a : G.Attributes) : G.Attributes :=
  match G.inDegreeCentrality_assign g with
  | None => a
  | Some fin =>
      let a1 := Analyzer.setInDegree fin k a in
      match G.outDegreeCentrality_assign
              (G.updateEachNodeAttributes (Analyzer.setInDegree fin) g) with
      | None => a1
      | Some fout => Analyzer.setOutDegree fout k a1
      end
  end.

(** The same for a stage with its own guard, from what its call returned. *)
Definition guardedUpdate (call : option (jsstring -> number))
           (set : (jsstring -> number) -> jsstring -> G.Attributes -> G.Attributes)
           (k : jsstring) (a : G.Attributes) : G.Attributes :=
  match call with
  | None => a
  | Some f => set f k a
  end.

(** The same for the community stage. *)
Definition communityUpdate (nodes : list Node) (edges : list Edge) (g : G.Graph)
           (k : jsstring) (a : G.Attributes) : G.Attributes :=
  match G.louvain (Analyzer.louvainInput g)
                  (Analyzer.createSeededRng (Analyzer.seedSourceOf nodes edges)) with
  | None => a
  | Some communities => Analyzer.setCommunity communities k a
  end.

(** The graphs that the five guarded blocks find. *)
Definition afterDegree (g : G.Graph) := Analyzer.degreeStage g.
Definition afterBetweenness (g : G.Graph) := Analyzer.betweennessStage (afterDegree g).
Definition afterCloseness (g : G.Graph) := Analyzer.closenessStage (afterBetweenness g).
Definition afterEigenvector (g : G.Graph) := Analyzer.eigenvectorStage (afterCloseness g).

(** The attributes of the node [k] when [graph.mapNodes] runs. *)
Definition finalAttributes (nodes : list Node) (edges : list Edge) (g : G.Graph)
           (k : jsstring) (a : G.Attributes) : G.Attributes :=
  communityUpdate nodes edges (afterEigenvector g) k
    (guardedUpdate (G.eigenvectorCentrality_assign (afterCloseness g))
                   Analyzer.setEigenvector k
       (guardedUpdate (G.closenessCentrality_assign (afterBetweenness g))
                      Analyzer.setCloseness k
          (guardedUpdate (G.betweennessCentrality_assign (afterDegree g))
                         Analyzer.setBetweenness k
             (degreeUpdate g k a)))).
End StageVocabulary.

(** *** Numbers *)

(** [x >= 0], and the values a degree centrality can take: a quotient of
    counts, which is [NaN] when the graph has a single node. *)
Definition nonNegative (x : number) : bool := (0 <=? x)%float.
Definition nonNegativeOrNaN (x : number) : bool :=
  PrimFloat.is_nan x || nonNegative x.

(** The value the assembler reports for a centrality whose call returned
    [call]: the stored value, or 0 when it is falsy or when the call threw. *)
Definition reported (call : option (jsstring -> number)) (k : jsstring) : number :=
  match call with
  | Some f => orZero (Some (f k))
  | None => PrimFloat.zero
  end.

(** A finite number greater than 0. *)
Definition positiveFinite (x : number) : bool :=
  PrimFloat.is_finite x && (0 <? x)%float.

(** *** Values that can be converted

    A value on which [String] and [Number] return: it is no object with a
    property [toString] of its own, and no array that holds such an object
    at any depth. *)
Fixpoint printable (v : value) : bool :=
  match v with
  | VArray items => forallb printable items
  | VObject props => negb (hasOwn props (lit "toString"))
  | _ => true
  end.

(** An entry of [relationships] on which the callback does not throw: it is
    no object, or its four members can be converted. *)
Definition convertible (rel : value) : bool :=
  negb (truthy rel) || negb (typeofObject rel) ||
  (printable (field rel (lit "from")) && printable (field rel (lit "to")) &&
   printable (field rel (lit "type")) && printable (field rel (lit "weight"))).

(** *** The response that the client reads

    What the two loops and the metadata read from the parsed body of the
    response. *)
Definition payloadRelationships (payload : value) : list value :=
  arrayOrEmpty (field payload (lit "relationships")).

Definition payloadStudents (payload : value) : list value :=
  arrayOrEmpty (field payload (lit "students")).

Definition payloadQualitySignals (payload : value) : list value :=
  let metadata := nullish (field payload (lit "metadata")) (VObject []) in
  let qualitySignals := nullish (field metadata (lit "quality_signals")) (VObject []) in
  [field qualitySignals (lit "respondent_count");
   field qualitySignals (lit "unknown_student_count");
   field qualitySignals (lit "student_count_ratio")].

(** A body on which the client throws: it is [null], or a relationship has
    a member that cannot be converted, or a student or a quality signal
    cannot be. *)
Definition unreadable (payload : value) : Prop :=
  payload = VNull \/ payload = VUndefined \/
  (exists rel, In rel (payloadRelationships payload) /\ convertible rel = false) \/
  (exists s, In s (payloadStudents payload) /\ printable s = false) \/
  (exists q, In q (payloadQualitySignals payload) /\ printable q = false).

(** *** The relationship normaliser *)

Section NormaliserVocabulary.
Context {host : Host}.

(** The three texts and the number that the callback reads from a tuple;
    [None] when the conversion throws. *)
Definition fromText (props : list (jsstring * value)) : option jsstring :=
  option_map trim (ToString (nullish (getProp props (lit "from")) (VString []))).
Definition toText (props : list (jsstring * value)) : option jsstring :=
  option_map trim (ToString (nullish (getProp props (lit "to")) (VString []))).
Definition typeText (props : list (jsstring * value)) : option jsstring :=
  option_map trim
    (ToString (nullish (getProp props (lit "type")) (VString (lit "general")))).
Definition weightNumber (props : list (jsstring * value)) : option number :=
  ToNumber (getProp props (lit "weight")).

(** The edges that the callback contributes for an entry of the response:
    one when it returns an edge, none when it returns [null]. *)
Definition keptOf (rel : value) : list Parser.CanonicalEdge :=
  match Parser.normalizeRelationship rel with
  | Some (Some e) => [e]
  | _ => []
  end.
End NormaliserVocabulary.

(** *** Merging duplicate edges *)

(** The sum that [existing.weight += w] builds, left to right: none for no
    weight, the weight itself for one, and so on. *)
Definition sumWeights (ws : list number) : option number :=
  match ws with
  | [] => None
  | w :: r => Some (fold_left (fun a b => (a + b)%float) r w)
  end.

(** Equality of two (source, target, type) triples. *)
Definition tripleEqb (a b : jsstring * jsstring * jsstring) : bool :=
  streq (fst (fst a)) (fst (fst b)) && streq (snd (fst a)) (snd (fst b))
  && streq (snd a) (snd b).

Section MergeVocabulary.
Variable T : Type.
(** What a raw tuple contributes: nothing when the loop skips it, or the map
    key it is filed under and the edge object it would be stored as. *)
Variable proj : T -> option (jsstring * Edge).

(** The turn that both merging loops make: a new key gets the edge, a known
    key gets the weight added to the edge it holds. *)
Definition mergeStep (m : list (jsstring * Edge)) (x : T) : list (jsstring * Edge) :=
  match proj x with
  | None => m
  | Some (k, e0) =>
      match mapGet m k with
      | Some existing =>
          mapSet m k (mkEdge (source existing) (target existing) (type existing)
                             (weight existing + weight e0)%float)
      | None => mapSet m k e0
      end
  end.

(** The map after the loop. *)
Definition merged (l : list T) : list (jsstring * Edge) := fold_left mergeStep l [].

(** The weights of the raw tuples filed under the key [k], in order. *)
Definition weightsFor (k : jsstring) (l : list T) : list number :=
  flat_map (fun x => match proj x with
                     | Some (k', e0) => if streq k' k then [weight e0] else []
                     | None => []
                     end) l.

(** The weights of the raw tuples with the ends and the type [t], in order. *)
Definition weightsOfTriple (t : jsstring * jsstring * jsstring) (l : list T)
  : list number :=
  flat_map (fun x => match proj x with
                     | Some (_, e0) => if tripleEqb (triple e0) t then [weight e0] else []
                     | None => []
                     end) l.
End MergeVocabulary.

Arguments mergeStep {T} proj m x.
Arguments merged {T} proj l.
Arguments weightsFor {T} proj k l.
Arguments weightsOfTriple {T} proj t l.

(** What [edgeMapStep] files a canonical edge under. *)
Definition resolved (nameToId : list (jsstring * jsstring)) (c : Parser.CanonicalEdge)
  : option (jsstring * Edge) :=
  match mapGet nameToId (Parser.c_source c), mapGet nameToId (Parser.c_target c) with
  | Some s, Some t =>
      if negb (truthy_str s) || negb (truthy_str t) || streq s t then None
      else Some (Parser.edgeKey s t (Parser.c_type c),
                 mkEdge s t (Parser.c_type c) (Parser.c_weight c))
  | _, _ => None
  end.

(** The key of a triple on the oracle path. *)
Definition oracleKey (t : jsstring * jsstring * jsstring) : jsstring :=
  Parser.edgeKey (fst (fst t)) (snd (fst t)) (snd t).

(** A table of ids in which no id holds a colon: so are ["STU_"] followed by
    a UUID or by digits in base 36, with or without a numeric suffix. *)
Definition colonFree (nameToId : list (jsstring * jsstring)) : Prop :=
  forall n i, mapGet nameToId n = Some i -> ~ In 58 i.

(** What the CSV loop files a raw edge under, and the key of a triple there. *)
Definition csvFiled (re : Edge) : option (jsstring * Edge) := Some (Parser.csvKey re, re).

Definition csvKeyOfTriple (t : jsstring * jsstring * jsstring) : jsstring :=
  fst (fst t) ++ lit "-" ++ snd (fst t) ++ lit "-" ++ snd t.

(** *** File names

    A name that can be handed to the browser as it is: not empty, with the
    extension [.xlsx], made of the characters [[a-zA-Z0-9._-]] only. *)
Definition safeFileName (r : jsstring) : Prop :=
  r <> [] /\
  Excel.endsWith r (lit ".xlsx") = true /\
  Forall (fun c => Excel.isFileNameChar c = true) r.

(** *** Sheet names

    The seven characters that a sheet name may not hold: [\ / : * ? [ ]]. *)
Definition sheetForbidden : list Z := [92; 47; 58; 42; 63; 91; 93].

(** A character of the requested name that counts: neither white space nor
    forbidden. *)
Definition sheetText (c : Z) : bool :=
  negb (isWhiteSpace c) && negb (existsb (Z.eqb c) sheetForbidden).

(** *** The seeded generator *)

(** The integer [seed >>> 0] behind the value that call number [k] returns. *)
Definition rngNumerator (seedSource : jsstring) (k : nat) : Z :=
  ushr (Analyzer.seedAfter (S k) (Analyzer.initialSeed seedSource)) 0.

(** *** The response of the analyze route, as the client reads it

    The route answers with [NextResponse.json({ ...normalized, ... })] and
    the client reads [payload.students] and [payload.relationships] from
    [response.json()]: strings and finite numbers come back as they were
    sent. *)
Definition relationshipValue (r : AnalyzeRoute.AnalyzeRelationship) : value :=
  VObject [(lit "from", VString (AnalyzeRoute.rel_from r));
           (lit "to", VString (AnalyzeRoute.rel_to r));
           (lit "type", VString (AnalyzeRoute.rel_type r));
           (lit "weight", VNumber (AnalyzeRoute.rel_weight r))].

Definition responseStudents (r : AnalyzeRoute.AnalyzeResult) : list value :=
  map VString (AnalyzeRoute.students r).

Definition responseRelationships (r : AnalyzeRoute.AnalyzeResult) : list value :=
  map relationshipValue (AnalyzeRoute.relationships r).

(** The canonical edge with the members of a relationship of the server. *)
Definition canonicalOf (r : AnalyzeRoute.AnalyzeRelationship) : Parser.CanonicalEdge :=
  Parser.mkCanonical (AnalyzeRoute.rel_from r) (AnalyzeRoute.rel_to r)
                     (AnalyzeRoute.rel_type r) (AnalyzeRoute.rel_weight r).

(** The entries of the member [k] of the answer of the model: those of the
    array [obj[k]], and none when [obj[k]] is not an array or the answer is
    not an object. *)
Definition arrayMember (payload : value) (k : jsstring) : list value :=
  arrayOrEmpty
    (field (if truthy payload && typeofObject payload then payload else VObject []) k).

(** The member [k] of the metadata of the answer, when the answer and its
    metadata are objects. *)
Definition answerMetadata (payload : value) (k : jsstring) : value :=
  match field (if truthy payload && typeofObject payload then payload else VObject [])
              (lit "metadata") with
  | VObject props => getProp props k
  | _ => VUndefined
  end.

(** The values that the answer gives for the types of the questions, and
    the notes of the answer. *)
Definition questionTypeValues (payload : value) : list value :=
  match answerMetadata payload (lit "question_types") with
  | VObject props => map (fun kv => getProp props (fst kv)) props
  | VArray items => items
  | _ => []
  end.

Definition noteValues (payload : value) : list value :=
  arrayOrEmpty (answerMetadata payload (lit "normalization_notes")).

(** An answer on which the normaliser of the server throws: a student, a
    member of a relationship, the type of a question or a note cannot be
    converted. *)
Definition unreadableAnswer (payload : value) : Prop :=
  (exists s, In s (arrayMember payload (lit "students")) /\ printable s = false) \/
  (exists rel, In rel (arrayMember payload (lit "relationships")) /\
               convertible rel = false) \/
  (exists v, In v (questionTypeValues payload) /\ printable v = false) \/
  (exists v, In v (noteValues payload) /\ printable v = false).

(** A string that [trim] leaves as it is and that is not empty. *)
Definition properName (s : jsstring) : Prop := s <> [] /\ trim s = s.

(** *** The CSV path *)

(** The types that [getRelType] can give. *)
Definition relationTypes : list jsstring :=
  map snd CsvParser.typeMap ++ [lit "general"].

(** A parse result whose graph is closed: no two nodes with one id, every
    node with a name that is trimmed and not empty, and every edge between
    two different nodes of the result. *)
Definition closedResult (r : Parser.ParseResult) : Prop :=
  NoDup (map id (Parser.nodes r)) /\
  (forall n, In n (Parser.nodes r) -> properName (name n)) /\
  (forall e, In e (Parser.edges r) ->
     source e <> target e /\
     In (source e) (map id (Parser.nodes r)) /\
     In (target e) (map id (Parser.nodes r))).

Section CsvVocabulary.
Context {host : Host}.

(** The respondent column and the relationship columns of a table. *)
Definition respondentColumn (data : list CsvParser.Row) : jsstring :=
  CsvParser.respondentColOf (CsvParser.columnsOf (hd [] data)).

Definition relationshipColumns (data : list CsvParser.Row) : list jsstring :=
  CsvParser.relationshipColsOf (CsvParser.columnsOf (hd [] data)) (respondentColumn data).

(** An edge read from a cell: its source is the respondent of a row, its
    target one of the names listed in a relationship column of that row,
    its type the type of that column. *)
Definition fromCell (data : list CsvParser.Row) (e : Edge) : Prop :=
  exists row col response,
    In row data /\ In col (relationshipColumns data) /\
    CsvParser.cellText row (respondentColumn data) = CsvParser.Resolve (source e) /\
    CsvParser.cellText row col = CsvParser.Resolve response /\
    In (target e) (CsvParser.targetsOf response) /\
    type e = CsvParser.getRelType col.
End CsvVocabulary.

(** *** The models of the analyze route *)

(** The three models that the route knows. *)
Definition knownModels : list jsstring :=
  [lit "gemini-2.5-pro"; lit "gemini-3.1-pro-preview"; lit "gemini-3-flash-preview"].

(** A choice that is one of the known models, or else the member of
    [Object.prototype] that the request named. *)
Definition knownChoice (c : AnalyzeRoute.ModelChoice) : Prop :=
  match c with
  | AnalyzeRoute.ModelName name => In name knownModels
  | AnalyzeRoute.PrototypeMember key => In key JSObject.objectPrototypeKeys
  end.

(* ================================================================== *)
(** * Part II: properties                                              *)
(* ================================================================== *)

(** ** Strings, maps and sets *)

Lemma streq_true_iff (a b : jsstring) : streq a b = true <-> a = b.
Proof.
  unfold streq. destruct (jsstring_eq_dec a b); split; congruence.
Qed.

Lemma streq_refl (a : jsstring) : streq a a = true.
Proof. now apply streq_true_iff. Qed.

Lemma streq_false_iff (a b : jsstring) : streq a b = false <-> a <> b.
Proof.
  unfold streq. destruct (jsstring_eq_dec a b); split; congruence.
Qed.

Lemma truthy_str_lit_app (p : String.string) (s : jsstring) :
  lit p <> [] -> truthy_str (lit p ++ s) = true.
Proof.
  destruct (lit p) eqn:E; [congruence | reflexivity].
Qed.

Section MapFacts.
Variable V : Type.
Implicit Types (m : list (jsstring * V)) (k : jsstring) (v : V).

Lemma mapGet_mapSet_same m k v : mapGet (mapSet m k v) k = Some v.
Proof.
  induction m as [|[k' v'] m IH]; simpl.
  - now rewrite streq_refl.
  - destruct (streq k' k) eqn:E; simpl; rewrite E; auto.
Qed.

Lemma mapGet_mapSet_other m k k' v :
  k <> k' -> mapGet (mapSet m k v) k' = mapGet m k'.
Proof.
  intros Hne. induction m as [|[k0 v0] m IH]; simpl.
  - apply streq_false_iff in Hne. now rewrite Hne.
  - destruct (streq k0 k) eqn:E; simpl.
    + apply streq_true_iff in E. subst k0.
      apply streq_false_iff in Hne. now rewrite Hne.
    + now rewrite IH.
Qed.

Lemma mapGet_None_notin m k :
  mapGet m k = None <-> ~ In k (map fst m).
Proof.
  induction m as [|[k0 v0] m IH]; simpl.
  - tauto.
  - destruct (streq k0 k) eqn:E.
    + apply streq_true_iff in E. split; [discriminate | tauto].
    + apply streq_false_iff in E. rewrite IH. tauto.
Qed.

Lemma mapGet_In m k v : mapGet m k = Some v -> In (k, v) m.
Proof.
  induction m as [|[k0 v0] m IH]; simpl; [discriminate|].
  destruct (streq k0 k) eqn:E.
  - apply streq_true_iff in E. intros [= ->]. subst. now left.
  - intros H. right. auto.
Qed.

Lemma In_mapGet m k v :
  NoDup (map fst m) -> In (k, v) m -> mapGet m k = Some v.
Proof.
  induction m as [|[k0 v0] m IH]; simpl; [tauto|].
  intros Hnd [Heq | Hin].
  - inversion Heq; subst. now rewrite streq_refl.
  - inversion Hnd as [|? ? Hnotin Hnd']; subst.
    destruct (streq k0 k) eqn:E.
    + apply streq_true_iff in E. subst k0.
      exfalso. apply Hnotin. now apply (in_map fst) in Hin.
    + auto.
Qed.

Lemma mapSet_fresh m k v : mapGet m k = None -> mapSet m k v = m ++ [(k, v)].
Proof.
  induction m as [|[k0 v0] m IH]; simpl; [reflexivity|].
  destruct (streq k0 k); [discriminate|]. intros H. now rewrite IH.
Qed.

Lemma mapSet_keys_present m k v v0 :
  mapGet m k = Some v0 -> map fst (mapSet m k v) = map fst m.
Proof.
  induction m as [|[k1 v1] m IH]; simpl; [discriminate|].
  destruct (streq k1 k) eqn:E; simpl; [reflexivity|].
  intros H. now rewrite IH.
Qed.

Lemma mapSet_keys_NoDup m k v :
  NoDup (map fst m) -> NoDup (map fst (mapSet m k v)).
Proof.
  intros Hnd. destruct (mapGet m k) as [v0|] eqn:E.
  - erewrite mapSet_keys_present; eauto.
  - rewrite mapSet_fresh by assumption. rewrite map_app. simpl.
    apply NoDup_app; [assumption | repeat constructor; simpl; tauto|].
    intros x Hx [<- | []]. now apply mapGet_None_notin in E.
Qed.
End MapFacts.

Lemma setHas_true_iff (s : list jsstring) (x : jsstring) :
  setHas s x = true <-> In x s.
Proof.
  unfold setHas. rewrite existsb_exists. split.
  - intros [y [Hy E]]. apply streq_true_iff in E. now subst.
  - intros H. exists x. split; [assumption | apply streq_refl].
Qed.

Lemma setHas_false_iff (s : list jsstring) (x : jsstring) :
  setHas s x = false <-> ~ In x s.
Proof.
  rewrite <- setHas_true_iff. destruct (setHas s x); split; congruence.
Qed.

Lemma In_setAdd (s : list jsstring) (x y : jsstring) :
  In y (setAdd s x) <-> In y s \/ y = x.
Proof.
  unfold setAdd. destruct (setHas s x) eqn:E.
  - apply setHas_true_iff in E. split; [tauto | intros [H | ->]; assumption].
  - rewrite in_app_iff. simpl. intuition.
Qed.

Lemma NoDup_setAdd (s : list jsstring) (x : jsstring) :
  NoDup s -> NoDup (setAdd s x).
Proof.
  intros H. unfold setAdd. destruct (setHas s x) eqn:E; [assumption|].
  apply setHas_false_iff in E.
  apply NoDup_app; [assumption | repeat constructor; simpl; tauto|].
  intros y Hy [<- | []]. contradiction.
Qed.

Lemma length_setAdd_fresh (s : list jsstring) (x : jsstring) :
  ~ In x s -> length (setAdd s x) = S (length s).
Proof.
  intros H. unfold setAdd. apply setHas_false_iff in H. rewrite H.
  rewrite length_app. simpl. lia.
Qed.

(** ** Printing integers is injective *)

Lemma unDigit_digitChar (d : Z) : 0 <= d < 36 -> unDigit (digitChar d) = d.
Proof.
  intros H. unfold unDigit, digitChar.
  destruct (d <? 10) eqn:E.
  - apply Z.ltb_lt in E. destruct (48 + d <? 97) eqn:E'; [lia|].
    apply Z.ltb_ge in E'. lia.
  - apply Z.ltb_ge in E. destruct (87 + d <? 97) eqn:E'; [|lia].
    apply Z.ltb_lt in E'. lia.
Qed.

Lemma digitsAcc_value (radix : Z) (fuel : nat) :
  2 <= radix <= 36 ->
  forall n acc, 0 <= n < radix ^ Z.of_nat fuel ->
    fold_left (fun a c => a * radix + unDigit c) (digitsAcc radix fuel n acc) 0
    = fold_left (fun a c => a * radix + unDigit c) acc n.
Proof.
  intros Hr. induction fuel as [|k IH]; intros n acc Hn.
  - simpl in Hn. assert (n = 0) by lia. subst. reflexivity.
  - cbn [digitsAcc].
    assert (Hmod : 0 <= n mod radix < radix) by (apply Z.mod_pos_bound; lia).
    assert (Hdiv : n = radix * (n / radix) + n mod radix)
      by (apply Z.div_mod; lia).
    destruct (n / radix =? 0) eqn:E.
    + apply Z.eqb_eq in E. cbn [fold_left].
      rewrite unDigit_digitChar by lia. f_equal. lia.
    + rewrite IH.
      * cbn [fold_left]. rewrite unDigit_digitChar by lia. f_equal. lia.
      * split; [apply Z.div_pos; lia|].
        apply Z.div_lt_upper_bound; [lia|].
        replace (Z.of_nat (S k)) with (Z.succ (Z.of_nat k)) in Hn by lia.
        rewrite Z.pow_succ_r in Hn by lia. lia.
Qed.

Lemma intToString_value (radix n : Z) :
  2 <= radix <= 36 -> 0 <= n -> valueOf radix (intToString radix n) = n.
Proof.
  intros Hr Hn. unfold valueOf, intToString.
  rewrite digitsAcc_value; [reflexivity | assumption |].
  split; [assumption|].
  destruct (Z.eq_dec n 0) as [-> | Hne].
  - simpl. lia.
  - assert (Hlog : n < 2 ^ Z.succ (Z.log2 n)) by (apply Z.log2_spec; lia).
    assert (Hl0 : 0 <= Z.log2 n) by apply Z.log2_nonneg.
    replace (Z.of_nat (S (Z.to_nat (Z.log2 n)))) with (Z.succ (Z.log2 n)) by lia.
    eapply Z.lt_le_trans; [exact Hlog|].
    apply Z.pow_le_mono_l. lia.
Qed.

Lemma intToString_inj (radix a b : Z) :
  2 <= radix <= 36 -> 0 <= a -> 0 <= b ->
  intToString radix a = intToString radix b -> a = b.
Proof.
  intros Hr Ha Hb E.
  rewrite <- (intToString_value radix a Hr Ha), <- (intToString_value radix b Hr Hb).
  now rewrite E.
Qed.

(** ** The suffix loop of [resolveStudentIds] ends on a free id *)

Lemma withSuffix_inj (c : jsstring) (a b : Z) :
  0 <= a -> 0 <= b -> Dashboard.withSuffix c a = Dashboard.withSuffix c b -> a = b.
Proof.
  unfold Dashboard.withSuffix. intros Ha Hb E.
  apply app_inv_head in E. apply app_inv_head in E.
  apply (intToString_inj 10); auto; lia.
Qed.

Lemma nextFreeSuffix_from (used : list jsstring) (c : jsstring) (fuel : nat) :
  forall (s : Z) (seen : list jsstring),
    0 <= s ->
    NoDup seen ->
    incl seen used ->
    (forall x, In x seen -> exists j, 0 <= j < s /\ x = Dashboard.withSuffix c j) ->
    (length used <= length seen + fuel)%nat ->
    ~ In (Dashboard.withSuffix c (Dashboard.nextFreeSuffix fuel used c s)) used.
Proof.
  induction fuel as [|k IH]; intros s seen Hs Hnd Hincl Hseen Hlen.
  - simpl. intros Hin.
    assert (Hfresh : ~ In (Dashboard.withSuffix c s) seen).
    { intros Hx. destruct (Hseen _ Hx) as [j [Hj E]].
      apply withSuffix_inj in E; lia. }
    assert (Hnd' : NoDup (Dashboard.withSuffix c s :: seen)) by now constructor.
    assert (Hincl' : incl (Dashboard.withSuffix c s :: seen) used).
    { intros x [<- | Hx]; auto. }
    pose proof (NoDup_incl_length Hnd' Hincl') as Hle. simpl in Hle. lia.
  - cbn [Dashboard.nextFreeSuffix].
    destruct (setHas used (Dashboard.withSuffix c s)) eqn:E.
    + apply setHas_true_iff in E.
      apply (IH (s + 1) (Dashboard.withSuffix c s :: seen)).
      * lia.
      * constructor; [|assumption].
        intros Hx. destruct (Hseen _ Hx) as [j [Hj E']].
        apply withSuffix_inj in E'; lia.
      * intros x [<- | Hx]; auto.
      * intros x [<- | Hx].
        -- exists s. split; [lia | reflexivity].
        -- destruct (Hseen _ Hx) as [j [Hj E']]. exists j. split; [lia | assumption].
      * simpl. lia.
    + now apply setHas_false_iff in E.
Qed.

(** The fuel [usedIds.size] never runs out: the id the loop stops on is not
    in [usedIds]. *)
Lemma nextFreeSuffix_free (used : list jsstring) (c : jsstring) :
  ~ In (Dashboard.withSuffix c (Dashboard.nextFreeSuffix (length used) used c 2)) used.
Proof.
  apply (nextFreeSuffix_from used c (length used) 2 []).
  - lia.
  - constructor.
  - intros x [].
  - intros x [].
  - simpl. lia.
Qed.

(** An id with a suffix is longer than the id by two code units at least. *)
Lemma digitsAcc_length (radix : Z) (fuel : nat) (n : Z) (acc : jsstring) :
  (length acc <= length (digitsAcc radix fuel n acc))%nat.
Proof.
  revert n acc. induction fuel as [|k IH]; intros n acc; cbn [digitsAcc]; [lia|].
  destruct (n / radix =? 0); [cbn [length]; lia|].
  specialize (IH (n / radix) (digitChar (n mod radix) :: acc)). cbn [length] in IH. lia.
Qed.

Lemma withSuffix_length (c : jsstring) (k : Z) :
  (length (Dashboard.withSuffix c k) <=? S (length c))%nat = false.
Proof.
  apply Nat.leb_gt. unfold Dashboard.withSuffix, intToString.
  rewrite !length_app. cbn [digitsAcc].
  change (length (lit "_")) with 1%nat.
  destruct (k / 10 =? 0).
  - cbn [length]. lia.
  - pose proof (digitsAcc_length 10 (Z.to_nat (Z.log2 k)) (k / 10)
                  [digitChar (k mod 10)]) as H.
    cbn [length] in H. lia.
Qed.

Section Resolver.
Context {host : Host}.

#[local] Abbreviation key := Dashboard.normalizeStudentNameKey.

Lemma freeCandidate_free (used : list jsstring) (c : jsstring) :
  ~ In (Dashboard.freeCandidate used c) used.
Proof.
  unfold Dashboard.freeCandidate. destruct (setHas used c) eqn:E.
  - apply nextFreeSuffix_free.
  - now apply setHas_false_iff in E.
Qed.

Lemma freeCandidate_unused (used : list jsstring) (c : jsstring) :
  ~ In c used -> Dashboard.freeCandidate used c = c.
Proof.
  intros H. unfold Dashboard.freeCandidate.
  apply setHas_false_iff in H. now rewrite H.
Qed.

Lemma buildStableStudentId_truthy (n : jsstring) :
  truthy_str (Dashboard.buildStableStudentId n) = true.
Proof. reflexivity. Qed.

Lemma firstCandidate_truthy (prev : list (jsstring * jsstring)) (n : jsstring) :
  truthy_str (Dashboard.firstCandidate prev n) = true.
Proof.
  unfold Dashboard.firstCandidate.
  destruct (mapGet prev (key n)) as [r|]; [|reflexivity].
  destruct (truthy_str r) eqn:E; [assumption | reflexivity].
Qed.

Lemma freeCandidate_truthy (used : list jsstring) (c : jsstring) :
  truthy_str c = true -> truthy_str (Dashboard.freeCandidate used c) = true.
Proof.
  intros H. unfold Dashboard.freeCandidate.
  destruct (setHas used c); [|assumption].
  unfold Dashboard.withSuffix. destruct c; [discriminate | reflexivity].
Qed.

(** The state of the loop of [resolveStudentIds] after a list of distinct
    names: the names are the keys of [nameToId] in order, [usedIds] lists the
    ids in the same order, and no id occurs twice. *)
Lemma resolve_state (prev : list (jsstring * jsstring)) (names : list jsstring) :
  NoDup names ->
  let st := fold_left (Dashboard.resolveStep prev) names ([], []) in
  map fst (snd st) = names /\
  map snd (snd st) = fst st /\
  NoDup (fst st) /\
  Forall (fun i => truthy_str i = true) (fst st).
Proof.
  induction names as [|n names IH] using rev_ind; intros Hnd st.
  - subst st. simpl. repeat split; constructor.
  - subst st. rewrite fold_left_app. cbn [fold_left].
    apply NoDup_app_remove_r in Hnd as Hnd0.
    specialize (IH Hnd0). cbv zeta in IH.
    set (st0 := fold_left (Dashboard.resolveStep prev) names ([], [])) in *.
    destruct IH as (Hkeys & Hvals & Hndu & Htr).
    unfold Dashboard.resolveStep. cbn [fst snd].
    set (c := Dashboard.freeCandidate (fst st0) (Dashboard.firstCandidate prev n)).
    assert (Hc : ~ In c (fst st0)) by apply freeCandidate_free.
    assert (Hn : mapGet (snd st0) n = None).
    { apply mapGet_None_notin. rewrite Hkeys.
      intros Hin. apply NoDup_remove_2 in Hnd. rewrite app_nil_r in Hnd.
      contradiction. }
    rewrite mapSet_fresh by assumption.
    unfold setAdd. apply setHas_false_iff in Hc as Hc'. rewrite Hc'.
    rewrite !map_app. cbn [map fst snd]. rewrite Hkeys, Hvals.
    repeat split.
    + apply NoDup_app; [assumption | repeat constructor; simpl; tauto|].
      intros x Hx [<- | []]. contradiction.
    + apply Forall_app. split; [assumption|].
      constructor; [|constructor].
      apply freeCandidate_truthy, firstCandidate_truthy.
Qed.

(** X5.  Collision handling of [resolveStudentIds]: whatever the previous
    nodes, distinct names get distinct, non-empty ids, in the order of the
    names; the suffix loop always ends on an id that is not in use. *)
Theorem resolveStudentIds_distinct_ids (names : list jsstring) (previous : option (list Node)) :
  NoDup names ->
  let m := Dashboard.resolveStudentIds names previous in
  map fst m = names /\
  NoDup (map snd m) /\
  Forall (fun i => truthy_str i = true) (map snd m).
Proof.
  intros Hnd m. subst m. unfold Dashboard.resolveStudentIds.
  destruct (resolve_state (Dashboard.previousIdByName previous) names Hnd)
    as (Hk & Hv & Hn & Ht).
  rewrite Hv. auto.
Qed.
End Resolver.

(** ** Identity resolution across two calls *)

Lemma NoDup_map_inv (A B : Type) (f : A -> B) (l : list A) :
  NoDup (map f l) -> NoDup l.
Proof.
  induction l as [|a l IH]; simpl; intros H; [constructor|].
  inversion H as [|? ? Hnotin Hnd]; subst. constructor; auto.
  intros Hin. apply Hnotin. now apply in_map.
Qed.

Lemma NoDup_map_inj_on (A B : Type) (f : A -> B) (l : list A) (x y : A) :
  NoDup (map f l) -> In x l -> In y l -> f x = f y -> x = y.
Proof.
  induction l as [|a l IH]; simpl; [tauto|].
  intros H Hx Hy E. inversion H as [|? ? Hnotin Hnd]; subst.
  destruct Hx as [-> | Hx]; destruct Hy as [-> | Hy]; auto.
  - exfalso. apply Hnotin. rewrite E. now apply in_map.
  - exfalso. apply Hnotin. rewrite <- E. now apply in_map.
Qed.

Lemma NoDup_map_injective (A B : Type) (f : A -> B) (l : list A) :
  (forall x y, f x = f y -> x = y) -> NoDup l -> NoDup (map f l).
Proof.
  intros Hinj. induction 1 as [|a l Hnotin _ IH]; simpl; constructor; auto.
  intros Hin. apply in_map_iff in Hin as [b [E Hb]].
  apply Hinj in E. now subst b.
Qed.

Lemma distinctb_NoDup (l : list jsstring) : distinctb l = true -> NoDup l.
Proof.
  induction l as [|x r IH]; simpl; intros H; [constructor|].
  apply andb_true_iff in H as [H1 H2]. apply negb_true_iff in H1.
  constructor; [now apply setHas_false_iff | auto].
Qed.

Section Stability.
Context {host : Host}.

#[local] Abbreviation key := Dashboard.normalizeStudentNameKey.

(** With one previous node per key, [previousIdByName] lists the nodes in
    order. *)
Lemma previousIdByName_distinct (ns : list Node) :
  NoDup (map (fun nd => key (name nd)) ns) ->
  Dashboard.previousIdByName (Some ns) = map (fun nd => (key (name nd), id nd)) ns.
Proof.
  unfold Dashboard.previousIdByName.
  induction ns as [|nd ns IH] using rev_ind; intros Hnd; [reflexivity|].
  rewrite map_app in Hnd. apply NoDup_app_remove_r in Hnd as Hnd0.
  rewrite fold_left_app. cbn [fold_left]. rewrite IH by assumption.
  rewrite mapSet_fresh.
  - now rewrite map_app.
  - apply mapGet_None_notin. rewrite map_map. cbn [fst].
    apply NoDup_remove_2 in Hnd. rewrite app_nil_r in Hnd. exact Hnd.
Qed.

(** The nodes that [buildParseResultFromAnalyzePayload] builds from a
    resolved map carry the resolved ids. *)
Lemma nodesOf_resolved (m : list (jsstring * jsstring)) :
  NoDup (map fst m) ->
  Forall (fun i => truthy_str i = true) (map snd m) ->
  Dashboard.nodesOf m (map fst m) = map (fun kv => freshNode (snd kv) (fst kv)) m.
Proof.
  intros Hnd Htr. unfold Dashboard.nodesOf. rewrite map_map.
  apply map_ext_in. intros [k v] Hin. cbn [fst snd].
  unfold Dashboard.nodeOf. rewrite (In_mapGet _ _ _ _ Hnd Hin).
  rewrite Forall_forall in Htr.
  now rewrite (Htr v (in_map snd _ _ Hin)).
Qed.

(** A call whose names all match a previous node, one name per key, reuses
    the previous ids and never enters the suffix loop. *)
Lemma resolve_reuses (P : list (jsstring * jsstring)) (names : list jsstring) :
  NoDup (map snd P) ->
  Forall (fun i => truthy_str i = true) (map snd P) ->
  NoDup (map key names) ->
  (forall n, In n names -> In (key n) (map fst P)) ->
  fold_left (Dashboard.resolveStep P) names ([], [])
  = (map (previousId P) names, map (fun n => (n, previousId P n)) names).
Proof.
  intros HndP HtrP. induction names as [|n names IH] using rev_ind;
    intros Hnd Hcov; [reflexivity|].
  rewrite map_app in Hnd. apply NoDup_app_remove_r in Hnd as Hnd0.
  rewrite fold_left_app, IH; auto.
  2:{ intros x Hx. apply Hcov, in_or_app. now left. }
  cbn [fold_left]. unfold Dashboard.resolveStep. cbn [fst snd].
  assert (Hn : In (key n) (map fst P))
    by (apply Hcov, in_or_app; right; now left).
  destruct (mapGet P (key n)) as [i|] eqn:Ei.
  2:{ apply mapGet_None_notin in Ei. contradiction. }
  assert (Hi : truthy_str i = true).
  { rewrite Forall_forall in HtrP. apply HtrP.
    apply mapGet_In in Ei. now apply (in_map snd) in Ei. }
  assert (Hfirst : Dashboard.firstCandidate P n = i).
  { unfold Dashboard.firstCandidate. now rewrite Ei, Hi. }
  assert (Hprev : previousId P n = i) by (unfold previousId; now rewrite Ei).
  assert (Hfree : ~ In i (map (previousId P) names)).
  { intros Hin. apply in_map_iff in Hin as [n' [En' Hn']].
    assert (Hn'P : In (key n') (map fst P))
      by (apply Hcov, in_or_app; now left).
    unfold previousId in En'.
    destruct (mapGet P (key n')) as [i'|] eqn:Ei'.
    2:{ apply mapGet_None_notin in Ei'. contradiction. }
    subst i'. apply mapGet_In in Ei, Ei'.
    assert (Hk : (key n', i) = (key n, i)).
    { apply (NoDup_map_inj_on _ _ snd P); auto. }
    apply NoDup_remove_2 in Hnd. rewrite app_nil_r in Hnd.
    apply Hnd. assert (Hk' : key n' = key n) by congruence.
    rewrite <- Hk'. now apply in_map. }
  rewrite Hfirst, (freeCandidate_unused _ _ Hfree).
  unfold setAdd. apply setHas_false_iff in Hfree as Hfree'. rewrite Hfree'.
  rewrite mapSet_fresh.
  - rewrite !map_app. cbn [map]. now rewrite Hprev.
  - apply mapGet_None_notin. rewrite map_map. cbn [fst]. rewrite map_id.
    apply NoDup_remove_2 in Hnd. rewrite app_nil_r in Hnd.
    intros Hin. apply Hnd. now apply in_map.
Qed.

(** The suffix loop stops on the least suffix, from 2 on, whose id is not in
    use. *)
Lemma nextFreeSuffix_least (used : list jsstring) (c : jsstring) (fuel : nat) :
  forall s,
    s <= Dashboard.nextFreeSuffix fuel used c s /\
    forall j, s <= j < Dashboard.nextFreeSuffix fuel used c s ->
      In (Dashboard.withSuffix c j) used.
Proof.
  induction fuel as [|k IH]; intros s; cbn [Dashboard.nextFreeSuffix].
  - split; [lia | intros j Hj; lia].
  - destruct (setHas used (Dashboard.withSuffix c s)) eqn:E.
    + destruct (IH (s + 1)) as [H1 H2]. split; [lia|].
      intros j Hj. destruct (Z.eq_dec j s) as [-> | Hne].
      * now apply setHas_true_iff.
      * apply H2. lia.
    + split; [lia | intros j Hj; lia].
Qed.

(** The id of a name depends on the names before it only: it is the free
    candidate for the ids given so far. *)
Lemma resolve_at (prev : list (jsstring * jsstring)) (pre : list jsstring)
      (n : jsstring) (post : list jsstring) :
  NoDup (pre ++ n :: post) ->
  mapGet (snd (fold_left (Dashboard.resolveStep prev) (pre ++ n :: post) ([], []))) n
  = Some (Dashboard.freeCandidate
            (fst (fold_left (Dashboard.resolveStep prev) pre ([], [])))
            (Dashboard.firstCandidate prev n)).
Proof.
  intros Hnd. rewrite fold_left_app. cbn [fold_left].
  set (st := fold_left (Dashboard.resolveStep prev) pre ([], [])).
  set (c := Dashboard.freeCandidate (fst st) (Dashboard.firstCandidate prev n)).
  assert (Hpost : ~ In n post).
  { apply NoDup_remove_2 in Hnd. intros H. apply Hnd. apply in_or_app. now right. }
  assert (H : forall st0, mapGet (snd st0) n = Some c ->
            mapGet (snd (fold_left (Dashboard.resolveStep prev) post st0)) n = Some c).
  { clear Hnd. induction post as [|x post IH]; intros st0 H0; [assumption|].
    cbn [fold_left]. apply IH.
    - intros Hin. apply Hpost. now right.
    - unfold Dashboard.resolveStep. cbn [snd].
      rewrite mapGet_mapSet_other; [assumption|].
      intros ->. apply Hpost. now left. }
  apply H. unfold Dashboard.resolveStep. cbn [snd]. apply mapGet_mapSet_same.
Qed.

(** A call, seen from a table of previous ids that are distinct and not
    empty, on names of which no two share a key: when the hash of a name
    without a previous id is no previous id, with or without a suffix, every
    name with a previous id gets that id. *)
Lemma resolve_known (P : list (jsstring * jsstring)) (names : list jsstring) :
  NoDup (map snd P) ->
  Forall (fun i => truthy_str i = true) (map snd P) ->
  NoDup (map key names) ->
  (forall n, In n names -> mapGet P (key n) = None ->
     forall x, In x (map snd P) ->
       x <> Dashboard.buildStableStudentId n /\
       forall k, x <> Dashboard.withSuffix (Dashboard.buildStableStudentId n) k) ->
  let st := fold_left (Dashboard.resolveStep P) names ([], []) in
  (forall n i, In n names -> mapGet P (key n) = Some i -> mapGet (snd st) n = Some i) /\
  (forall x, In x (fst st) -> In x (map snd P) ->
     exists n, In n names /\ mapGet P (key n) = Some x).
Proof.
  intros HndP HtrP. induction names as [|n names IH] using rev_ind;
    intros Hnd Hnew st.
  - subst st. split; [intros n i []|intros x []].
  - rewrite map_app in Hnd. apply NoDup_app_remove_r in Hnd as Hnd0.
    assert (Hnk : ~ In (key n) (map key names)).
    { apply NoDup_remove_2 in Hnd. now rewrite app_nil_r in Hnd. }
    destruct IH as [IH1 IH2]; [assumption | |].
    { intros m Hm. apply Hnew. apply in_or_app. now left. }
    subst st. rewrite fold_left_app. cbn [fold_left].
    set (st0 := fold_left (Dashboard.resolveStep P) names ([], [])) in *.
    unfold Dashboard.resolveStep. cbn [fst snd].
    set (c := Dashboard.freeCandidate (fst st0) (Dashboard.firstCandidate P n)).
    (* the candidate of [n] *)
    assert (Hc : (forall i, mapGet P (key n) = Some i -> c = i) /\
                 (mapGet P (key n) = None -> ~ In c (map snd P))).
    { split.
      - intros i Ei.
        assert (Hi : truthy_str i = true).
        { rewrite Forall_forall in HtrP. apply HtrP.
          apply mapGet_In in Ei. now apply (in_map snd) in Ei. }
        assert (Hfirst : Dashboard.firstCandidate P n = i)
          by (unfold Dashboard.firstCandidate; now rewrite Ei, Hi).
        unfold c. rewrite Hfirst. apply freeCandidate_unused.
        intros Hin. destruct (IH2 i Hin) as (n' & Hn' & En').
        { apply mapGet_In in Ei. now apply (in_map snd) in Ei. }
        apply mapGet_In in Ei, En'.
        assert (Hk : (key n', i) = (key n, i))
          by (apply (NoDup_map_inj_on _ _ snd P); auto).
        apply Hnk. assert (Hk' : key n' = key n) by congruence.
        rewrite <- Hk'. now apply in_map.
      - intros En Hin.
        assert (Hfirst : Dashboard.firstCandidate P n = Dashboard.buildStableStudentId n)
          by (unfold Dashboard.firstCandidate; now rewrite En).
        assert (Hn : In n (names ++ [n])) by (apply in_or_app; right; now left).
        destruct (Hnew n Hn En c Hin) as [H1 H2].
        unfold c in H1, H2. rewrite Hfirst in H1, H2.
        unfold Dashboard.freeCandidate in H1, H2.
        destruct (setHas (fst st0) (Dashboard.buildStableStudentId n)).
        + now apply (H2 (Dashboard.nextFreeSuffix (length (fst st0)) (fst st0)
                           (Dashboard.buildStableStudentId n) 2)).
        + now apply H1. }
    destruct Hc as [Hc1 Hc2]. split.
    + intros m i Hm Ei. apply in_app_or in Hm as [Hm | [<- | []]].
      * rewrite mapGet_mapSet_other; [now apply IH1|].
        intros ->. apply Hnk. now apply in_map.
      * rewrite mapGet_mapSet_same. f_equal. now apply Hc1.
    + intros x Hx HxP. apply In_setAdd in Hx as [Hx | ->].
      * destruct (IH2 x Hx HxP) as (m & Hm & Em).
        exists m. split; [apply in_or_app; now left | assumption].
      * exists n. split; [apply in_or_app; right; now left|].
        destruct (mapGet P (key n)) as [i|] eqn:Ei.
        -- f_equal. symmetry. now apply Hc1.
        -- exfalso. now apply Hc2.
Qed.

(** C1 (amended).  Id stability of [resolveStudentIds].  The first call
    resolves names of which no two share a normalised key; the second call
    is given the nodes of the first as previous nodes and resolves names of
    which no two share a key either, some of them new.  When no id of the
    first call is the hash of a new name, with or without a numeric suffix,
    every name of the second call whose key is the key of a name of the
    first call gets the id of that name: a name resolved twice, or resolved
    again in another case or with other white space, keeps its id.  A name
    without a previous id gets the hash of its code units, or, when an
    earlier name of the batch has that id, the hash with the least suffix
    from 2 on that gives an id not in use. *)
Theorem resolveStudentIds_id_stability
  (previous0 : option (list Node)) (names1 names2 : list jsstring) :
  NoDup (map key names1) ->
  NoDup (map key names2) ->
  (forall n2, In n2 names2 -> ~ In (key n2) (map key names1) ->
     forall x, In x (map snd (Dashboard.resolveStudentIds names1 previous0)) ->
       x <> Dashboard.buildStableStudentId n2 /\
       forall k, x <> Dashboard.withSuffix (Dashboard.buildStableStudentId n2) k) ->
  (forall n1 n2, In n1 names1 -> In n2 names2 -> key n1 = key n2 ->
     exists i,
       mapGet (Dashboard.resolveStudentIds names1 previous0) n1 = Some i /\
       mapGet (Dashboard.resolveStudentIds names2
                 (Some (Dashboard.nodesOf
                          (Dashboard.resolveStudentIds names1 previous0) names1))) n2
       = Some i) /\
  (forall previous pre n post,
     NoDup (pre ++ n :: post) ->
     mapGet (Dashboard.previousIdByName previous) (key n) = None \/
     mapGet (Dashboard.previousIdByName previous) (key n) = Some [] ->
     let used := map snd (Dashboard.resolveStudentIds pre previous) in
     let hash := Dashboard.buildStableStudentId n in
     (~ In hash used ->
        mapGet (Dashboard.resolveStudentIds (pre ++ n :: post) previous) n = Some hash) /\
     (In hash used ->
        exists k,
          2 <= k /\
          mapGet (Dashboard.resolveStudentIds (pre ++ n :: post) previous) n
          = Some (Dashboard.withSuffix hash k) /\
          ~ In (Dashboard.withSuffix hash k) used /\
          forall j, 2 <= j < k -> In (Dashboard.withSuffix hash j) used)).
Proof.
  intros Hk1 Hk2 Hnew. split.
  - intros n1 n2 Hn1 Hn2 Ekey.
    pose proof (NoDup_map_inv _ _ _ _ Hk1) as Hnd1.
    pose proof (resolve_state (Dashboard.previousIdByName previous0) names1 Hnd1)
      as (Hkeys & Hused & Hvals & Htr).
    rewrite <- Hused in Hvals, Htr. clear Hused.
    change (snd (fold_left (Dashboard.resolveStep (Dashboard.previousIdByName previous0))
                   names1 ([], [])))
      with (Dashboard.resolveStudentIds names1 previous0) in *.
    set (m1 := Dashboard.resolveStudentIds names1 previous0) in *.
    assert (Hndk : NoDup (map fst m1)) by now rewrite Hkeys.
    (* the table of previous ids built by the second call *)
    assert (HP : Dashboard.previousIdByName (Some (Dashboard.nodesOf m1 names1))
                 = map (fun kv => (key (fst kv), snd kv)) m1).
    { rewrite <- Hkeys at 1. rewrite nodesOf_resolved by assumption.
      rewrite previousIdByName_distinct.
      - rewrite map_map. reflexivity.
      - rewrite map_map. cbn [name freshNode].
        rewrite <- (map_map fst key), Hkeys. assumption. }
    set (P := map (fun kv => (key (fst kv), snd kv)) m1) in *.
    assert (HPfst : map fst P = map key names1).
    { unfold P. rewrite map_map. cbn [fst]. now rewrite <- (map_map fst key), Hkeys. }
    assert (HPsnd : map snd P = map snd m1).
    { unfold P. rewrite map_map. reflexivity. }
    (* the id of [n1] in the first call *)
    assert (Hin1 : In n1 (map fst m1)) by now rewrite Hkeys.
    apply in_map_iff in Hin1 as [[k i] [Ek Hin1]]. cbn [fst] in Ek. subst k.
    exists i. split; [now apply In_mapGet|].
    unfold Dashboard.resolveStudentIds. rewrite HP.
    destruct (resolve_known P names2) as [Hknown _].
    + now rewrite HPsnd.
    + now rewrite HPsnd.
    + assumption.
    + intros n Hn En x Hx. rewrite HPsnd in Hx. apply Hnew; auto.
      apply mapGet_None_notin in En. now rewrite HPfst in En.
    + apply Hknown; [assumption|]. rewrite <- Ekey.
      apply In_mapGet; [now rewrite HPfst|].
      unfold P. apply in_map_iff. now exists (n1, i).
  - intros previous pre n post Hnd Hprev. cbv zeta.
    assert (Hpre : NoDup pre) by now apply NoDup_app_remove_r in Hnd.
    pose proof (resolve_state (Dashboard.previousIdByName previous) pre Hpre)
      as (_ & Hused & _ & _).
    assert (Hfirst : Dashboard.firstCandidate (Dashboard.previousIdByName previous) n
                     = Dashboard.buildStableStudentId n).
    { unfold Dashboard.firstCandidate. destruct Hprev as [-> | ->]; reflexivity. }
    assert (Hat : mapGet (Dashboard.resolveStudentIds (pre ++ n :: post) previous) n
                  = Some (Dashboard.freeCandidate
                            (map snd (Dashboard.resolveStudentIds pre previous))
                            (Dashboard.buildStableStudentId n))).
    { unfold Dashboard.resolveStudentIds.
      rewrite (resolve_at _ pre n post Hnd), Hfirst. now rewrite Hused. }
    rewrite Hat. clear Hat.
    set (used := map snd (Dashboard.resolveStudentIds pre previous)).
    set (hash := Dashboard.buildStableStudentId n).
    unfold Dashboard.freeCandidate. split.
    + intros Hfree. apply setHas_false_iff in Hfree. now rewrite Hfree.
    + intros Hin. apply setHas_true_iff in Hin as Hin'. rewrite Hin'.
      destruct (nextFreeSuffix_least used hash (length used) 2) as [Hle Hleast].
      exists (Dashboard.nextFreeSuffix (length used) used hash 2).
      split; [assumption|]. split; [reflexivity|].
      split; [apply nextFreeSuffix_free | assumption].
Qed.
End Stability.

Section StabilityExamples.
#[local] Existing Instance Examples.asciiHost.

(** C1, as stated, fails: ["Kim"] and ["kim"] are two canonical names with
    one key.  The first call gives them their two hashes; the second call
    finds the id of ["kim"] under the shared key, hands it to ["Kim"], and
    gives ["kim"] that id with the suffix [_2].  Neither name keeps its id. *)
Lemma resolveStudentIds_key_collision :
  Dashboard.resolveStudentIds [lit "Kim"; lit "kim"] None
    = [(lit "Kim", lit "STU_1o7fd24"); (lit "kim", lit "STU_w6dcfw")] /\
  Dashboard.resolveStudentIds [lit "Kim"; lit "kim"]
    (Some (Dashboard.nodesOf
             (Dashboard.resolveStudentIds [lit "Kim"; lit "kim"] None)
             [lit "Kim"; lit "kim"]))
    = [(lit "Kim", lit "STU_w6dcfw"); (lit "kim", lit "STU_w6dcfw_2")] /\
  mapGet (Dashboard.resolveStudentIds [lit "Kim"; lit "kim"] None) (lit "Kim")
  <> mapGet (Dashboard.resolveStudentIds [lit "Kim"; lit "kim"]
               (Some (Dashboard.nodesOf
                        (Dashboard.resolveStudentIds [lit "Kim"; lit "kim"] None)
                        [lit "Kim"; lit "kim"]))) (lit "Kim").
Proof.
  split; [vm_compute; reflexivity|]. split; [vm_compute; reflexivity|].
  vm_compute. discriminate.
Qed.

(** A witness of C1, the example of the specification with a new name
    beside it: ["Kim  Min Jun"] and ["Bob"] are resolved first, then
    ["Carol"] and ["kim min jun"] against the nodes of the first call. *)
Lemma resolveStudentIds_id_stability_witness :
  (forall n1 n2,
     In n1 [lit "Kim  Min Jun"; lit "Bob"] -> In n2 [lit "Carol"; lit "kim min jun"] ->
     Dashboard.normalizeStudentNameKey n1 = Dashboard.normalizeStudentNameKey n2 ->
     exists i,
       mapGet (Dashboard.resolveStudentIds [lit "Kim  Min Jun"; lit "Bob"] None) n1
       = Some i /\
       mapGet (Dashboard.resolveStudentIds [lit "Carol"; lit "kim min jun"]
                 (Some (Dashboard.nodesOf
                          (Dashboard.resolveStudentIds
                             [lit "Kim  Min Jun"; lit "Bob"] None)
                          [lit "Kim  Min Jun"; lit "Bob"]))) n2
       = Some i) /\
  (forall previous pre n post,
     NoDup (pre ++ n :: post) ->
     mapGet (Dashboard.previousIdByName previous)
            (Dashboard.normalizeStudentNameKey n) = None \/
     mapGet (Dashboard.previousIdByName previous)
            (Dashboard.normalizeStudentNameKey n) = Some [] ->
     let used := map snd (Dashboard.resolveStudentIds pre previous) in
     let hash := Dashboard.buildStableStudentId n in
     (~ In hash used ->
        mapGet (Dashboard.resolveStudentIds (pre ++ n :: post) previous) n = Some hash) /\
     (In hash used ->
        exists k,
          2 <= k /\
          mapGet (Dashboard.resolveStudentIds (pre ++ n :: post) previous) n
          = Some (Dashboard.withSuffix hash k) /\
          ~ In (Dashboard.withSuffix hash k) used /\
          forall j, 2 <= j < k -> In (Dashboard.withSuffix hash j) used)).
Proof.
  apply (resolveStudentIds_id_stability (host := Examples.asciiHost) None
           [lit "Kim  Min Jun"; lit "Bob"] [lit "Carol"; lit "kim min jun"]).
  - apply distinctb_NoDup. vm_compute. reflexivity.
  - apply distinctb_NoDup. vm_compute. reflexivity.
  - intros n2 Hn2 Hnew x Hx.
    destruct Hn2 as [<- | [<- | []]].
    + split.
      * intros ->. revert Hx. vm_compute. intuition discriminate.
      * intros k E.
        pose proof (withSuffix_length (Dashboard.buildStableStudentId (lit "Carol")) k)
          as Hlen.
        rewrite <- E in Hlen.
        assert (Hall : forallb
                         (fun i => (length i
                                    <=? S (length (Dashboard.buildStableStudentId
                                                     (lit "Carol"))))%nat)
                         (map snd (Dashboard.resolveStudentIds
                                     [lit "Kim  Min Jun"; lit "Bob"] None))
                       = true) by (vm_compute; reflexivity).
        rewrite forallb_forall in Hall. rewrite (Hall x Hx) in Hlen. discriminate.
    + exfalso. apply Hnew. vm_compute. left. reflexivity.
Defined.

(** The two calls of that example, evaluated: one id for both spellings. *)
Lemma kim_min_jun_keeps_its_id :
  mapGet (Dashboard.resolveStudentIds [lit "Kim  Min Jun"; lit "Bob"] None)
         (lit "Kim  Min Jun")
  = mapGet (Dashboard.resolveStudentIds [lit "kim min jun"]
              (Some (Dashboard.nodesOf
                       (Dashboard.resolveStudentIds [lit "Kim  Min Jun"; lit "Bob"] None)
                       [lit "Kim  Min Jun"; lit "Bob"]))) (lit "kim min jun").
Proof. vm_compute. reflexivity. Qed.

(** The ids of [processWithGemini] are not derived from the names: they are
    whatever [crypto.randomUUID] returns during the run. *)
Lemma processWithGemini_ids_follow_the_uuids :
  option_map (fun r => map id (Parser.nodes r))
             (Parser.processWithGemini (fun _ => lit "1111")
                (Examples.body [VString (lit "Alice")] []))
    = Some [lit "STU_1111"] /\
  option_map (fun r => map id (Parser.nodes r))
             (Parser.processWithGemini (fun _ => lit "2222")
                (Examples.body [VString (lit "Alice")] []))
    = Some [lit "STU_2222"].
Proof. vm_compute. split; reflexivity. Qed.
End StabilityExamples.

(** ** The graph builder *)

Lemma hasNode_true_iff (g : G.Graph) (k : jsstring) :
  G.hasNode g k = true <-> In k (map fst (G.nodes g)).
Proof.
  unfold G.hasNode. rewrite existsb_exists. split.
  - intros [kv [Hin E]]. apply streq_true_iff in E. subst k. now apply in_map.
  - intros Hin. apply in_map_iff in Hin as [kv [E Hin]].
    exists kv. split; [assumption|]. subst k. apply streq_refl.
Qed.

Lemma hasNode_setHas (g : G.Graph) (k : jsstring) :
  G.hasNode g k = setHas (map fst (G.nodes g)) k.
Proof.
  destruct (G.hasNode g k) eqn:E1, (setHas (map fst (G.nodes g)) k) eqn:E2; auto.
  - apply hasNode_true_iff, setHas_true_iff in E1. congruence.
  - apply setHas_true_iff, hasNode_true_iff in E2. congruence.
Qed.

Lemma addNodes_spec (l : list Node) :
  forall g,
    fold_left Analyzer.addNodeStep l (Some g)
    = Some (G.mkGraph (G.graphType g) (G.multi g)
              (G.nodes g ++ map nodeEntry (keepFirst (map fst (G.nodes g)) l))
              (G.edges g)).
Proof.
  induction l as [|n l IH]; intros g.
  - simpl. rewrite app_nil_r. now destruct g.
  - cbn [fold_left Analyzer.addNodeStep keepFirst].
    rewrite <- hasNode_setHas. unfold G.addNode.
    destruct (G.hasNode g (id n)) eqn:E.
    + apply IH.
    + rewrite IH. cbn [G.graphType G.multi G.nodes G.edges].
      rewrite map_app. cbn [map fst nodeEntry]. now rewrite <- app_assoc.
Qed.

Lemma addEdges_spec (l : list Edge) :
  forall g,
    G.graphType g = G.directed -> G.multi g = true ->
    fold_left Analyzer.addEdgeStep l (Some g)
    = Some (G.mkGraph (G.graphType g) (G.multi g) (G.nodes g)
              (G.edges g ++ map graphEdgeOf (keptEdges (map fst (G.nodes g)) l))).
Proof.
  induction l as [|e l IH]; intros g Ht Hm.
  - simpl. rewrite app_nil_r. now destruct g.
  - cbn [fold_left Analyzer.addEdgeStep keptEdges filter].
    rewrite <- !hasNode_setHas.
    destruct (G.hasNode g (source e) && G.hasNode g (target e)) eqn:E.
    + unfold G.addDirectedEdge. rewrite Ht, Hm.
      apply andb_true_iff in E as [E1 E2]. rewrite E1, E2. cbn [negb orb andb].
      rewrite IH by reflexivity. cbn [G.graphType G.multi G.nodes G.edges].
      cbn [map]. now rewrite <- app_assoc.
    + apply IH; assumption.
Qed.

(** The builder never throws: the graph it returns holds the first node of
    every id, in input order, and the edges whose two ends are among them. *)
Lemma buildGraph_spec (nodes : list Node) (edges : list Edge) :
  Analyzer.buildGraph nodes edges
  = Some (G.mkGraph G.directed true
            (map nodeEntry (keepFirst [] nodes))
            (map graphEdgeOf
               (keptEdges (map id (keepFirst [] nodes)) edges))).
Proof.
  unfold Analyzer.buildGraph. rewrite addNodes_spec.
  rewrite addEdges_spec by reflexivity.
  cbn [G.graphType G.multi G.nodes G.edges G.newGraph app map].
  rewrite map_map. reflexivity.
Qed.

Lemma keepFirst_ids (l : list Node) :
  forall seen, NoDup seen -> NoDup (seen ++ map id (keepFirst seen l)).
Proof.
  induction l as [|n l IH]; intros seen Hnd.
  - simpl. now rewrite app_nil_r.
  - cbn [keepFirst]. destruct (setHas seen (id n)) eqn:E.
    + now apply IH.
    + cbn [map]. apply setHas_false_iff in E.
      replace (seen ++ id n :: map id (keepFirst (seen ++ [id n]) l))
        with ((seen ++ [id n]) ++ map id (keepFirst (seen ++ [id n]) l))
        by now rewrite <- app_assoc.
      apply IH. apply NoDup_app; [assumption | repeat constructor; simpl; tauto|].
      intros x Hx [<- | []]. contradiction.
Qed.

Lemma keepFirst_NoDup (l : list Node) : NoDup (map id (keepFirst [] l)).
Proof. apply (keepFirst_ids l []). constructor. Qed.

Lemma keepFirst_incl (l : list Node) :
  forall seen n, In n (keepFirst seen l) -> In n l.
Proof.
  induction l as [|m l IH]; intros seen n; cbn [keepFirst]; [tauto|].
  destruct (setHas seen (id m)).
  - intros H. right. eauto.
  - intros [<- | H]; [now left | right; eauto].
Qed.

(** ** The stages of the analysis keep the nodes in place *)

Section Stages.
Context {host : Host} {lib : G.Metrics}.

Lemma update_id (g : G.Graph) : G.updateEachNodeAttributes (fun _ a => a) g = g.
Proof.
  destruct g as [t m ns es]. unfold G.updateEachNodeAttributes. cbn.
  f_equal. rewrite <- (map_id ns) at 2. apply map_ext. now intros [k a].
Qed.

Lemma update_update (F1 F2 : jsstring -> G.Attributes -> G.Attributes) (g : G.Graph) :
  G.updateEachNodeAttributes F2 (G.updateEachNodeAttributes F1 g)
  = G.updateEachNodeAttributes (fun k a => F2 k (F1 k a)) g.
Proof.
  unfold G.updateEachNodeAttributes. cbn. f_equal. rewrite map_map. reflexivity.
Qed.

Lemma degreeStage_update (g : G.Graph) :
  Analyzer.degreeStage g = G.updateEachNodeAttributes (degreeUpdate g) g.
Proof.
  unfold Analyzer.degreeStage, degreeUpdate.
  destruct (G.inDegreeCentrality_assign g) as [fin|]; [|now rewrite update_id].
  destruct (G.outDegreeCentrality_assign _) as [fout|]; [|reflexivity].
  apply update_update.
Qed.

Lemma betweennessStage_update (g : G.Graph) :
  Analyzer.betweennessStage g
  = G.updateEachNodeAttributes
      (guardedUpdate (G.betweennessCentrality_assign g) Analyzer.setBetweenness) g.
Proof.
  unfold Analyzer.betweennessStage, guardedUpdate.
  destruct (G.betweennessCentrality_assign g); [reflexivity | now rewrite update_id].
Qed.

Lemma closenessStage_update (g : G.Graph) :
  Analyzer.closenessStage g
  = G.updateEachNodeAttributes
      (guardedUpdate (G.closenessCentrality_assign g) Analyzer.setCloseness) g.
Proof.
  unfold Analyzer.closenessStage, guardedUpdate.
  destruct (G.closenessCentrality_assign g); [reflexivity | now rewrite update_id].
Qed.

Lemma eigenvectorStage_update (g : G.Graph) :
  Analyzer.eigenvectorStage g
  = G.updateEachNodeAttributes
      (guardedUpdate (G.eigenvectorCentrality_assign g) Analyzer.setEigenvector) g.
Proof.
  unfold Analyzer.eigenvectorStage, guardedUpdate.
  destruct (G.eigenvectorCentrality_assign g); [reflexivity | now rewrite update_id].
Qed.

Lemma communityStage_update (nodes : list Node) (edges : list Edge) (g : G.Graph) :
  Analyzer.communityStage nodes edges g
  = G.updateEachNodeAttributes (communityUpdate nodes edges g) g.
Proof.
  unfold Analyzer.communityStage, communityUpdate.
  destruct (G.louvain _ _); [reflexivity | now rewrite update_id].
Qed.

Lemma update_on (F F1 : jsstring -> G.Attributes -> G.Attributes) (g1 g : G.Graph) :
  g1 = G.updateEachNodeAttributes F1 g ->
  G.updateEachNodeAttributes F g1
  = G.updateEachNodeAttributes (fun k a => F k (F1 k a)) g.
Proof. intros ->. apply update_update. Qed.

Lemma analyzedGraph_update (nodes : list Node) (edges : list Edge) (g : G.Graph) :
  Analyzer.analyzedGraph nodes edges g
  = G.updateEachNodeAttributes (finalAttributes nodes edges g) g.
Proof.
  unfold Analyzer.analyzedGraph, finalAttributes.
  unfold afterEigenvector, afterCloseness, afterBetweenness, afterDegree.
  pose proof (degreeStage_update g) as H1.
  set (g1 := Analyzer.degreeStage g) in *.
  pose proof (betweennessStage_update g1) as H2.
  rewrite (update_on _ _ _ _ H1) in H2.
  set (g2 := Analyzer.betweennessStage g1) in *.
  pose proof (closenessStage_update g2) as H3.
  rewrite (update_on _ _ _ _ H2) in H3.
  set (g3 := Analyzer.closenessStage g2) in *.
  pose proof (eigenvectorStage_update g3) as H4.
  rewrite (update_on _ _ _ _ H3) in H4.
  set (g4 := Analyzer.eigenvectorStage g3) in *.
  rewrite communityStage_update.
  now rewrite (update_on _ _ _ _ H4).
Qed.

(** [analyzeNetwork] in one equation: it always returns, with one record per
    kept node, in order. *)
Lemma analyzeNetwork_spec (nodes : list Node) (edges : list Edge) :
  exists g0,
    Analyzer.buildGraph nodes edges = Some g0 /\
    G.nodes g0 = map nodeEntry (keepFirst [] nodes) /\
    G.edges g0 = map graphEdgeOf (keptEdges (map id (keepFirst [] nodes)) edges) /\
    G.graphType g0 = G.directed /\ G.multi g0 = true /\
    let enriched :=
      map (fun n => Analyzer.enrich (id n)
                      (finalAttributes nodes edges g0 (id n) (Analyzer.attributesOf n)))
          (keepFirst [] nodes) in
    Analyzer.analyzeNetwork nodes edges
    = Some (Analyzer.mkResult
              (G.updateEachNodeAttributes (finalAttributes nodes edges g0) g0)
              enriched edges (filter Analyzer.isIsolated enriched)).
Proof.
  eexists. split; [apply buildGraph_spec|].
  repeat (split; [reflexivity|]).
  cbv zeta. unfold Analyzer.analyzeNetwork. rewrite buildGraph_spec.
  rewrite analyzedGraph_update.
  unfold G.mapNodes, G.updateEachNodeAttributes.
  cbn [G.nodes G.edges G.graphType G.multi].
  rewrite !map_map. cbn [fst snd nodeEntry]. reflexivity.
Qed.
End Stages.

(** ** Reading the attributes back *)

Section Reading.
Context {host : Host} {lib : G.Metrics}.

Ltac read_final :=
  unfold finalAttributes, communityUpdate, guardedUpdate, degreeUpdate;
  repeat match goal with
    | |- context [match ?c with Some _ => _ | None => _ end] => destruct c
    end;
  reflexivity.

Lemma final_name nodes edges g k a :
  G.name (finalAttributes nodes edges g k a) = G.name a.
Proof. read_final. Qed.

Lemma final_label nodes edges g k a :
  G.label (finalAttributes nodes edges g k a) = G.label a.
Proof. read_final. Qed.

Lemma final_group nodes edges g k a :
  G.group (finalAttributes nodes edges g k a) = G.group a.
Proof. read_final. Qed.

Lemma final_inDegree nodes edges g k a :
  G.inDegreeCentrality (finalAttributes nodes edges g k a)
  = match G.inDegreeCentrality_assign g with
    | Some fin => Some (fin k)
    | None => G.inDegreeCentrality a
    end.
Proof. read_final. Qed.

Lemma final_outDegree nodes edges g k a :
  G.outDegreeCentrality (finalAttributes nodes edges g k a)
  = match G.inDegreeCentrality_assign g with
    | Some fin =>
        match G.outDegreeCentrality_assign
                (G.updateEachNodeAttributes (Analyzer.setInDegree fin) g) with
        | Some fout => Some (fout k)
        | None => G.outDegreeCentrality a
        end
    | None => G.outDegreeCentrality a
    end.
Proof. read_final. Qed.

Lemma final_betweenness nodes edges g k a :
  G.betweennessCentrality (finalAttributes nodes edges g k a)
  = match G.betweennessCentrality_assign (afterDegree g) with
    | Some f => Some (f k)
    | None => G.betweennessCentrality a
    end.
Proof. read_final. Qed.

Lemma final_closeness nodes edges g k a :
  G.closenessCentrality (finalAttributes nodes edges g k a)
  = match G.closenessCentrality_assign (afterBetweenness g) with
    | Some f => Some (f k)
    | None => G.closenessCentrality a
    end.
Proof. read_final. Qed.

Lemma final_eigenvector nodes edges g k a :
  G.eigenvectorCentrality (finalAttributes nodes edges g k a)
  = match G.eigenvectorCentrality_assign (afterCloseness g) with
    | Some f => Some (f k)
    | None => G.eigenvectorCentrality a
    end.
Proof. read_final. Qed.

End Reading.

(** ** Numbers *)

Lemma orZero_nonNegative (x : number) :
  nonNegativeOrNaN x = true -> nonNegative (orZero (Some x)) = true.
Proof.
  unfold nonNegativeOrNaN, orZero, truthy_num. intros H.
  destruct (PrimFloat.is_zero x); cbn [orb negb]; [reflexivity|].
  destruct (PrimFloat.is_nan x); cbn [orb negb] in *; [reflexivity | assumption].
Qed.

Lemma orZero_idempotent (o : option number) : orZero (Some (orZero o)) = orZero o.
Proof.
  destruct o as [x|]; [|reflexivity].
  cbn [orZero]. destruct (truthy_num x) eqn:E.
  - now rewrite E.
  - reflexivity.
Qed.

(** ** The analysis result *)

Section Result.
Context {host : Host} {lib : G.Metrics}.

(** C9.  The node list of the result never holds two records with one id:
    [analyzeNetwork] returns for every input, with one record for the first
    input node of every id, in input order, carrying that node's name, label
    and group. *)
Theorem analyzeNetwork_unique_ids (nodes : list Node) (edges : list Edge) :
  exists r,
    Analyzer.analyzeNetwork nodes edges = Some r /\
    NoDup (map id (Analyzer.nodes r)) /\
    map (fun n => (id n, name n, label n, group n)) (Analyzer.nodes r)
    = map (fun n => (id n, name n, label n, group n)) (keepFirst [] nodes).
Proof.
  destruct (analyzeNetwork_spec nodes edges) as (g0 & _ & _ & _ & _ & _ & Hr).
  cbv zeta in Hr. eexists. split; [exact Hr|].
  cbn [Analyzer.nodes]. rewrite !map_map. cbn [Analyzer.enrich id name label group].
  split.
  - apply keepFirst_NoDup.
  - apply map_ext. intros n.
    now rewrite final_name, final_label, final_group.
Qed.

(** C5 (amended).  The edge list of the result is the input edge list,
    unchanged and unfiltered; only the graph of the result holds the
    filtered edges, those whose two ends are ids of result nodes. *)
Theorem analyzeNetwork_edges_pass_through (nodes : list Node) (edges : list Edge) :
  exists r,
    Analyzer.analyzeNetwork nodes edges = Some r /\
    Analyzer.edges r = edges /\
    G.edges (Analyzer.graph r)
    = map graphEdgeOf (keptEdges (map id (Analyzer.nodes r)) edges).
Proof.
  destruct (analyzeNetwork_spec nodes edges) as (g0 & _ & _ & He & _ & _ & Hr).
  cbv zeta in Hr. eexists. split; [exact Hr|].
  cbn [Analyzer.edges Analyzer.graph Analyzer.nodes]. split; [reflexivity|].
  unfold G.updateEachNodeAttributes. cbn [G.edges]. rewrite He.
  rewrite map_map. reflexivity.
Qed.

(** X4.  What [louvain] is called on (C3): the copy of the built graph is the
    directed multigraph itself, with one edge for every kept input edge. *)
Lemma louvainInput_is_the_multigraph (nodes : list Node) (edges : list Edge) :
  exists g0,
    Analyzer.buildGraph nodes edges = Some g0 /\
    G.graphType (Analyzer.louvainInput (afterEigenvector g0)) = G.directed /\
    G.multi (Analyzer.louvainInput (afterEigenvector g0)) = true /\
    G.edges (Analyzer.louvainInput (afterEigenvector g0))
    = map graphEdgeOf (keptEdges (map id (keepFirst [] nodes)) edges).
Proof.
  eexists. split; [apply buildGraph_spec|].
  unfold afterEigenvector, afterCloseness, afterBetweenness, afterDegree.
  rewrite eigenvectorStage_update, closenessStage_update,
    betweennessStage_update, degreeStage_update.
  repeat split.
Qed.


(** C8.  In the result every node has [inDegree >= 0] and [outDegree >= 0],
    and a node is in the isolated list exactly when its [inDegree] is 0,
    whatever its out-degree.  The sign of a degree centrality is the
    library's: the two hypotheses say that the values it stores on the built
    graph are non-negative or [NaN]. *)
Theorem analyzeNetwork_degrees_and_isolated (nodes : list Node) (edges : list Edge) :
  (forall g0 fin,
     Analyzer.buildGraph nodes edges = Some g0 ->
     G.inDegreeCentrality_assign g0 = Some fin ->
     Forall (fun k => nonNegativeOrNaN (fin k) = true) (map fst (G.nodes g0))) ->
  (forall g0 fin fout,
     Analyzer.buildGraph nodes edges = Some g0 ->
     G.inDegreeCentrality_assign g0 = Some fin ->
     G.outDegreeCentrality_assign
       (G.updateEachNodeAttributes (Analyzer.setInDegree fin) g0) = Some fout ->
     Forall (fun k => nonNegativeOrNaN (fout k) = true) (map fst (G.nodes g0))) ->
  exists r,
    Analyzer.analyzeNetwork nodes edges = Some r /\
    forall n, In n (Analyzer.nodes r) ->
      exists x y,
        inDegree n = Some x /\ outDegree n = Some y /\
        nonNegative x = true /\ nonNegative y = true /\
        (In n (Analyzer.isolatedStudents r) <-> (x =? 0)%float = true).
Proof.
  intros Hin Hout.
  destruct (analyzeNetwork_spec nodes edges) as (g0 & Hb & Hn & _ & _ & _ & Hr).
  cbv zeta in Hr. eexists. split; [exact Hr|].
  cbn [Analyzer.nodes Analyzer.isolatedStudents].
  intros n Hn0. pose proof Hn0 as Hn1.
  apply in_map_iff in Hn0 as [n0 [<- Hn0]].
  assert (Hk : In (id n0) (map fst (G.nodes g0))).
  { rewrite Hn, map_map. cbn [fst nodeEntry]. now apply in_map. }
  cbn [Analyzer.enrich inDegree outDegree]. do 2 eexists.
  split; [reflexivity|]. split; [reflexivity|].
  rewrite final_inDegree, final_outDegree. cbn [Analyzer.attributesOf
    G.inDegreeCentrality G.outDegreeCentrality].
  split; [|split].
  - destruct (G.inDegreeCentrality_assign g0) as [fin|] eqn:Ein; [|reflexivity].
    apply orZero_nonNegative.
    specialize (Hin g0 fin Hb Ein). rewrite Forall_forall in Hin. auto.
  - destruct (G.inDegreeCentrality_assign g0) as [fin|] eqn:Ein; [|reflexivity].
    destruct (G.outDegreeCentrality_assign _) as [fout|] eqn:Eout; [|reflexivity].
    apply orZero_nonNegative.
    specialize (Hout g0 fin fout Hb Ein Eout). rewrite Forall_forall in Hout. auto.
  - rewrite filter_In. unfold Analyzer.isIsolated.
    split.
    + intros [_ H]. revert H. cbn [Analyzer.enrich inDegree].
      rewrite orZero_idempotent, final_inDegree. tauto.
    + intros H. split; [exact Hn1|]. cbn [Analyzer.enrich inDegree].
      rewrite orZero_idempotent, final_inDegree. exact H.
Qed.

(** C4 (amended).  The analysis always returns.  Betweenness, closeness and
    eigenvector centrality are each reported from their own call alone: the
    stored value or 0 when it is falsy, and 0 for every node when the call
    threw, whatever the other calls did.  The two degree centralities share
    one guard: in-degree is reported from its own call, and out-degree is
    reported from its call only when the in-degree call returned; when the
    in-degree call threw, the out-degree routine is not called and 0 is
    reported for every node. *)
Theorem analyzeNetwork_metric_guards (nodes : list Node) (edges : list Edge) :
  exists g0 r,
    Analyzer.buildGraph nodes edges = Some g0 /\
    Analyzer.analyzeNetwork nodes edges = Some r /\
    map id (Analyzer.nodes r) = map fst (G.nodes g0) /\
    forall n, In n (Analyzer.nodes r) ->
      inDegree n = Some (reported (G.inDegreeCentrality_assign g0) (id n)) /\
      outDegree n
      = Some (match G.inDegreeCentrality_assign g0 with
              | Some fin =>
                  reported (G.outDegreeCentrality_assign
                              (G.updateEachNodeAttributes (Analyzer.setInDegree fin) g0))
                           (id n)
              | None => PrimFloat.zero
              end) /\
      betweenness n
      = Some (reported (G.betweennessCentrality_assign (afterDegree g0)) (id n)) /\
      closeness n
      = Some (reported (G.closenessCentrality_assign (afterBetweenness g0)) (id n)) /\
      eigenvector n
      = Some (reported (G.eigenvectorCentrality_assign (afterCloseness g0)) (id n)).
Proof.
  destruct (analyzeNetwork_spec nodes edges) as (g0 & Hb & Hn & _ & _ & _ & Hr).
  cbv zeta in Hr. exists g0. eexists. split; [exact Hb|]. split; [exact Hr|].
  cbn [Analyzer.nodes]. split.
  - rewrite Hn, !map_map. reflexivity.
  - intros n Hin. apply in_map_iff in Hin as [n0 [<- _]].
    cbn [Analyzer.enrich inDegree outDegree betweenness closeness eigenvector id].
    rewrite final_inDegree, final_outDegree, final_betweenness,
      final_closeness, final_eigenvector.
    cbn [Analyzer.attributesOf G.inDegreeCentrality G.outDegreeCentrality
           G.betweennessCentrality G.closenessCentrality G.eigenvectorCentrality].
    unfold reported.
    repeat split;
      repeat match goal with
        | |- context [match ?c with Some _ => _ | None => _ end] => destruct c
        end; reflexivity.
Qed.
End Result.

(** ** The analysis on concrete classes *)

Section AnalysisExamples.
#[local] Existing Instance Examples.asciiHost.
Import Examples.

(** The scenario of the specification: Alice nominates Bob.  Bob's in-degree
    is positive, Alice's is 0, and Alice alone is isolated although her
    out-degree is positive. *)
Lemma alice_nominates_bob :
  match Analyzer.analyzeNetwork (lib := quietLibrary)
          [aliceNode; bobNode] [nominates alice bob] with
  | Some r =>
      map (fun n => (id n, inDegree n, outDegree n)) (Analyzer.nodes r)
      = [(alice, Some 0%float, Some 1%float); (bob, Some 1%float, Some 0%float)] /\
      map id (Analyzer.isolatedStudents r) = [alice] /\
      Analyzer.edges r = [nominates alice bob]
  | None => False
  end.
Proof. vm_compute. repeat split. Qed.

(** A witness of C8: the scenario above, on the library whose degree
    centralities are the quotients of graphology-metrics. *)
Lemma analyzeNetwork_degrees_and_isolated_witness :
  exists r,
    Analyzer.analyzeNetwork (lib := quietLibrary)
      [aliceNode; bobNode] [nominates alice bob] = Some r /\
    forall n, In n (Analyzer.nodes r) ->
      exists x y,
        inDegree n = Some x /\ outDegree n = Some y /\
        nonNegative x = true /\ nonNegative y = true /\
        (In n (Analyzer.isolatedStudents r) <-> (x =? 0)%float = true).
Proof.
  apply (analyzeNetwork_degrees_and_isolated (lib := quietLibrary)
           [aliceNode; bobNode] [nominates alice bob]).
  - intros g0 fin Hb Hf. rewrite buildGraph_spec in Hb.
    injection Hb as <-. injection Hf as <-.
    repeat (constructor; [vm_compute; reflexivity|]). constructor.
  - intros g0 fin fout Hb Hf Hg. rewrite buildGraph_spec in Hb.
    injection Hb as <-. injection Hf as <-. injection Hg as <-.
    repeat (constructor; [vm_compute; reflexivity|]). constructor.
Defined.

(** C4, as stated, fails: when the in-degree routine throws, the out-degree
    routine, which would have returned 1 for Alice, is never called, and the
    result reports 0 for her out-degree. *)
Lemma outDegree_lost_with_inDegree :
  exists g0 r fout,
    Analyzer.buildGraph [aliceNode; bobNode] [nominates alice bob] = Some g0 /\
    Analyzer.analyzeNetwork (lib := inDegreeThrows)
      [aliceNode; bobNode] [nominates alice bob] = Some r /\
    G.outDegreeCentrality_assign (Metrics := inDegreeThrows) g0 = Some fout /\
    fout alice = 1%float /\
    map (fun n => (id n, outDegree n)) (Analyzer.nodes r)
    = [(alice, Some 0%float); (bob, Some 0%float)].
Proof.
  do 3 eexists.
  split; [apply buildGraph_spec|].
  split; [vm_compute; reflexivity|].
  split; [cbn; reflexivity|].
  split; vm_compute; reflexivity.
Qed.

(** C5, as stated, fails: an edge towards a student who is not a node stays
    in the edge list of the result, while the graph has dropped it. *)
Lemma unknown_endpoint_edge_returned :
  match Analyzer.analyzeNetwork (lib := quietLibrary)
          [aliceNode] [nominates alice carol] with
  | Some r =>
      map id (Analyzer.nodes r) = [alice] /\
      Analyzer.edges r = [nominates alice carol] /\
      G.edges (Analyzer.graph r) = []
  | None => False
  end.
Proof. vm_compute. repeat split. Qed.

(** C3 at two students who nominate each other: [louvain] is called on a
    directed multigraph that holds the two nominations as two directed
    edges of weight 1, not on an undirected graph with one edge of weight 2. *)
Lemma louvain_receives_directed_multigraph :
  exists g0,
    Analyzer.buildGraph [aliceNode; bobNode]
      [nominates alice bob; nominates bob alice] = Some g0 /\
    G.graphType (Analyzer.louvainInput (afterEigenvector (lib := quietLibrary) g0))
      = G.directed /\
    G.multi (Analyzer.louvainInput (afterEigenvector (lib := quietLibrary) g0)) = true /\
    G.edges (Analyzer.louvainInput (afterEigenvector (lib := quietLibrary) g0))
      = [G.mkGraphEdge alice bob friendship 1%float;
         G.mkGraphEdge bob alice friendship 1%float].
Proof.
  eexists. split; [apply buildGraph_spec|]. vm_compute. repeat split.
Qed.

(** C10 on three students without nominations: Louvain numbers them 0, 1
    and 2; the result puts Alice and Bob together in community 1. *)
Lemma first_two_communities_merge :
  match Analyzer.analyzeNetwork (lib := quietLibrary)
          [aliceNode; bobNode; carolNode] [] with
  | Some r =>
      map (fun n => (id n, community n)) (Analyzer.nodes r)
      = [(alice, Some 1%N); (bob, Some 1%N); (carol, Some 2%N)]
  | None => False
  end.
Proof. vm_compute. reflexivity. Qed.
End AnalysisExamples.

(** ** Sorting strings, and the seed of the generator *)

Lemma strLeb_total (a : jsstring) :
  forall b, Analyzer.strLeb a b = true \/ Analyzer.strLeb b a = true.
Proof.
  induction a as [|x a IH]; intros [|y b]; simpl; auto.
  destruct (x =? y) eqn:E.
  - apply Z.eqb_eq in E. subst y. rewrite Z.eqb_refl. apply IH.
  - rewrite Z.eqb_sym, E. apply Z.eqb_neq in E.
    destruct (x <? y) eqn:L; [now left | right].
    apply Z.ltb_ge in L. apply Z.ltb_lt. lia.
Qed.

Lemma strLeb_antisym (a : jsstring) :
  forall b, Analyzer.strLeb a b = true -> Analyzer.strLeb b a = true -> a = b.
Proof.
  induction a as [|x a IH]; intros [|y b]; simpl; try discriminate; auto.
  destruct (x =? y) eqn:E.
  - apply Z.eqb_eq in E. subst y. rewrite Z.eqb_refl.
    intros H1 H2. f_equal. now apply IH.
  - rewrite Z.eqb_sym, E. intros H1 H2.
    apply Z.ltb_lt in H1, H2. lia.
Qed.

Lemma strLeb_trans (a : jsstring) :
  forall b c, Analyzer.strLeb a b = true -> Analyzer.strLeb b c = true ->
              Analyzer.strLeb a c = true.
Proof.
  induction a as [|x a IH]; intros [|y b] [|z c]; simpl; try discriminate; auto.
  destruct (Z.eqb_spec x y) as [Exy | Hxy], (Z.eqb_spec y z) as [Eyz | Hyz];
    destruct (Z.eqb_spec x z) as [Exz | Hxz]; try lia;
    try (intros H1 H2; try apply Z.ltb_lt in H1; try apply Z.ltb_lt in H2;
         try apply Z.ltb_lt; lia).
  apply IH.
Qed.

Lemma strLeb_false (a b : jsstring) :
  Analyzer.strLeb a b = false -> Analyzer.strLeb b a = true.
Proof.
  intros H. destruct (strLeb_total a b) as [H' | H']; congruence.
Qed.

Lemma insertSorted_comm (x y : jsstring) (l : list jsstring) :
  Analyzer.insertSorted x (Analyzer.insertSorted y l)
  = Analyzer.insertSorted y (Analyzer.insertSorted x l).
Proof.
  induction l as [|z l IH]; simpl.
  - destruct (Analyzer.strLeb x y) eqn:Exy, (Analyzer.strLeb y x) eqn:Eyx; auto.
    + now rewrite (strLeb_antisym x y).
    + apply strLeb_false in Exy. congruence.
  - destruct (Analyzer.strLeb y z) eqn:Eyz, (Analyzer.strLeb x z) eqn:Exz; simpl.
    + destruct (Analyzer.strLeb x y) eqn:Exy, (Analyzer.strLeb y x) eqn:Eyx;
        rewrite ?Exz, ?Eyz; auto.
      * now rewrite (strLeb_antisym x y).
      * apply strLeb_false in Exy. congruence.
    + destruct (Analyzer.strLeb x y) eqn:Exy.
      * rewrite (strLeb_trans x y z) in Exz; congruence.
      * now rewrite Exz, Eyz.
    + destruct (Analyzer.strLeb y x) eqn:Eyx.
      * rewrite (strLeb_trans y x z) in Eyz; congruence.
      * now rewrite Exz, Eyz.
    + now rewrite Exz, Eyz, IH.
Qed.

(** [sort] does not see the order of its input. *)
Lemma sort_Permutation (l l' : list jsstring) :
  Permutation l l' -> Analyzer.sort l = Analyzer.sort l'.
Proof.
  induction 1 as [| x l l' _ IH | x y l | l l' l'' _ IH1 _ IH2]; simpl.
  - reflexivity.
  - now rewrite IH.
  - apply insertSorted_comm.
  - congruence.
Qed.

Section Seed.
Context {host : Host} {lib : G.Metrics}.

(** C2 (amended).  The seed of the generator is built from the sorted ids and
    the sorted edge texts, so reordering the node list and the edge list
    changes neither the seed, nor any value the generator returns, nor what
    the community stage does to a given graph.  (The graph itself is built in
    input order; what Louvain returns on it is the library's matter.) *)
Theorem seed_independent_of_input_order
  (nodes nodes' : list Node) (edges edges' : list Edge) :
  Permutation nodes nodes' ->
  Permutation edges edges' ->
  Analyzer.seedSourceOf nodes edges = Analyzer.seedSourceOf nodes' edges' /\
  (forall k,
     Analyzer.createSeededRng (Analyzer.seedSourceOf nodes edges) k
     = Analyzer.createSeededRng (Analyzer.seedSourceOf nodes' edges') k) /\
  (forall g,
     Analyzer.communityStage nodes edges g = Analyzer.communityStage nodes' edges' g).
Proof.
  intros Hn He.
  assert (E : Analyzer.seedSourceOf nodes edges = Analyzer.seedSourceOf nodes' edges').
  { unfold Analyzer.seedSourceOf.
    rewrite (sort_Permutation (map id nodes) (map id nodes'))
      by now apply Permutation_map.
    rewrite (sort_Permutation (map Analyzer.edgeText edges)
                              (map Analyzer.edgeText edges'))
      by now apply Permutation_map.
    reflexivity. }
  split; [|split].
  - exact E.
  - intros k. now rewrite E.
  - intros g. unfold Analyzer.communityStage. now rewrite E.
Qed.
End Seed.

Section SeedExamples.
#[local] Existing Instance Examples.asciiHost.
Import Examples.

(** The seed text of the Alice and Bob scenario. *)
Lemma seedSourceOf_alice_bob :
  Analyzer.seedSourceOf [bobNode; aliceNode] [nominates alice bob]
  = lit "Alice|Bob::Alice>Bob:friendship:1".
Proof. vm_compute. reflexivity. Qed.

(** A witness of C2: two students and their two nominations, in both orders. *)
Lemma seed_independent_of_input_order_witness :
  Analyzer.seedSourceOf [aliceNode; bobNode] [nominates alice bob; nominates bob alice]
  = Analyzer.seedSourceOf [bobNode; aliceNode] [nominates bob alice; nominates alice bob] /\
  (forall k,
     Analyzer.createSeededRng
       (Analyzer.seedSourceOf [aliceNode; bobNode]
          [nominates alice bob; nominates bob alice]) k
     = Analyzer.createSeededRng
         (Analyzer.seedSourceOf [bobNode; aliceNode]
            [nominates bob alice; nominates alice bob]) k) /\
  (forall g,
     Analyzer.communityStage (lib := quietLibrary) [aliceNode; bobNode]
       [nominates alice bob; nominates bob alice] g
     = Analyzer.communityStage (lib := quietLibrary) [bobNode; aliceNode]
         [nominates bob alice; nominates alice bob] g).
Proof.
  apply (seed_independent_of_input_order (lib := quietLibrary)
           [aliceNode; bobNode] [bobNode; aliceNode]
           [nominates alice bob; nominates bob alice]
           [nominates bob alice; nominates alice bob]).
  - apply perm_swap.
  - apply perm_swap.
Defined.

(** C2, as stated, fails for a library that numbers communities in the
    iteration order of the graph, as graphology does on a graph without
    edges: the same three students, listed in two orders, are partitioned
    differently, Alice with Bob in one run and Carol with Bob in the other. *)
Lemma communities_depend_on_input_order :
  Permutation [aliceNode; bobNode; carolNode] [carolNode; bobNode; aliceNode] /\
  match Analyzer.analyzeNetwork (lib := quietLibrary)
          [aliceNode; bobNode; carolNode] [],
        Analyzer.analyzeNetwork (lib := quietLibrary)
          [carolNode; bobNode; aliceNode] [] with
  | Some r, Some r' =>
      map (fun n => (id n, community n)) (Analyzer.nodes r)
      = [(alice, Some 1%N); (bob, Some 1%N); (carol, Some 2%N)] /\
      map (fun n => (id n, community n)) (Analyzer.nodes r')
      = [(carol, Some 1%N); (bob, Some 1%N); (alice, Some 2%N)]
  | _, _ => False
  end.
Proof.
  split.
  - change [carolNode; bobNode; aliceNode] with (rev [aliceNode; bobNode; carolNode]).
    apply Permutation_rev.
  - vm_compute. split; reflexivity.
Qed.
End SeedExamples.

(** ** Conversions that throw *)

Section Conversions.
Context {host : Host}.

(** [String] throws exactly on the values that are not printable. *)
Lemma ToString_None_iff : forall v, ToString v = None <-> printable v = false.
Proof.
  fix IH 1. intros v. destruct v as [| |b|x|s|items|props].
  - cbn. split; discriminate.
  - cbn. split; discriminate.
  - destruct b; cbn; split; discriminate.
  - cbn. split; discriminate.
  - cbn. split; discriminate.
  - cbn [ToString printable].
    induction items as [|i items IHi].
    + cbn. split; discriminate.
    + cbn [forallb]. rewrite andb_false_iff.
      match goal with
      | |- option_map _ (match ?h with _ => _ end) = None <-> _ =>
          assert (Hh : h = None <-> printable i = false)
      end.
      { pose proof (IH i) as Hi.
        destruct i; try exact Hi; cbn; split; discriminate. }
      match type of Hh with
      | ?h = None <-> _ => destruct h as [p|]
      end.
      * match goal with
        | |- option_map _ (match ?t with _ => _ end) = None <-> _ =>
            destruct t as [ps|] eqn:Et
        end.
        -- cbn [option_map] in *. split; [discriminate|].
           intros [H | H]; [now apply Hh in H | now apply IHi in H].
        -- cbn [option_map] in *. split; [|reflexivity].
           intros _. right. now apply IHi.
      * cbn [option_map]. split; [|reflexivity]. intros _. left. now apply Hh.
  - cbn [ToString printable].
    destruct (hasOwn props (lit "toString")); cbn; split; congruence.
Qed.

Lemma ToNumber_None_iff (v : value) : ToNumber v = None <-> printable v = false.
Proof.
  destruct v as [| |b|x|s|items|props];
    try (cbn; split; discriminate).
  - destruct b; cbn; split; discriminate.
  - unfold ToNumber. rewrite <- ToString_None_iff.
    destruct (ToString (VArray items)); cbn; split; congruence.
  - unfold ToNumber. rewrite <- ToString_None_iff.
    destruct (ToString (VObject props)); cbn; split; congruence.
Qed.

Lemma printable_nullish (v : value) (s : jsstring) :
  printable (nullish v (VString s)) = printable v.
Proof. now destruct v. Qed.

Lemma ToString_printable (v : value) :
  printable v = true -> exists s, ToString v = Some s.
Proof.
  intros H. destruct (ToString v) as [s|] eqn:E; [eauto|].
  apply ToString_None_iff in E. congruence.
Qed.

Lemma ToNumber_printable (v : value) :
  printable v = true -> exists x, ToNumber v = Some x.
Proof.
  intros H. destruct (ToNumber v) as [x|] eqn:E; [eauto|].
  apply ToNumber_None_iff in E. congruence.
Qed.
End Conversions.

(** ** The relationship normaliser, tuple by tuple *)

Section Normaliser.
Context {host : Host}.

Lemma truthy_str_false_iff (s : jsstring) : truthy_str s = false <-> s = [].
Proof. destruct s; simpl; split; congruence. Qed.

(** The callback on a tuple, in terms of the four values it reads. *)
Lemma normalizeRelationship_object (props : list (jsstring * value)) :
  Parser.normalizeRelationship (VObject props)
  = match fromText props, toText props, typeText props, weightNumber props with
    | Some f, Some t, Some ty, Some w =>
        if negb (truthy_str f) || negb (truthy_str t) || streq f t then Some None
        else Some (Some (Parser.mkCanonical f t
                           (if truthy_str ty then ty else lit "general")
                           (if positiveFinite w then w else PrimFloat.one)))
    | _, _, _, _ => None
    end.
Proof.
  unfold Parser.normalizeRelationship, fromText, toText, typeText, weightNumber,
    positiveFinite.
  cbn [truthy typeofObject negb orb field].
  destruct (ToString (nullish (getProp props (lit "from")) (VString []))) as [f|];
    [|reflexivity].
  destruct (ToString (nullish (getProp props (lit "to")) (VString []))) as [t|];
    [|reflexivity].
  destruct (ToString (nullish (getProp props (lit "type")) (VString (lit "general"))))
    as [ty|]; [|reflexivity].
  destruct (ToNumber (getProp props (lit "weight"))) as [w|]; reflexivity.
Qed.

(** The callback throws exactly on the entries that are not convertible. *)
Lemma normalizeRelationship_None_iff (rel : value) :
  Parser.normalizeRelationship rel = None <-> convertible rel = false.
Proof.
  unfold Parser.normalizeRelationship, convertible.
  destruct (negb (truthy rel) || negb (typeofObject rel)); cbn [orb];
    [split; discriminate|].
  rewrite <- (printable_nullish (field rel (lit "from")) []).
  rewrite <- (printable_nullish (field rel (lit "to")) []).
  rewrite <- (printable_nullish (field rel (lit "type")) (lit "general")).
  pose proof (ToString_None_iff (nullish (field rel (lit "from")) (VString []))) as Hf.
  pose proof (ToString_None_iff (nullish (field rel (lit "to")) (VString []))) as Ht.
  pose proof (ToString_None_iff
                (nullish (field rel (lit "type")) (VString (lit "general")))) as Hy.
  pose proof (ToNumber_None_iff (field rel (lit "weight"))) as Hw.
  destruct (ToString (nullish (field rel (lit "from")) (VString []))) as [f|].
  2:{ rewrite (proj1 Hf eq_refl). split; reflexivity. }
  destruct (printable (nullish (field rel (lit "from")) (VString [])));
    [|discriminate (proj2 Hf eq_refl)]. cbn [andb].
  destruct (ToString (nullish (field rel (lit "to")) (VString []))) as [t|].
  2:{ rewrite (proj1 Ht eq_refl). split; reflexivity. }
  destruct (printable (nullish (field rel (lit "to")) (VString [])));
    [|discriminate (proj2 Ht eq_refl)]. cbn [andb].
  destruct (ToString (nullish (field rel (lit "type")) (VString (lit "general"))))
    as [ty|].
  2:{ rewrite (proj1 Hy eq_refl). split; reflexivity. }
  destruct (printable (nullish (field rel (lit "type")) (VString (lit "general"))));
    [|discriminate (proj2 Hy eq_refl)]. cbn [andb].
  destruct (ToNumber (field rel (lit "weight"))) as [w|].
  2:{ rewrite (proj1 Hw eq_refl). split; reflexivity. }
  destruct (printable (field rel (lit "weight"))); [|discriminate (proj2 Hw eq_refl)].
  destruct (_ || _ || _); split; discriminate.
Qed.

(** What is not an object is not a tuple: it is dropped. *)
Lemma normalizeRelationship_not_object (v : value) :
  (forall props, v <> VObject props) -> Parser.normalizeRelationship v = Some None.
Proof.
  intros H. destruct v as [| |b|x|s|items|props]; try reflexivity.
  - unfold Parser.normalizeRelationship. destruct (truthy (VBool b)); reflexivity.
  - unfold Parser.normalizeRelationship. destruct (truthy (VNumber x)); reflexivity.
  - unfold Parser.normalizeRelationship. destruct (truthy (VString s)); reflexivity.
  - now destruct (H props).
Qed.

(** The list of canonical edges: the call throws when the callback throws
    on an entry, and returns the kept tuples, in order, when it does not. *)
Lemma canonicalEdgesOf_None_iff (relationships : list value) :
  Parser.canonicalEdgesOf relationships = None <->
  forallb convertible relationships = false.
Proof.
  induction relationships as [|rel rest IH]; cbn [Parser.canonicalEdgesOf forallb].
  - split; discriminate.
  - rewrite andb_false_iff, <- IH, <- normalizeRelationship_None_iff.
    destruct (Parser.normalizeRelationship rel) as [o|].
    + destruct (Parser.canonicalEdgesOf rest); split; try discriminate; auto.
      intros [H | H]; discriminate.
    + split; auto.
Qed.

Lemma canonicalEdgesOf_kept (relationships : list value) :
  forall cs, Parser.canonicalEdgesOf relationships = Some cs ->
    cs = flat_map keptOf relationships.
Proof.
  induction relationships as [|rel rest IH]; intros cs;
    cbn [Parser.canonicalEdgesOf flat_map].
  - now intros [= <-].
  - unfold keptOf at 1.
    destruct (Parser.normalizeRelationship rel) as [o|]; [|discriminate].
    destruct (Parser.canonicalEdgesOf rest) as [l|]; [|discriminate].
    intros [= <-]. rewrite <- (IH l eq_refl). now destruct o.
Qed.

(** The canonical edges are the kept tuples. *)
Lemma in_canonicalEdgesOf (relationships : list value) (cs : list Parser.CanonicalEdge)
      (e : Parser.CanonicalEdge) :
  Parser.canonicalEdgesOf relationships = Some cs ->
  (In e cs <->
   exists rel, In rel relationships /\ Parser.normalizeRelationship rel = Some (Some e)).
Proof.
  intros H. rewrite (canonicalEdgesOf_kept _ _ H), in_flat_map. unfold keptOf.
  split; intros [rel [Hin He]]; exists rel; split; auto.
  - destruct (Parser.normalizeRelationship rel) as [[e'|]|]; try contradiction.
    destruct He as [<- | []]. reflexivity.
  - rewrite He. now left.
Qed.

(** C7 (amended).  The callback throws, and the whole list with it, exactly
    when an entry is an object one of whose four members cannot be
    converted.  Otherwise the list of canonical edges holds the kept
    tuples, in the order of the response; an entry that is no object
    contributes nothing.  A tuple whose members can be
    converted is dropped exactly when its [from] or [to] is empty after
    trimming or the two trimmed names are equal; a tuple that is kept
    carries the trimmed names; its weight is the given number when that is
    finite and greater than 0, and 1 when the weight is absent, [null],
    zero, negative, infinite or [NaN]; its type is the trimmed type, or
    ["general"] when the type is absent or empty after trimming. *)
Theorem relationship_normaliser_spec
  (relationships : list value) (props : list (jsstring * value)) :
  (* the list *)
  (Parser.canonicalEdgesOf relationships = None <->
     exists rel, In rel relationships /\ convertible rel = false) /\
  (forall cs, Parser.canonicalEdgesOf relationships = Some cs ->
     cs = flat_map keptOf relationships) /\
  (* an entry that is no tuple *)
  (forall v, (forall fields, v <> VObject fields) -> keptOf v = []) /\
  (* a tuple *)
  (Parser.normalizeRelationship (VObject props) = None <->
     printable (getProp props (lit "from")) = false \/
     printable (getProp props (lit "to")) = false \/
     printable (getProp props (lit "type")) = false \/
     printable (getProp props (lit "weight")) = false) /\
  (Parser.normalizeRelationship (VObject props) <> None ->
   exists f t ty w,
     fromText props = Some f /\ toText props = Some t /\
     typeText props = Some ty /\ weightNumber props = Some w /\
     (keptOf (VObject props) = [] <-> f = [] \/ t = [] \/ f = t) /\
     (forall e, In e (keptOf (VObject props)) ->
        keptOf (VObject props) = [e] /\
        Parser.c_source e = f /\
        Parser.c_target e = t /\
        (* the weight *)
        (forall x, getProp props (lit "weight") = VNumber x ->
           positiveFinite x = true -> Parser.c_weight e = x) /\
        (forall x, getProp props (lit "weight") = VNumber x ->
           positiveFinite x = false -> Parser.c_weight e = 1%float) /\
        (getProp props (lit "weight") = VUndefined -> Parser.c_weight e = 1%float) /\
        (getProp props (lit "weight") = VNull -> Parser.c_weight e = 1%float) /\
        Parser.c_weight e = (if positiveFinite w then w else 1%float) /\
        (* the type *)
        (ty = [] -> Parser.c_type e = lit "general") /\
        (ty <> [] -> Parser.c_type e = ty) /\
        (getProp props (lit "type") = VUndefined -> Parser.c_type e = lit "general") /\
        (forall s, getProp props (lit "type") = VString s ->
           Parser.c_type e = if truthy_str (trim s) then trim s else lit "general"))).
Proof.
  split; [|split; [apply canonicalEdgesOf_kept|split; [|split]]].
  - rewrite canonicalEdgesOf_None_iff. split.
    + intros H. induction relationships as [|rel rest IH]; [discriminate|].
      cbn [forallb] in H. apply andb_false_iff in H as [H | H].
      * exists rel. split; [now left | assumption].
      * destruct (IH H) as (r & Hr & Hc). exists r. split; [now right | assumption].
    + intros (rel & Hin & Hc).
      destruct (forallb convertible relationships) eqn:E; [|reflexivity].
      rewrite forallb_forall in E. rewrite (E rel Hin) in Hc. discriminate.
  - intros v Hv. unfold keptOf.
    now rewrite (normalizeRelationship_not_object v Hv).
  - rewrite normalizeRelationship_None_iff. unfold convertible.
    cbn [truthy typeofObject negb orb field].
    rewrite !andb_false_iff. tauto.
  - rewrite normalizeRelationship_object. unfold keptOf.
    rewrite normalizeRelationship_object.
    destruct (fromText props) as [f|] eqn:Ef; [|congruence].
    destruct (toText props) as [t|] eqn:Et; [|congruence].
    destruct (typeText props) as [ty|] eqn:Ey; [|congruence].
    destruct (weightNumber props) as [w|] eqn:Ew; [|congruence].
    intros _. exists f, t, ty, w. repeat (split; [reflexivity|]).
    destruct (truthy_str f) eqn:Hf; cbn [negb orb].
    2:{ apply truthy_str_false_iff in Hf. split; [split; auto | intros e []]. }
    destruct (truthy_str t) eqn:Ht; cbn [negb orb].
    2:{ apply truthy_str_false_iff in Ht. split; [split; auto | intros e []]. }
    destruct (streq f t) eqn:Es.
    { apply streq_true_iff in Es. split; [split; auto | intros e []]. }
    apply streq_false_iff in Es. split.
    { split; [discriminate|]. intros [H | [H | H]]; try contradiction.
      - rewrite H in Hf. discriminate.
      - rewrite H in Ht. discriminate. }
    intros e [<- | []].
    cbn [Parser.c_source Parser.c_target Parser.c_type Parser.c_weight].
    split; [reflexivity|]. split; [reflexivity|]. split; [reflexivity|].
    unfold weightNumber in Ew. unfold typeText in Ey.
    split; [intros x Hx Hp; rewrite Hx in Ew; injection Ew as <-; now rewrite Hp|].
    split; [intros x Hx Hp; rewrite Hx in Ew; injection Ew as <-; now rewrite Hp|].
    split; [intros Hx; rewrite Hx in Ew; injection Ew as <-; reflexivity|].
    split; [intros Hx; rewrite Hx in Ew; injection Ew as <-; reflexivity|].
    split; [reflexivity|].
    split; [intros ->; reflexivity|].
    split; [intros Hne; destruct ty; [contradiction | reflexivity]|].
    split; [intros Hx; rewrite Hx in Ey; injection Ey as <-; reflexivity|].
    intros s0 Hs. rewrite Hs in Ey. injection Ey as <-. reflexivity.
Qed.
End Normaliser.

(** ** Merging duplicate edges *)

Lemma sumWeights_snoc (ws : list number) (w s : number) :
  sumWeights ws = Some s -> sumWeights (ws ++ [w]) = Some (s + w)%float.
Proof.
  destruct ws as [|w0 r]; simpl; [discriminate|].
  intros [= <-]. now rewrite fold_left_app.
Qed.

Lemma sumWeights_None (ws : list number) : sumWeights ws = None -> ws = [].
Proof. destruct ws; simpl; [reflexivity | discriminate]. Qed.

Section Merge.
Variable T : Type.
Variable proj : T -> option (jsstring * Edge).

Lemma merged_snoc (l : list T) (x : T) : merged proj (l ++ [x]) = mergeStep proj (merged proj l) x.
Proof. unfold merged. now rewrite fold_left_app. Qed.

Lemma weightsFor_snoc (k : jsstring) (l : list T) (x : T) :
  weightsFor proj k (l ++ [x]) = weightsFor proj k l ++ weightsFor proj k [x].
Proof. unfold weightsFor. now rewrite flat_map_app. Qed.

Lemma merged_keys_NoDup (l : list T) : NoDup (map fst (merged proj l)).
Proof.
  induction l as [|x l IH] using rev_ind; [constructor|].
  rewrite merged_snoc. unfold mergeStep.
  destruct (proj x) as [[k e0]|]; [|assumption].
  destruct (mapGet (merged proj l) k); now apply mapSet_keys_NoDup.
Qed.

(** The entry of a key holds the sum of the weights filed under it. *)
Lemma merged_weight (l : list T) (k : jsstring) :
  option_map weight (mapGet (merged proj l) k) = sumWeights (weightsFor proj k l).
Proof.
  induction l as [|x l IH] using rev_ind; [reflexivity|].
  rewrite merged_snoc, weightsFor_snoc. unfold mergeStep.
  cbn [weightsFor flat_map]. rewrite app_nil_r.
  destruct (proj x) as [[kx e0]|]; [|now rewrite app_nil_r].
  destruct (streq kx k) eqn:E.
  - apply streq_true_iff in E. subst kx.
    destruct (mapGet (merged proj l) k) as [ex|] eqn:Eg.
    + rewrite mapGet_mapSet_same. cbn [option_map weight].
      symmetry. apply sumWeights_snoc. now rewrite <- IH.
    + rewrite mapGet_mapSet_same. cbn [option_map] in *.
      symmetry in IH. apply sumWeights_None in IH. now rewrite IH.
  - apply streq_false_iff in E. rewrite app_nil_r.
    destruct (mapGet (merged proj l) kx); now rewrite mapGet_mapSet_other.
Qed.

(** The entry of a key carries the ends and the type of a raw tuple filed
    under that key. *)
Lemma merged_triple (l : list T) (k : jsstring) (e : Edge) :
  mapGet (merged proj l) k = Some e ->
  exists x e0, In x l /\ proj x = Some (k, e0) /\ triple e = triple e0.
Proof.
  revert e. induction l as [|x l IH] using rev_ind; intros e; [discriminate|].
  rewrite merged_snoc. unfold mergeStep.
  assert (Hold : forall e', mapGet (merged proj l) k = Some e' ->
            exists x' e0, In x' (l ++ [x]) /\ proj x' = Some (k, e0)
                          /\ triple e' = triple e0).
  { intros e' H. destruct (IH e' H) as (x' & e0 & Hin & Hp & Ht).
    exists x', e0. split; [apply in_or_app; now left | auto]. }
  destruct (proj x) as [[kx e0]|] eqn:Ep; [|apply Hold].
  destruct (jsstring_eq_dec kx k) as [-> | Hne].
  - destruct (mapGet (merged proj l) k) as [ex|] eqn:Eg;
      rewrite mapGet_mapSet_same; intros [= <-].
    + destruct (Hold ex eq_refl) as (x' & e1 & Hin & Hp & Ht).
      exists x', e1. auto.
    + exists x, e0. split; [apply in_or_app; right; now left | auto].
  - destruct (mapGet (merged proj l) kx); rewrite mapGet_mapSet_other by assumption;
      apply Hold.
Qed.

(** When the key is computed from the ends and the type, the merged edges
    hold every (source, target, type) at most once. *)
Variable keyOfTriple : jsstring * jsstring * jsstring -> jsstring.
Hypothesis proj_key :
  forall x k e0, proj x = Some (k, e0) -> k = keyOfTriple (triple e0).

Lemma merged_key_of_entry (l : list T) (k : jsstring) (e : Edge) :
  In (k, e) (merged proj l) -> k = keyOfTriple (triple e).
Proof.
  intros Hin. apply In_mapGet in Hin; [|apply merged_keys_NoDup].
  destruct (merged_triple l k e Hin) as (x & e0 & _ & Hp & Ht).
  rewrite Ht. eapply proj_key; eauto.
Qed.

Lemma merged_triples_NoDup (l : list T) : NoDup (map triple (map snd (merged proj l))).
Proof.
  apply (NoDup_map_inv _ _ keyOfTriple).
  rewrite !map_map.
  rewrite (map_ext_in (fun x => keyOfTriple (triple (snd x))) fst).
  - apply merged_keys_NoDup.
  - intros [k e] Hin. cbn [fst snd]. symmetry. now apply (merged_key_of_entry l).
Qed.

Lemma tripleEqb_true_iff a b : tripleEqb a b = true <-> a = b.
Proof.
  destruct a as [[a1 a2] a3], b as [[b1 b2] b3]. unfold tripleEqb. cbn [fst snd].
  rewrite !andb_true_iff, !streq_true_iff. split.
  - intros [[-> ->] ->]. reflexivity.
  - intros [= -> -> ->]. auto.
Qed.

(** When no two triples of the input share a key, every merged edge carries
    the sum of the weights of the raw tuples with its ends and type. *)
Lemma merged_weight_of_triple (l : list T) (e : Edge) :
  (forall x k e0, In x l -> proj x = Some (k, e0) ->
     keyOfTriple (triple e0) = keyOfTriple (triple e) -> triple e0 = triple e) ->
  In e (map snd (merged proj l)) ->
  sumWeights (weightsOfTriple proj (triple e) l) = Some (weight e).
Proof.
  intros Hinj Hin. apply in_map_iff in Hin as [[k e'] [E Hin]]. cbn [snd] in E. subst e'.
  pose proof (merged_key_of_entry l k e Hin) as Hk.
  apply In_mapGet in Hin; [|apply merged_keys_NoDup].
  pose proof (merged_weight l k) as Hw. rewrite Hin in Hw. cbn [option_map] in Hw.
  rewrite Hw. f_equal. unfold weightsFor, weightsOfTriple.
  clear Hw Hin. induction l as [|x l IH]; [reflexivity|].
  cbn [flat_map]. rewrite IH by (intros; eapply Hinj; eauto; now right).
  f_equal. destruct (proj x) as [[kx e0]|] eqn:Ep; [|reflexivity].
  pose proof (proj_key x kx e0 Ep) as Hkx.
  destruct (streq kx k) eqn:E1, (tripleEqb (triple e0) (triple e)) eqn:E2; auto.
  - apply streq_true_iff in E1.
    assert (Ht : triple e0 = triple e).
    { eapply Hinj; [now left | exact Ep | congruence]. }
    apply tripleEqb_true_iff in Ht. congruence.
  - apply tripleEqb_true_iff in E2. apply streq_false_iff in E1.
    exfalso. apply E1. congruence.
Qed.
End Merge.

(** ** The two merging loops *)

(** *** The oracle path: [buildEdges] *)

Lemma edgeMapStep_mergeStep nameToId m c :
  Parser.edgeMapStep nameToId m c = mergeStep (resolved nameToId) m c.
Proof.
  unfold Parser.edgeMapStep, mergeStep, resolved.
  destruct (mapGet nameToId (Parser.c_source c)) as [s|]; [|reflexivity].
  destruct (mapGet nameToId (Parser.c_target c)) as [t|]; [|reflexivity].
  destruct (negb (truthy_str s) || negb (truthy_str t) || streq s t); reflexivity.
Qed.

Lemma buildEdges_merged nameToId cs :
  Parser.buildEdges nameToId cs = map snd (merged (resolved nameToId) cs).
Proof.
  unfold Parser.buildEdges, merged. f_equal.
  generalize (@nil (jsstring * Edge)).
  induction cs as [|c cs IH]; intros m; [reflexivity|].
  cbn [fold_left]. now rewrite edgeMapStep_mergeStep, IH.
Qed.

Lemma resolved_key nameToId c k e0 :
  resolved nameToId c = Some (k, e0) -> k = oracleKey (triple e0).
Proof.
  unfold resolved.
  destruct (mapGet nameToId (Parser.c_source c)) as [s|]; [|discriminate].
  destruct (mapGet nameToId (Parser.c_target c)) as [t|]; [|discriminate].
  destruct (negb (truthy_str s) || negb (truthy_str t) || streq s t); [discriminate|].
  intros [= <- <-]. reflexivity.
Qed.

(** A string is cut in one way at the first occurrence of a character. *)
Lemma split_at_first (c : Z) (a : jsstring) :
  forall a' r r',
    ~ In c a -> ~ In c a' -> a ++ c :: r = a' ++ c :: r' -> a = a' /\ r = r'.
Proof.
  induction a as [|x a IH]; intros [|y a'] r r' Ha Ha' E; simpl in *.
  - injection E as <-. auto.
  - injection E as E1 E2. subst y. tauto.
  - injection E as E1 E2. subst x. tauto.
  - injection E as -> E2. destruct (IH a' r r') as [-> ->]; auto.
Qed.

(** Ids without a colon make the key ["s::t::type"] determine the triple. *)
Lemma edgeKey_inj (s t ty s' t' ty' : jsstring) :
  ~ In 58 s -> ~ In 58 t -> ~ In 58 s' -> ~ In 58 t' ->
  Parser.edgeKey s t ty = Parser.edgeKey s' t' ty' -> s = s' /\ t = t' /\ ty = ty'.
Proof.
  unfold Parser.edgeKey. change (lit "::") with [58; 58]. cbn [app].
  intros Hs Ht Hs' Ht' E.
  apply split_at_first in E as [-> E]; auto.
  injection E as E.
  apply split_at_first in E as [-> E]; auto.
  injection E as ->. auto.
Qed.

(** With ids free of colons, the weight of every edge of [buildEdges] is
    the sum of the weights of the canonical edges that resolve to its
    source, target and type. *)
Lemma buildEdges_weight_sum
      (nameToId : list (jsstring * jsstring)) (cs : list Parser.CanonicalEdge) :
  colonFree nameToId ->
  forall e, In e (Parser.buildEdges nameToId cs) ->
    sumWeights (weightsOfTriple (resolved nameToId) (triple e) cs) = Some (weight e).
Proof.
  intros Hfree. rewrite buildEdges_merged. intros e He.
  apply (merged_weight_of_triple _ _ oracleKey); [apply resolved_key | | exact He].
  intros c k e0 _ Hc Hk.
  assert (Hids : forall c' k' e', resolved nameToId c' = Some (k', e') ->
                   ~ In 58 (source e') /\ ~ In 58 (target e')).
  { intros c' k' e'. unfold resolved.
    destruct (mapGet nameToId (Parser.c_source c')) as [s|] eqn:Es; [|discriminate].
    destruct (mapGet nameToId (Parser.c_target c')) as [t|] eqn:Et; [|discriminate].
    destruct (negb (truthy_str s) || negb (truthy_str t) || streq s t);
      [discriminate|].
    intros [= <- <-]. cbn [source target]. split; eapply Hfree; eauto. }
  apply in_map_iff in He as [[k1 e1] [E1 Hin1]]. cbn [snd] in E1. subst e1.
  apply In_mapGet in Hin1; [|apply merged_keys_NoDup].
  destruct (merged_triple _ _ _ _ _ Hin1) as (c1 & e1 & _ & Hc1 & Ht1).
  destruct (Hids _ _ _ Hc) as [H0s H0t].
  destruct (Hids _ _ _ Hc1) as [H1s H1t].
  rewrite Ht1 in *. unfold oracleKey, triple in *. cbn [fst snd] in *.
  apply edgeKey_inj in Hk as (-> & -> & ->); auto.
Qed.

(** X1 (the oracle path of C6).  [buildEdges] returns at most one edge for every
    (source, target, type), and, the ids being free of colons, the weight of
    that edge is the sum of the weights of the canonical edges that resolve
    to its source, target and type. *)
Theorem buildEdges_merges_by_triple
  (nameToId : list (jsstring * jsstring)) (cs : list Parser.CanonicalEdge) :
  colonFree nameToId ->
  NoDup (map triple (Parser.buildEdges nameToId cs)) /\
  forall e, In e (Parser.buildEdges nameToId cs) ->
    sumWeights (weightsOfTriple (resolved nameToId) (triple e) cs) = Some (weight e).
Proof.
  intros Hfree. split.
  - rewrite buildEdges_merged.
    apply (merged_triples_NoDup _ _ oracleKey). apply resolved_key.
  - now apply buildEdges_weight_sum.
Qed.

(** *** The CSV path: [mergeCsvEdges] *)

Lemma mergeCsvEdges_merged rawEdges :
  Parser.mergeCsvEdges rawEdges = map snd (merged csvFiled rawEdges).
Proof. reflexivity. Qed.

(** X3.  The CSV loop keeps one edge for every (source, target, type) as well, and
    the weight of an edge is the sum of the weights of the raw edges filed
    under its key. *)
Lemma mergeCsvEdges_by_key (rawEdges : list Edge) :
  NoDup (map triple (Parser.mergeCsvEdges rawEdges)) /\
  forall e, In e (Parser.mergeCsvEdges rawEdges) ->
    sumWeights (weightsFor csvFiled (Parser.csvKey e) rawEdges) = Some (weight e).
Proof.
  rewrite mergeCsvEdges_merged. split.
  - apply (merged_triples_NoDup _ _ csvKeyOfTriple).
    intros x k e0 [= <- <-]. reflexivity.
  - intros e He. apply in_map_iff in He as [[k e'] [E Hin]]. cbn [snd] in E. subst e'.
    assert (Hk : k = Parser.csvKey e).
    { apply (merged_key_of_entry _ csvFiled csvKeyOfTriple) in Hin; [exact Hin|].
      intros x k' e0 [= <- <-]. reflexivity. }
    subst k. apply In_mapGet in Hin; [|apply merged_keys_NoDup].
    rewrite <- merged_weight, Hin. reflexivity.
Qed.

Section MergeExamples.
Import Examples.

(** The example of C6 on both paths: the tuple (A, B, "friendship", 1) given
    twice yields the one edge (A, B, "friendship") with weight 2. *)
Lemma duplicate_tuples_sum :
  Parser.buildEdges twoStudents [aliceToBob; aliceToBob]
    = [mkEdge idA idB friendship 2%float] /\
  Parser.mergeCsvEdges [mkEdge alice bob friendship 1%float;
                        mkEdge alice bob friendship 1%float]
    = [mkEdge alice bob friendship 2%float].
Proof. vm_compute. split; reflexivity. Qed.

Lemma colonFree_twoStudents : colonFree twoStudents.
Proof.
  intros n i. unfold twoStudents. cbn [mapGet].
  destruct (streq alice n); [intros [= <-]; vm_compute; intuition discriminate|].
  destruct (streq bob n); [intros [= <-]; vm_compute; intuition discriminate|].
  discriminate.
Qed.

Lemma buildEdges_merges_by_triple_witness :
  NoDup (map triple (Parser.buildEdges twoStudents [aliceToBob; aliceToBob])) /\
  forall e, In e (Parser.buildEdges twoStudents [aliceToBob; aliceToBob]) ->
    sumWeights (weightsOfTriple (resolved twoStudents) (triple e)
                  [aliceToBob; aliceToBob]) = Some (weight e).
Proof.
  apply (buildEdges_merges_by_triple twoStudents [aliceToBob; aliceToBob]).
  exact colonFree_twoStudents.
Defined.

(** C6 on the CSV path, at names with hyphens.  Ann-Marie names Lee twice and
    Ann names Marie-Lee once: the two triples share the key
    ["Ann-Marie-Lee-friendship"], the loop keeps the single edge
    (Ann-Marie, Lee) with weight 3, and the nomination of Marie-Lee is gone. *)
Lemma csv_key_conflates_triples :
  Parser.csvKey (mkEdge (lit "Ann-Marie") (lit "Lee") friendship 1%float)
    = Parser.csvKey (mkEdge (lit "Ann") (lit "Marie-Lee") friendship 1%float) /\
  Parser.mergeCsvEdges
    [mkEdge (lit "Ann-Marie") (lit "Lee") friendship 1%float;
     mkEdge (lit "Ann-Marie") (lit "Lee") friendship 1%float;
     mkEdge (lit "Ann") (lit "Marie-Lee") friendship 1%float]
  = [mkEdge (lit "Ann-Marie") (lit "Lee") friendship 3%float].
Proof. vm_compute. split; reflexivity. Qed.
End MergeExamples.

(** ** Where new ids come from *)

Section NewIds.
Context {host : Host}.

(** In [resolveStudentIds] a name without a previous node, alone in its
    batch, gets the hash of its own code units. *)
Lemma resolveStudentIds_fresh_name (n : jsstring) :
  Dashboard.resolveStudentIds [n] None = [(n, Dashboard.buildStableStudentId n)].
Proof. reflexivity. Qed.

(** The state of the minting loop of [processWithGemini] after a list of
    distinct names: one node for every name, in order, node [k] carrying the
    [k]-th UUID of the run, and the same pairs in [nameToId]. *)
Lemma mintNodes_state (randomUUID : nat -> jsstring) (names : list jsstring) :
  NoDup names ->
  map name (fst (Parser.mintNodes randomUUID names)) = names /\
  snd (Parser.mintNodes randomUUID names)
  = map (fun nd => (name nd, id nd)) (fst (Parser.mintNodes randomUUID names)) /\
  map id (fst (Parser.mintNodes randomUUID names))
  = map (fun k => lit "STU_" ++ randomUUID k) (seq 0 (length names)).
Proof.
  unfold Parser.mintNodes.
  induction names as [|n names IH] using rev_ind; intros Hnd;
    [repeat split; reflexivity|].
  apply NoDup_app_remove_r in Hnd as Hnd0. destruct (IH Hnd0) as (Hn & Hs & Hi).
  rewrite fold_left_app. cbn [fold_left].
  set (st := fold_left (Parser.mintStep randomUUID) names ([], [])) in *.
  unfold Parser.mintStep. cbn [fst snd].
  assert (Hlen : length (fst st) = length names)
    by now rewrite <- Hn, length_map.
  rewrite !map_app. cbn [map name id freshNode]. rewrite Hn, Hi, Hlen.
  repeat split.
  - rewrite mapSet_fresh; [now rewrite Hs|].
    apply mapGet_None_notin.
    replace (map fst (snd st)) with names
      by (rewrite Hs, map_map; cbn [fst]; symmetry; exact Hn).
    apply NoDup_remove_2 in Hnd. now rewrite app_nil_r in Hnd.
  - rewrite length_app, Nat.add_1_r, seq_S, map_app. reflexivity.
Qed.

(** X2.  The flow of the application: the upload mints the ids with
    [processWithGemini], the precision run resolves the names again with the
    nodes of the upload as previous nodes.  With one name per key and UUIDs
    that do not repeat, every name keeps the id minted for it. *)
Lemma rerun_keeps_minted_ids (randomUUID : nat -> jsstring) (names : list jsstring) :
  NoDup (map Dashboard.normalizeStudentNameKey names) ->
  (forall i j, randomUUID i = randomUUID j -> i = j) ->
  forall n, In n names ->
    exists i,
      mapGet (snd (Parser.mintNodes randomUUID names)) n = Some i /\
      mapGet (Dashboard.resolveStudentIds names
                (Some (fst (Parser.mintNodes randomUUID names)))) n = Some i.
Proof.
  intros Hk Hinj n Hn.
  pose proof (NoDup_map_inv _ _ _ _ Hk) as Hnd.
  destruct (mintNodes_state randomUUID names Hnd) as (Hnames & Hs & Hids).
  set (nodes := fst (Parser.mintNodes randomUUID names)) in *.
  set (P := map (fun nd => (Dashboard.normalizeStudentNameKey (name nd), id nd)) nodes).
  assert (HP : Dashboard.previousIdByName (Some nodes) = P).
  { apply previousIdByName_distinct.
    rewrite <- (map_map name Dashboard.normalizeStudentNameKey), Hnames. exact Hk. }
  assert (HPfst : map fst P = map Dashboard.normalizeStudentNameKey names).
  { unfold P. rewrite map_map. cbn [fst].
    now rewrite <- (map_map name Dashboard.normalizeStudentNameKey), Hnames. }
  assert (HPsnd : map snd P = map id nodes).
  { unfold P. rewrite map_map. reflexivity. }
  unfold Dashboard.resolveStudentIds. rewrite HP, resolve_reuses.
  - cbn [snd].
    assert (Hin : In n (map name nodes)) by now rewrite Hnames.
    apply in_map_iff in Hin as [nd [En Hnd']]. subst n.
    exists (id nd). split.
    + rewrite Hs. apply In_mapGet.
      * rewrite map_map. cbn [fst].
        replace (map (fun x => name x) nodes) with names
          by (symmetry; exact Hnames).
        exact Hnd.
      * apply in_map_iff. now exists nd.
    + apply In_mapGet.
      * rewrite map_map. cbn [fst]. now rewrite map_id.
      * apply in_map_iff. exists (name nd). split; [|now rewrite <- Hnames; apply in_map].
        f_equal. unfold previousId.
        erewrite In_mapGet; [reflexivity | now rewrite HPfst |].
        unfold P. apply in_map_iff. now exists nd.
  - rewrite HPsnd, Hids. apply NoDup_map_injective; [|apply seq_NoDup].
    intros a b E. apply app_inv_head in E. now apply Hinj.
  - rewrite HPsnd, Hids. apply Forall_forall. intros x Hx.
    apply in_map_iff in Hx as [k [<- _]]. reflexivity.
  - exact Hk.
  - intros m Hm. rewrite HPfst. now apply in_map.
Qed.
End NewIds.

Lemma countingUUID_inj (i j : nat) :
  Examples.countingUUID i = Examples.countingUUID j -> i = j.
Proof.
  unfold Examples.countingUUID. intros E.
  apply intToString_inj in E; lia.
Qed.

(** A witness of X2: Alice and Bob, uploaded and resolved again. *)
Lemma rerun_keeps_minted_ids_witness :
  exists i,
    mapGet (snd (Parser.mintNodes Examples.countingUUID [Examples.alice; Examples.bob]))
           Examples.bob = Some i /\
    mapGet (Dashboard.resolveStudentIds (host := Examples.asciiHost)
              [Examples.alice; Examples.bob]
              (Some (fst (Parser.mintNodes Examples.countingUUID
                            [Examples.alice; Examples.bob])))) Examples.bob
    = Some i.
Proof.
  apply (rerun_keeps_minted_ids (host := Examples.asciiHost)
           Examples.countingUUID [Examples.alice; Examples.bob]).
  - apply distinctb_NoDup. vm_compute. reflexivity.
  - exact countingUUID_inj.
  - simpl. right. left. reflexivity.
Defined.

(** Two names with one hash: the second gets the suffix [_2]. *)
Lemma hash_collision_gets_suffix :
  Dashboard.resolveStudentIds (host := Examples.asciiHost)
    [Examples.grinning; Examples.beaming] None
  = [(Examples.grinning, lit "STU_fegh9k"); (Examples.beaming, lit "STU_fegh9k_2")].
Proof. vm_compute. reflexivity. Qed.

(** A witness of X5: the two colliding names. *)
Lemma resolveStudentIds_distinct_ids_witness :
  map fst (Dashboard.resolveStudentIds (host := Examples.asciiHost)
             [Examples.grinning; Examples.beaming] None)
    = [Examples.grinning; Examples.beaming] /\
  NoDup (map snd (Dashboard.resolveStudentIds (host := Examples.asciiHost)
                    [Examples.grinning; Examples.beaming] None)) /\
  Forall (fun i => truthy_str i = true)
         (map snd (Dashboard.resolveStudentIds (host := Examples.asciiHost)
                     [Examples.grinning; Examples.beaming] None)).
Proof.
  apply (resolveStudentIds_distinct_ids (host := Examples.asciiHost)
           [Examples.grinning; Examples.beaming] None).
  apply distinctb_NoDup. vm_compute. reflexivity.
Defined.

(** Why the second call of C1 must bring no new name: a new name whose hash
    is the id of a previous node takes that id when it comes first, and the
    known name is pushed to the suffix [_2]. *)
Lemma new_name_can_take_a_previous_id :
  Dashboard.resolveStudentIds (host := Examples.asciiHost) [Examples.beaming] None
  = [(Examples.beaming, lit "STU_fegh9k")] /\
  Dashboard.resolveStudentIds (host := Examples.asciiHost)
    [Examples.grinning; Examples.beaming]
    (Some (Dashboard.nodesOf
             (Dashboard.resolveStudentIds (host := Examples.asciiHost)
                [Examples.beaming] None)
             [Examples.beaming]))
  = [(Examples.grinning, lit "STU_fegh9k"); (Examples.beaming, lit "STU_fegh9k_2")].
Proof. vm_compute. split; reflexivity. Qed.

(** ** No kept tuple is lost on the way to the edge list *)

Lemma merged_has_key (T : Type) (proj : T -> option (jsstring * Edge))
      (l : list T) (x : T) (k : jsstring) (e0 : Edge) :
  In x l -> proj x = Some (k, e0) -> exists e, In (k, e) (merged proj l).
Proof.
  intros Hin Hp.
  destruct (mapGet (merged proj l) k) as [e|] eqn:E.
  - exists e. now apply mapGet_In.
  - exfalso. pose proof (merged_weight T proj l k) as Hw.
    rewrite E in Hw. cbn [option_map] in Hw. symmetry in Hw.
    apply sumWeights_None in Hw.
    assert (Hin' : In (weight e0) (weightsFor proj k l)).
    { unfold weightsFor. apply in_flat_map. exists x. split; [assumption|].
      rewrite Hp, streq_refl. now left. }
    rewrite Hw in Hin'. contradiction.
Qed.

Lemma mapGet_of_key (V : Type) (m : list (jsstring * V)) (k : jsstring) :
  In k (map fst m) -> exists v, mapGet m k = Some v.
Proof.
  intros Hin. destruct (mapGet m k) as [v|] eqn:E; [now exists v|].
  apply mapGet_None_notin in E. contradiction.
Qed.

(** A table with one id per name, the ids distinct and not empty, files
    every canonical edge whose two names it knows and which are different. *)
Lemma resolved_some (nameToId : list (jsstring * jsstring)) (c : Parser.CanonicalEdge) :
  NoDup (map snd nameToId) ->
  Forall (fun i => truthy_str i = true) (map snd nameToId) ->
  In (Parser.c_source c) (map fst nameToId) ->
  In (Parser.c_target c) (map fst nameToId) ->
  Parser.c_source c <> Parser.c_target c ->
  exists s t,
    mapGet nameToId (Parser.c_source c) = Some s /\
    mapGet nameToId (Parser.c_target c) = Some t /\
    s <> t /\
    resolved nameToId c
    = Some (Parser.edgeKey s t (Parser.c_type c),
            mkEdge s t (Parser.c_type c) (Parser.c_weight c)).
Proof.
  intros Hnd Htr Hs Ht Hne.
  destruct (mapGet_of_key _ _ _ Hs) as [s Es].
  destruct (mapGet_of_key _ _ _ Ht) as [t Et].
  exists s, t. split; [assumption|]. split; [assumption|].
  pose proof (mapGet_In _ _ _ _ Es) as Is.
  pose proof (mapGet_In _ _ _ _ Et) as It.
  assert (Hst : s <> t).
  { intros ->. apply Hne.
    assert (E : (Parser.c_source c, t) = (Parser.c_target c, t))
      by (apply (NoDup_map_inj_on _ _ snd nameToId); auto).
    congruence. }
  split; [assumption|].
  unfold resolved. rewrite Es, Et.
  rewrite Forall_forall in Htr.
  rewrite (Htr s (in_map snd _ _ Is)), (Htr t (in_map snd _ _ It)).
  apply streq_false_iff in Hst. now rewrite Hst.
Qed.

Section Pipeline.
Context {host : Host}.

Lemma canonicalEdge_ends (rel : value) (c : Parser.CanonicalEdge) :
  Parser.normalizeRelationship rel = Some (Some c) ->
  Parser.c_source c <> Parser.c_target c.
Proof.
  unfold Parser.normalizeRelationship.
  destruct (negb (truthy rel) || negb (typeofObject rel)); [discriminate|].
  destruct (ToString (nullish (field rel (lit "from")) (VString []))) as [f|];
    [|discriminate].
  destruct (ToString (nullish (field rel (lit "to")) (VString []))) as [t|];
    [|discriminate].
  destruct (ToString (nullish (field rel (lit "type")) (VString (lit "general"))))
    as [ty|]; [|discriminate].
  destruct (ToNumber (field rel (lit "weight"))) as [w|]; [|discriminate].
  destruct (truthy_str (trim f)); cbn [negb orb]; [|discriminate].
  destruct (truthy_str (trim t)); cbn [negb orb]; [|discriminate].
  destruct (streq (trim f) (trim t)) eqn:E; [discriminate|].
  intros [= <-]. cbn [Parser.c_source Parser.c_target].
  now apply streq_false_iff.
Qed.

Lemma addEndpoints_fold (cs : list Parser.CanonicalEdge) :
  forall set,
    NoDup set ->
    NoDup (fold_left Parser.addEndpoints cs set) /\
    (forall x, In x set -> In x (fold_left Parser.addEndpoints cs set)) /\
    (forall c, In c cs ->
       In (Parser.c_source c) (fold_left Parser.addEndpoints cs set) /\
       In (Parser.c_target c) (fold_left Parser.addEndpoints cs set)).
Proof.
  induction cs as [|c0 cs IH]; intros set Hnd; cbn [fold_left].
  - split; [assumption|]. split; [auto|]. intros c [].
  - assert (Hnd' : NoDup (Parser.addEndpoints set c0))
      by (unfold Parser.addEndpoints; auto using NoDup_setAdd).
    destruct (IH _ Hnd') as (H1 & H2 & H3).
    split; [assumption|]. split.
    + intros x Hx. apply H2. unfold Parser.addEndpoints.
      apply In_setAdd. left. apply In_setAdd. now left.
    + intros c [<- | Hc]; [|now apply H3].
      split; apply H2; unfold Parser.addEndpoints.
      * apply In_setAdd. left. apply In_setAdd. now right.
      * apply In_setAdd. now right.
Qed.

Lemma addStudent_fold (students : list value) :
  forall set set', NoDup set -> Parser.addStudents students set = Some set' -> NoDup set'.
Proof.
  induction students as [|v students IH]; intros set set' Hnd;
    cbn [Parser.addStudents].
  - now intros [= <-].
  - unfold Parser.addStudent.
    destruct (ToString (nullish v (VString []))) as [text|]; [|discriminate].
    apply IH. destruct (truthy_str _); auto using NoDup_setAdd.
Qed.

(** The loop over the students throws exactly when one of them is not
    printable. *)
Lemma addStudents_None_iff (students : list value) :
  forall set, Parser.addStudents students set = None <->
              forallb printable students = false.
Proof.
  induction students as [|v students IH]; intros set;
    cbn [Parser.addStudents forallb].
  - split; discriminate.
  - unfold Parser.addStudent. rewrite andb_false_iff.
    rewrite <- (printable_nullish v []), <- ToString_None_iff.
    destruct (ToString (nullish v (VString []))) as [text|].
    + rewrite IH. split; [auto|]. intros [H | H]; [discriminate | assumption].
    + split; auto.
Qed.

Lemma canonicalNameSet_None_iff (students : list value) (cs : list Parser.CanonicalEdge) :
  Parser.canonicalNameSet students cs = None <-> forallb printable students = false.
Proof.
  unfold Parser.canonicalNameSet. rewrite <- (addStudents_None_iff students []).
  destruct (Parser.addStudents students []); split; congruence.
Qed.

(** The set of canonical names has no repetition and holds both names of
    every canonical edge. *)
Lemma canonicalNameSet_spec (students : list value) (cs : list Parser.CanonicalEdge)
      (names : list jsstring) :
  Parser.canonicalNameSet students cs = Some names ->
  NoDup names /\
  forall c, In c cs -> In (Parser.c_source c) names /\ In (Parser.c_target c) names.
Proof.
  unfold Parser.canonicalNameSet.
  destruct (Parser.addStudents students []) as [set|] eqn:E; [|discriminate].
  intros [= <-].
  destruct (addEndpoints_fold cs set) as (H1 & _ & H3).
  - apply (addStudent_fold students [] set); [constructor | assumption].
  - auto.
Qed.

(** X6.  On the precision path, a tuple that the normaliser keeps is never
    lost afterwards: its two names have distinct ids, and the edge list
    holds an edge filed under the key of those ids and of its type.  (The
    two equations say that the loops over the response return, with the
    canonical edges [cs] and the canonical names [names].) *)
Theorem kept_tuple_becomes_an_edge
  (students relationships : list value) (previous : option (list Node))
  (cs : list Parser.CanonicalEdge) (names : list jsstring)
  (c : Parser.CanonicalEdge) :
  Parser.canonicalEdgesOf relationships = Some cs ->
  Parser.canonicalNameSet students cs = Some names ->
  In c cs ->
  exists s t e,
    mapGet (Dashboard.resolveStudentIds names previous) (Parser.c_source c) = Some s /\
    mapGet (Dashboard.resolveStudentIds names previous) (Parser.c_target c) = Some t /\
    s <> t /\
    In e (Parser.buildEdges (Dashboard.resolveStudentIds names previous) cs) /\
    Parser.edgeKey (source e) (target e) (type e)
    = Parser.edgeKey s t (Parser.c_type c).
Proof.
  intros Hcs Hnames Hc.
  destruct (canonicalNameSet_spec students cs names Hnames) as [Hnd Hends].
  destruct (Hends c Hc) as [Hs Ht].
  pose proof (resolve_state (Dashboard.previousIdByName previous) names Hnd)
    as (Hkeys & Hused & Hvals & Htr).
  rewrite <- Hused in Hvals, Htr. clear Hused.
  change (snd (fold_left (Dashboard.resolveStep (Dashboard.previousIdByName previous))
                 names ([], [])))
    with (Dashboard.resolveStudentIds names previous) in *.
  set (m := Dashboard.resolveStudentIds names previous) in *.
  assert (Hne : Parser.c_source c <> Parser.c_target c).
  { apply (in_canonicalEdgesOf _ _ _ Hcs) in Hc as [rel [_ Hrel]].
    now apply (canonicalEdge_ends rel). }
  rewrite <- Hkeys in Hs, Ht.
  destruct (resolved_some m c Hvals Htr Hs Ht Hne) as (s & t & Es & Et & Hst & Hr).
  destruct (merged_has_key _ (resolved m) cs c _ _ Hc Hr) as [e He].
  exists s, t, e. repeat split; auto.
  - rewrite buildEdges_merged. apply in_map_iff. now exists (Parser.edgeKey s t (Parser.c_type c), e).
  - symmetry. apply (merged_key_of_entry _ (resolved m) oracleKey (resolved_key m) cs).
    exact He.
Qed.
End Pipeline.

Section PipelineExamples.
#[local] Existing Instance Examples.asciiHost.

(** A witness of X6: Alice names Bob; nobody lists the students. *)
Lemma kept_tuple_becomes_an_edge_witness :
  exists s t e,
    mapGet (Dashboard.resolveStudentIds [Examples.alice; Examples.bob] None)
           Examples.alice = Some s /\
    mapGet (Dashboard.resolveStudentIds [Examples.alice; Examples.bob] None)
           Examples.bob = Some t /\
    s <> t /\
    In e (Parser.buildEdges
            (Dashboard.resolveStudentIds [Examples.alice; Examples.bob] None)
            [Parser.mkCanonical Examples.alice Examples.bob (lit "general") 1%float]) /\
    Parser.edgeKey (source e) (target e) (type e)
    = Parser.edgeKey s t (lit "general").
Proof.
  apply (kept_tuple_becomes_an_edge []
           [VObject [(lit "from", VString (lit " Alice"));
                     (lit "to", VString (lit "Bob"))]]
           None
           [Parser.mkCanonical Examples.alice Examples.bob (lit "general") 1%float]
           [Examples.alice; Examples.bob]
           (Parser.mkCanonical Examples.alice Examples.bob (lit "general") 1%float)).
  - vm_compute. reflexivity.
  - vm_compute. reflexivity.
  - left. reflexivity.
Defined.

(** C7 on a response of the oracle: trimmed names, defaults for the type and
    for a weight that is absent, negative or infinite, and the dropped
    entries (equal names after trimming, an empty name, [null], a string). *)
Lemma canonicalEdgesOf_examples :
  Parser.canonicalEdgesOf
    [VObject [(lit "from", VString (lit " Alice ")); (lit "to", VString (lit "Bob"));
              (lit "type", VString (lit "  ")); (lit "weight", VNumber (-2)%float)];
     VObject [(lit "from", VString (lit "Alice")); (lit "to", VString (lit " Alice"))];
     VObject [(lit "from", VString []); (lit "to", VString (lit "Bob"))];
     VNull;
     VString (lit "Alice likes Bob");
     VObject [(lit "from", VString (lit "Bob")); (lit "to", VString (lit "Carol"));
              (lit "type", VString (lit "help")); (lit "weight", VNumber 2.5%float)];
     VObject [(lit "from", VString (lit "Carol")); (lit "to", VString (lit "Alice"));
              (lit "weight", VNumber infinity)];
     VObject [(lit "from", VString (lit "Carol")); (lit "to", VString (lit "Bob"));
              (lit "type", VNull)]]
  = Some [Parser.mkCanonical (lit "Alice") (lit "Bob") (lit "general") 1%float;
          Parser.mkCanonical (lit "Bob") (lit "Carol") (lit "help") 2.5%float;
          Parser.mkCanonical (lit "Carol") (lit "Alice") (lit "general") 1%float;
          Parser.mkCanonical (lit "Carol") (lit "Bob") (lit "general") 1%float].
Proof. vm_compute. reflexivity. Qed.

(** A tuple whose [from] is an object with a member [toString] is not
    dropped: [String] throws on it, and the call ends with the exception,
    whatever the other tuples are. *)
Lemma unconvertible_tuple_ends_the_call :
  Parser.normalizeRelationship Examples.badTuple = None /\
  keptOf Examples.badTuple = [] /\
  Parser.canonicalEdgesOf [Examples.goodTuple] =
    Some [Parser.mkCanonical (lit "Alice") (lit "Bob") (lit "general") 1%float] /\
  Parser.canonicalEdgesOf [Examples.goodTuple; Examples.badTuple] = None /\
  Parser.processWithGemini Examples.countingUUID
    (Examples.body [] [Examples.goodTuple; Examples.badTuple]) = None.
Proof. vm_compute. repeat split. Qed.
End PipelineExamples.

(** ** The names of the exported workbook *)

Lemma trimStart_suffix (s : jsstring) : exists p, s = p ++ trimStart s.
Proof.
  induction s as [|c s [p IH]]; [now exists []|].
  cbn [trimStart]. destruct (isWhiteSpace c).
  - exists (c :: p). cbn. now rewrite <- IH.
  - now exists [].
Qed.

Lemma Forall_trimStart (P : Z -> Prop) (s : jsstring) :
  Forall P s -> Forall P (trimStart s).
Proof.
  intros H. destruct (trimStart_suffix s) as [p E]. rewrite E in H.
  now apply Forall_app in H.
Qed.

Lemma Forall_trim (P : Z -> Prop) (s : jsstring) : Forall P s -> Forall P (trim s).
Proof.
  intros H. unfold trim, trimEnd.
  apply Forall_rev, Forall_trimStart, Forall_rev, Forall_trimStart, H.
Qed.

Lemma trimStart_no_space (s : jsstring) :
  Forall (fun c => isWhiteSpace c = false) s -> trimStart s = s.
Proof.
  destruct s as [|c s]; [reflexivity|]. intros H. inversion H as [|? ? Hc _]; subst.
  cbn [trimStart]. now rewrite Hc.
Qed.

Lemma trim_no_space (s : jsstring) :
  Forall (fun c => isWhiteSpace c = false) s -> trim s = s.
Proof.
  intros H. unfold trim, trimEnd. rewrite (trimStart_no_space s H).
  rewrite trimStart_no_space by now apply Forall_rev.
  apply rev_involutive.
Qed.

Lemma fileNameChar_no_space (c : Z) :
  Excel.isFileNameChar c = true -> isWhiteSpace c = false.
Proof.
  unfold Excel.isFileNameChar, isWhiteSpace. intros H.
  repeat match goal with
    | H : (_ || _)%bool = true |- _ => apply orb_true_iff in H as [H | H]
    | H : (_ && _)%bool = true |- _ => apply andb_true_iff in H as [? ?]
    | H : (_ <=? _) = true |- _ => apply Z.leb_le in H
    | H : (_ =? _) = true |- _ => apply Z.eqb_eq in H
    end;
    repeat match goal with
      | |- (_ || _)%bool = false => apply orb_false_iff; split
      | |- (_ && _)%bool = false => apply andb_false_iff
      | |- (_ =? _) = false => apply Z.eqb_neq; lia
      end;
    try (left; apply Z.leb_gt; lia); try (right; apply Z.leb_gt; lia).
Qed.

Lemma filter_all (A : Type) (p : A -> bool) (l : list A) :
  Forall (fun x => p x = true) l -> filter p l = l.
Proof.
  induction 1 as [|x l Hx _ IH]; [reflexivity|]. cbn. now rewrite Hx, IH.
Qed.

Lemma Forall_filter_true (A : Type) (p : A -> bool) (l : list A) :
  Forall (fun x => p x = true) (filter p l).
Proof. apply Forall_forall. intros x Hx. now apply filter_In in Hx. Qed.

Lemma endsWith_app (s suffix : jsstring) : Excel.endsWith (s ++ suffix) suffix = true.
Proof.
  unfold Excel.endsWith. rewrite length_app.
  apply andb_true_iff. split; [apply Nat.leb_le; lia|].
  replace (length s + length suffix - length suffix)%nat with (length s) by lia.
  rewrite skipn_app, skipn_all, Nat.sub_diag. cbn. apply streq_refl.
Qed.

Lemma cleanFileName_safe (fileName : jsstring) : safeFileName (Excel.cleanFileName fileName).
Proof.
  unfold safeFileName, Excel.cleanFileName.
  set (cleaned := trim (filter Excel.isFileNameChar fileName)).
  assert (Hsafe : Forall (fun c => Excel.isFileNameChar c = true) cleaned)
    by apply Forall_trim, Forall_filter_true.
  destruct cleaned as [|c r] eqn:E; cbn [truthy_str negb].
  - split; [discriminate|]. split; [reflexivity|].
    vm_compute. repeat constructor.
  - destruct (Excel.endsWith (c :: r) (lit ".xlsx")) eqn:Ee.
    + split; [discriminate|]. split; assumption.
    + split; [discriminate|]. split; [apply endsWith_app|].
      apply Forall_app. split; [assumption|]. vm_compute. repeat constructor.
Qed.

Lemma fallbackFileName_safe : safeFileName Excel.fallbackFileName.
Proof.
  split; [discriminate|]. split; [reflexivity|]. vm_compute. repeat constructor.
Qed.

(** X7.  Whatever name is asked for, in the browser or in the route, with or
    without a name in the request, the name of the downloaded file is not
    empty, ends with [.xlsx], and is made of letters, digits, dots,
    underscores and hyphens only: no path separator, quote, space or control
    character passes. *)
Theorem download_file_name_safe :
  (forall fileName, safeFileName (Excel.sanitizeClientFileName fileName)) /\
  (forall requested, safeFileName (Excel.sanitizeDownloadFileName requested)).
Proof.
  split.
  - intros fileName. apply cleanFileName_safe.
  - intros [f|]; [|apply fallbackFileName_safe].
    unfold Excel.sanitizeDownloadFileName.
    destruct (negb (truthy_str f));
      [apply fallbackFileName_safe | apply cleanFileName_safe].
Qed.

(** X8.  The server leaves the name that the client sanitised as it is:
    sanitising is idempotent, across [sanitizeClientFileName] in the browser
    and [sanitizeDownloadFileName] in the route. *)
Theorem sanitizeDownloadFileName_of_client (fileName : jsstring) :
  Excel.sanitizeDownloadFileName (Some (Excel.sanitizeClientFileName fileName))
  = Excel.sanitizeClientFileName fileName /\
  Excel.sanitizeClientFileName (Excel.sanitizeClientFileName fileName)
  = Excel.sanitizeClientFileName fileName.
Proof.
  unfold Excel.sanitizeClientFileName.
  destruct (cleanFileName_safe fileName) as (Hne & Hends & Hsafe).
  set (r := Excel.cleanFileName fileName) in *.
  assert (E : Excel.cleanFileName r = r).
  { unfold Excel.cleanFileName at 1. rewrite (filter_all _ _ _ Hsafe).
    rewrite trim_no_space.
    - destruct r; [contradiction|]. cbn [truthy_str negb]. now rewrite Hends.
    - eapply Forall_impl; [|exact Hsafe]. apply fileNameChar_no_space. }
  split; [|exact E].
  unfold Excel.sanitizeDownloadFileName.
  destruct r; [contradiction|]. cbn [truthy_str negb]. exact E.
Qed.

Lemma firstn_neq_nil (A : Type) (n : nat) (l : list A) :
  l <> [] -> (0 < n)%nat -> firstn n l <> [].
Proof. destruct l, n; cbn; intros; try lia; congruence. Qed.

(** ** The seeded generator never reaches the state 0 *)

Lemma ToInt32_range (z : Z) : -2147483648 <= ToInt32 z < 2147483648.
Proof.
  unfold ToInt32, two32. cbv zeta.
  pose proof (Z.mod_pos_bound z 4294967296 ltac:(lia)) as H.
  destruct (z mod 4294967296 <? 2147483648) eqn:E.
  - apply Z.ltb_lt in E. lia.
  - apply Z.ltb_ge in E. lia.
Qed.

Lemma ToInt32_mod (z : Z) : ToInt32 z mod two32 = z mod two32.
Proof.
  unfold ToInt32, two32. cbv zeta.
  destruct (z mod 4294967296 <? 2147483648).
  - apply Z.mod_mod. lia.
  - rewrite <- (Z.mod_add _ 1 4294967296) by lia.
    replace (z mod 4294967296 - 4294967296 + 1 * 4294967296)
      with (z mod 4294967296) by lia.
    apply Z.mod_mod. lia.
Qed.

Lemma ToInt32_zero (z : Z) : ToInt32 z = 0 -> z mod two32 = 0.
Proof. intros H. rewrite <- ToInt32_mod, H. reflexivity. Qed.

Lemma int32_nonzero_mod (z : Z) :
  -2147483648 <= z < 4294967296 -> z mod two32 = 0 -> z = 0.
Proof.
  unfold two32. intros Hr Hm.
  apply Z.mod_divide in Hm; [|lia]. destruct Hm as [q Hq]. lia.
Qed.

Lemma lxor_mod_zero (a b : Z) :
  Z.lxor a b mod two32 = 0 -> a mod two32 = b mod two32.
Proof.
  unfold two32. change 4294967296 with (2 ^ 32). intros H.
  apply Z.bits_inj'. intros n Hn.
  destruct (Z.ltb_spec n 32) as [Hlt | Hge].
  - rewrite !Z.mod_pow2_bits_low by lia.
    assert (Hb : Z.testbit (Z.lxor a b mod 2 ^ 32) n = false)
      by (rewrite H; apply Z.bits_0).
    rewrite Z.mod_pow2_bits_low, Z.lxor_spec in Hb by lia.
    destruct (Z.testbit a n), (Z.testbit b n); auto; discriminate.
  - rewrite !Z.mod_pow2_bits_high by lia. reflexivity.
Qed.

Lemma bxor_zero (a b : Z) : bxor a b = 0 -> a mod two32 = b mod two32.
Proof.
  unfold bxor. intros H. apply ToInt32_zero, lxor_mod_zero in H.
  now rewrite !ToInt32_mod in H.
Qed.

(** [x ^ (x << n)] is 0 only for [x = 0]: [2^n - 1] is odd, [inverse] is its
    inverse modulo [2^32]. *)
Lemma xor_shl_zero (x n inverse k : Z) :
  0 <= n ->
  inverse * (2 ^ n - 1) = 1 + k * two32 ->
  bxor x (shl x n) = 0 -> x mod two32 = 0.
Proof.
  intros Hn Hinv H. apply bxor_zero in H.
  unfold shl in H. rewrite ToInt32_mod, Z.shiftl_mul_pow2 in H by assumption.
  rewrite <- Z.mul_mod_idemp_l, ToInt32_mod, Z.mul_mod_idemp_l in H
    by (unfold two32; lia).
  (* x = x * 2^n modulo 2^32 *)
  assert (Hd : (two32 | x * (2 ^ n - 1))).
  { apply Z.mod_divide; [unfold two32; lia|].
    replace (x * (2 ^ n - 1)) with (x * 2 ^ n - x) by ring.
    rewrite Zminus_mod, <- H, Z.sub_diag. reflexivity. }
  apply Z.mod_divide; [unfold two32; lia|].
  destruct Hd as [q Hq]. exists (inverse * q - k * x).
  replace x with (x * (inverse * (2 ^ n - 1)) - x * (k * two32)) at 1
    by (rewrite Hinv; ring).
  replace (x * (inverse * (2 ^ n - 1))) with (inverse * (x * (2 ^ n - 1))) by ring.
  rewrite Hq. ring.
Qed.

Lemma xor_ushr_zero (x : Z) : bxor x (ushr x 17) = 0 -> x mod two32 = 0.
Proof.
  intros H. apply bxor_zero in H.
  unfold ushr, ToUint32 in H. rewrite Z.shiftr_div_pow2 in H by lia.
  pose proof (Z.mod_pos_bound x two32 ltac:(unfold two32; lia)) as Hu.
  set (u := x mod two32) in *. unfold two32 in *.
  change (2 ^ 17) with 131072 in H.
  assert (Hq : 0 <= u / 131072 < 32768).
  { split; [apply Z.div_pos; lia | apply Z.div_lt_upper_bound; lia]. }
  rewrite (Z.mod_small (u / 131072)) in H by lia.
  pose proof (Z.mul_div_le u 131072 ltac:(lia)). lia.
Qed.

Lemma bxor_int32 (a b : Z) : bxor a b mod two32 = 0 -> bxor a b = 0.
Proof.
  intros H. apply int32_nonzero_mod; [|assumption].
  unfold bxor. pose proof (ToInt32_range (Z.lxor (ToInt32 a) (ToInt32 b))). lia.
Qed.

(** One call of the closure maps a state that is not 0 to a state that is
    not 0. *)
Lemma xorshift_nonzero (seed : Z) :
  seed mod two32 <> 0 -> Analyzer.xorshift seed mod two32 <> 0.
Proof.
  unfold Analyzer.xorshift. intros H0 H3.
  apply bxor_int32 in H3.
  apply (xor_shl_zero _ 5 3186588639 23) in H3; [|lia|reflexivity].
  apply bxor_int32 in H3.
  apply xor_ushr_zero in H3.
  apply bxor_int32 in H3.
  apply (xor_shl_zero _ 13 4227850239 8063) in H3; [|lia|reflexivity].
  contradiction.
Qed.

Lemma fnv_fold_range (l : list Z) :
  -2147483648 <= fold_left Analyzer.fnvStep l 2166136261 < 4294967296.
Proof.
  induction l as [|c l _] using rev_ind; [cbn; lia|].
  rewrite fold_left_app. cbn [fold_left].
  set (s := fold_left Analyzer.fnvStep l 2166136261).
  unfold Analyzer.fnvStep, imul.
  pose proof (ToInt32_range (ToInt32 (bxor s c) * ToInt32 16777619)).
  lia.
Qed.

Lemma initialSeed_nonzero (seedSource : jsstring) :
  Analyzer.initialSeed seedSource mod two32 <> 0.
Proof.
  unfold Analyzer.initialSeed.
  pose proof (fnv_fold_range (firstUnits seedSource)) as Hr.
  destruct (fold_left Analyzer.fnvStep (firstUnits seedSource) 2166136261 =? 0) eqn:E.
  - discriminate.
  - apply Z.eqb_neq in E. intros H. apply E. now apply int32_nonzero_mod.
Qed.

Lemma seedAfter_nonzero (seedSource : jsstring) (k : nat) :
  Analyzer.seedAfter k (Analyzer.initialSeed seedSource) mod two32 <> 0.
Proof.
  induction k as [|k IH]; cbn [Analyzer.seedAfter].
  - apply initialSeed_nonzero.
  - now apply xorshift_nonzero.
Qed.

(** X10.  The generator of [createSeededRng] never reaches the state 0, the
    fixed point of its three shifts, whatever the seed text: every call
    returns [n / 2^32] for an integer [0 < n < 2^32], so no call returns 0 and
    the sequence never degenerates to a constant. *)
Theorem createSeededRng_never_zero (seedSource : jsstring) (k : nat) :
  0 < rngNumerator seedSource k < 4294967296 /\
  Analyzer.createSeededRng seedSource k
  = (PrimFloat.of_uint63 (Uint63.of_Z (rngNumerator seedSource k)) / 4294967296)%float.
Proof.
  split;
    [|unfold rngNumerator, Analyzer.createSeededRng, Analyzer.unitInterval;
      reflexivity].
  unfold rngNumerator, ushr, ToUint32. rewrite Z.shiftr_0_r.
  pose proof (seedAfter_nonzero seedSource (S k)) as Hnz.
  pose proof (Z.mod_pos_bound (Analyzer.seedAfter (S k) (Analyzer.initialSeed seedSource))
                              two32 ltac:(unfold two32; lia)) as Hb.
  unfold two32 in *. lia.
Qed.

(** ** The parse results are closed graphs *)

(** Every edge of [buildEdges] comes from a canonical edge whose two names
    the table knows, under two ids that are different and not empty. *)
Lemma buildEdges_ends (m : list (jsstring * jsstring))
      (cs : list Parser.CanonicalEdge) (e : Edge) :
  In e (Parser.buildEdges m cs) ->
  exists c,
    In c cs /\
    mapGet m (Parser.c_source c) = Some (source e) /\
    mapGet m (Parser.c_target c) = Some (target e) /\
    type e = Parser.c_type c /\
    source e <> target e /\ source e <> [] /\ target e <> [].
Proof.
  rewrite buildEdges_merged. intros He.
  apply in_map_iff in He as [[k e'] [E Hin]]. cbn [snd] in E. subst e'.
  apply In_mapGet in Hin; [|apply merged_keys_NoDup].
  destruct (merged_triple _ _ _ _ _ Hin) as (c & e0 & Hc & Hr & Ht).
  exists c. split; [assumption|].
  unfold resolved in Hr.
  destruct (mapGet m (Parser.c_source c)) as [s|]; [|discriminate].
  destruct (mapGet m (Parser.c_target c)) as [t|]; [|discriminate].
  destruct (truthy_str s) eqn:Es; cbn [negb orb] in Hr; [|discriminate].
  destruct (truthy_str t) eqn:Et; cbn [negb orb] in Hr; [|discriminate].
  destruct (streq s t) eqn:Est; [discriminate|].
  injection Hr as _ <-. unfold triple in Ht. cbn [source target type] in Ht.
  injection Ht as -> -> ->.
  apply streq_false_iff in Est.
  repeat (split; [first [reflexivity | assumption]|]).
  split; [now destruct s | now destruct t].
Qed.

Lemma keepFirst_distinct (l : list Node) :
  forall seen, NoDup (seen ++ map id l) -> keepFirst seen l = l.
Proof.
  induction l as [|n l IH]; intros seen Hnd; [reflexivity|].
  cbn [keepFirst map] in *.
  assert (Hn : setHas seen (id n) = false).
  { apply setHas_false_iff. intros Hin.
    apply NoDup_remove_2 in Hnd. apply Hnd. apply in_or_app. now left. }
  rewrite Hn. f_equal. apply IH. now rewrite <- app_assoc.
Qed.

Lemma keptEdges_all (ids : list jsstring) (edges : list Edge) :
  (forall e, In e edges -> In (source e) ids /\ In (target e) ids) ->
  keptEdges ids edges = edges.
Proof.
  intros H. unfold keptEdges. induction edges as [|e edges IH]; [reflexivity|].
  cbn [filter]. destruct (H e (or_introl eq_refl)) as [Hs Ht].
  apply setHas_true_iff in Hs, Ht. rewrite Hs, Ht. cbn [andb].
  f_equal. apply IH. intros e' He'. apply H. now right.
Qed.

Lemma forallb_false_iff (A : Type) (p : A -> bool) (l : list A) :
  forallb p l = false <-> exists x, In x l /\ p x = false.
Proof.
  induction l as [|a l IH]; cbn [forallb].
  - split; [discriminate | intros (x & [] & _)].
  - rewrite andb_false_iff, IH. split.
    + intros [H | (x & Hx & Hp)]; [exists a | exists x]; auto using in_eq, in_cons.
    + intros (x & [<- | Hx] & Hp); [now left | right; eauto].
Qed.

Section Closed.
Context {host : Host}.

Lemma finiteOrUndefined_None_iff (v : value) :
  Parser.finiteOrUndefined v = None <-> printable v = false.
Proof.
  unfold Parser.finiteOrUndefined. rewrite <- ToNumber_None_iff.
  destruct (ToNumber v); split; congruence.
Qed.

Lemma qualitySignalsOf_None_iff (payload : value) :
  Parser.qualitySignalsOf (field payload (lit "metadata")) = None <->
  exists q, In q (payloadQualitySignals payload) /\ printable q = false.
Proof.
  rewrite <- forallb_false_iff.
  unfold Parser.qualitySignalsOf, payloadQualitySignals. cbv zeta.
  set (qs := nullish (field (nullish (field payload (lit "metadata")) (VObject []))
                            (lit "quality_signals")) (VObject [])).
  cbn [forallb]. rewrite !andb_false_iff, <- !finiteOrUndefined_None_iff.
  destruct (Parser.finiteOrUndefined (field qs (lit "respondent_count")));
    destruct (Parser.finiteOrUndefined (field qs (lit "unknown_student_count")));
    destruct (Parser.finiteOrUndefined (field qs (lit "student_count_ratio")));
    intuition discriminate.
Qed.

(** What the three functions of the client do with a body: they throw on
    [null], run the two loops, read the quality signals and go on with the
    canonical edges and names. *)
#[local] Abbreviation reading := (fun (A : Type) (payload : value)
    (rest : list Parser.CanonicalEdge -> list jsstring -> option A) =>
  match payload with
  | VUndefined | VNull => None
  | _ =>
      match Parser.canonicalEdgesOf (payloadRelationships payload) with
      | Some cs =>
          match Parser.canonicalNameSet (payloadStudents payload) cs with
          | Some names =>
              match Parser.qualitySignalsOf (field payload (lit "metadata")) with
              | Some _ => rest cs names
              | None => None
              end
          | None => None
          end
      | None => None
      end
  end).

Lemma reading_spec (A : Type) (payload : value)
      (rest : list Parser.CanonicalEdge -> list jsstring -> option A) :
  (forall cs names, rest cs names <> None) ->
  (reading A payload rest = None <-> unreadable payload) /\
  (forall r, reading A payload rest = Some r ->
     exists cs names,
       Parser.canonicalEdgesOf (payloadRelationships payload) = Some cs /\
       Parser.canonicalNameSet (payloadStudents payload) cs = Some names /\
       rest cs names = Some r).
Proof.
  intros Hrest. unfold unreadable.
  pose proof (canonicalEdgesOf_None_iff (payloadRelationships payload)) as He.
  rewrite forallb_false_iff in He.
  pose proof (fun cs => canonicalNameSet_None_iff (payloadStudents payload) cs) as Hn.
  pose proof (qualitySignalsOf_None_iff payload) as Hq.
  destruct (Parser.canonicalEdgesOf (payloadRelationships payload)) as [cs|].
  2:{ destruct payload; cbv beta iota;
        (split; [split; [intros _ | reflexivity] | discriminate]);
        try (now left); try (right; now left);
        right; right; left; now apply He. }
  specialize (Hn cs). rewrite forallb_false_iff in Hn.
  destruct (Parser.canonicalNameSet (payloadStudents payload) cs) as [names|] eqn:En.
  2:{ destruct payload; cbv beta iota;
        (split; [split; [intros _ | reflexivity] | discriminate]);
        try (now left); try (right; now left);
        right; right; right; left; now apply Hn. }
  destruct (Parser.qualitySignalsOf (field payload (lit "metadata"))) as [qs|].
  2:{ destruct payload; cbv beta iota;
        (split; [split; [intros _ | reflexivity] | discriminate]);
        try (now left); try (right; now left);
        right; right; right; right; now apply Hq. }
  pose proof (Hrest cs names) as Hr.
  assert (Hno : ~ ((exists rel, In rel (payloadRelationships payload) /\
                                convertible rel = false) \/
                   (exists s, In s (payloadStudents payload) /\ printable s = false) \/
                   (exists q, In q (payloadQualitySignals payload) /\
                              printable q = false))).
  { intros [H | [H | H]].
    - apply He in H. discriminate.
    - apply Hn in H. discriminate.
    - apply Hq in H. discriminate. }
  destruct payload; cbv beta iota.
  1:{ split; [split; [intros _; right; left; reflexivity | reflexivity] | discriminate]. }
  1:{ split; [split; [intros _; left; reflexivity | reflexivity] | discriminate]. }
  all: (split;
        [split; [intros H; now destruct (Hr H)
                | intros [H | [H | H]]; [discriminate | discriminate | contradiction]]
        | intros r H; exists cs, names; auto]).
Qed.

Lemma processWithGemini_reading (randomUUID : nat -> jsstring) (payload : value) :
  Parser.processWithGemini randomUUID payload
  = reading _ payload (fun cs names =>
      Some (Parser.mkParseResult
              (fst (Parser.mintNodes randomUUID names))
              (Parser.buildEdges (snd (Parser.mintNodes randomUUID names)) cs))).
Proof. destruct payload; reflexivity. Qed.

(** X11.  The upload path throws exactly when the body of the response is
    [null] or [String] or [Number] throws: on a relationship with a member
    that cannot be converted, on a student or on a quality signal that
    cannot.  Otherwise it returns a closed graph: the names of the nodes
    are the canonical names, each once, and every edge joins the ids of
    two nodes of the result, which are different; so [analyzeNetwork]
    leaves no edge of this list out of its graph. *)
Theorem processWithGemini_result_closed
  (randomUUID : nat -> jsstring) (payload : value) :
  (Parser.processWithGemini randomUUID payload = None <-> unreadable payload) /\
  (forall r, Parser.processWithGemini randomUUID payload = Some r ->
     exists cs,
       Parser.canonicalEdgesOf (payloadRelationships payload) = Some cs /\
       Parser.canonicalNameSet (payloadStudents payload) cs
       = Some (map name (Parser.nodes r)) /\
       NoDup (map name (Parser.nodes r)) /\
       (forall e, In e (Parser.edges r) ->
          source e <> target e /\
          In (source e) (map id (Parser.nodes r)) /\
          In (target e) (map id (Parser.nodes r))) /\
       keptEdges (map id (Parser.nodes r)) (Parser.edges r) = Parser.edges r).
Proof.
  rewrite processWithGemini_reading.
  destruct (reading_spec _ payload (fun cs names =>
              Some (Parser.mkParseResult
                      (fst (Parser.mintNodes randomUUID names))
                      (Parser.buildEdges (snd (Parser.mintNodes randomUUID names)) cs))))
    as [Hiff Hsome]; [discriminate|].
  split; [exact Hiff|].
  intros r Hr. destruct (Hsome r Hr) as (cs & names & Ecs & En & [= <-]).
  cbn [Parser.nodes Parser.edges]. exists cs.
  destruct (canonicalNameSet_spec _ cs names En) as [Hnd _].
  destruct (mintNodes_state randomUUID _ Hnd) as (Hnames & Hs & _).
  set (minted := Parser.mintNodes randomUUID names) in *.
  assert (Hends : forall e, In e (Parser.buildEdges (snd minted) cs) ->
            source e <> target e /\
            In (source e) (map id (fst minted)) /\
            In (target e) (map id (fst minted))).
  { intros e He.
    destruct (buildEdges_ends _ _ _ He) as (c & _ & Gs & Gt & _ & Hne & _).
    split; [assumption|].
    apply mapGet_In in Gs, Gt. rewrite Hs in Gs, Gt.
    apply in_map_iff in Gs as [ns [Es Hns]], Gt as [nt [Et Hnt]].
    injection Es as _ Es. injection Et as _ Et. rewrite <- Es, <- Et.
    split; now apply in_map. }
  split; [assumption|]. split; [now rewrite Hnames|].
  split; [now rewrite Hnames|]. split; [assumption|].
  apply keptEdges_all. intros e He. now apply Hends.
Qed.

Context {lib : G.Metrics}.

Lemma precision_reading (payload : value) (previous : option (list Node)) :
  Dashboard.buildParseResultFromAnalyzePayload payload previous
  = reading _ payload (fun cs names =>
      let m := Dashboard.resolveStudentIds names previous in
      match Analyzer.analyzeNetwork (Dashboard.nodesOf m names) (Parser.buildEdges m cs) with
      | Some analyzedData =>
          Some (Parser.mkParseResult (Analyzer.nodes analyzedData)
                                     (Analyzer.edges analyzedData))
      | None => None
      end).
Proof.
  unfold Dashboard.buildParseResultFromAnalyzePayload, payloadRelationships,
    payloadStudents.
  destruct payload; try reflexivity; cbn [member]; cbv zeta;
    (match goal with
     | |- context [Parser.canonicalEdgesOf ?rs] =>
         destruct (Parser.canonicalEdgesOf rs) as [cs|]; [|reflexivity]
     end;
     match goal with
     | |- context [Parser.canonicalNameSet ?ss ?c] =>
         destruct (Parser.canonicalNameSet ss c) as [names|]; [|reflexivity]
     end;
     match goal with
     | |- context [Analyzer.analyzeNetwork ?ns ?es] =>
         destruct (Analyzer.analyzeNetwork ns es); [|]
     end;
     match goal with
     | |- context [Parser.qualitySignalsOf ?m] =>
         destruct (Parser.qualitySignalsOf m); reflexivity
     end).
Qed.

(** X12.  So does the precision path, and there the ids are distinct as
    well: [buildParseResultFromAnalyzePayload] throws exactly when the body
    is [null], a relationship has a member that cannot be converted, or a
    student or a quality signal cannot be; otherwise it returns one node
    for every canonical name, no two nodes with one id, and every edge
    joins two different nodes of the result.  The graph that
    [analyzeNetwork] builds holds all the edges returned. *)
Theorem precision_result_closed
  (payload : value) (previous : option (list Node)) :
  (Dashboard.buildParseResultFromAnalyzePayload payload previous = None <->
     unreadable payload) /\
  (forall r,
     Dashboard.buildParseResultFromAnalyzePayload payload previous = Some r ->
     exists cs,
       Parser.canonicalEdgesOf (payloadRelationships payload) = Some cs /\
       Parser.canonicalNameSet (payloadStudents payload) cs
       = Some (map name (Parser.nodes r)) /\
       NoDup (map id (Parser.nodes r)) /\
       (forall e, In e (Parser.edges r) ->
          source e <> target e /\
          In (source e) (map id (Parser.nodes r)) /\
          In (target e) (map id (Parser.nodes r))) /\
       keptEdges (map id (Parser.nodes r)) (Parser.edges r) = Parser.edges r).
Proof.
  rewrite precision_reading.
  destruct (reading_spec _ payload (fun cs names =>
              let m := Dashboard.resolveStudentIds names previous in
              match Analyzer.analyzeNetwork (Dashboard.nodesOf m names)
                                            (Parser.buildEdges m cs) with
              | Some analyzedData =>
                  Some (Parser.mkParseResult (Analyzer.nodes analyzedData)
                                             (Analyzer.edges analyzedData))
              | None => None
              end))
    as [Hiff Hsome].
  { intros cs names. cbv zeta.
    destruct (analyzeNetwork_spec
                (Dashboard.nodesOf (Dashboard.resolveStudentIds names previous) names)
                (Parser.buildEdges (Dashboard.resolveStudentIds names previous) cs))
      as (g0 & _ & _ & _ & _ & _ & Hr).
    cbv zeta in Hr. rewrite Hr. discriminate. }
  split; [exact Hiff|].
  intros r Hr. destruct (Hsome r Hr) as (cs & names & Ecs & En & Hrest).
  cbv zeta in Hrest. exists cs. split; [assumption|].
  destruct (canonicalNameSet_spec _ cs names En) as [Hnd _].
  pose proof (resolve_state (Dashboard.previousIdByName previous) names Hnd)
    as (Hkeys & Hused & Hvals & Htr).
  rewrite <- Hused in Hvals, Htr. clear Hused.
  change (snd (fold_left (Dashboard.resolveStep (Dashboard.previousIdByName previous))
                 names ([], [])))
    with (Dashboard.resolveStudentIds names previous) in *.
  set (m := Dashboard.resolveStudentIds names previous) in *.
  assert (Hnodes : Dashboard.nodesOf m names
                   = map (fun kv => freshNode (snd kv) (fst kv)) m).
  { rewrite <- Hkeys. apply nodesOf_resolved; [now rewrite Hkeys | assumption]. }
  set (nodes := Dashboard.nodesOf m names) in *.
  set (edges := Parser.buildEdges m cs) in *.
  assert (Hids : map id nodes = map snd m).
  { rewrite Hnodes, map_map. reflexivity. }
  assert (Hnames : map name nodes = names).
  { rewrite Hnodes, map_map. cbn [name freshNode]. exact Hkeys. }
  assert (Hkeep : keepFirst [] nodes = nodes).
  { apply keepFirst_distinct. cbn [app]. now rewrite Hids. }
  destruct (analyzeNetwork_spec nodes edges) as (g0 & _ & _ & _ & _ & _ & Ha).
  cbv zeta in Ha. rewrite Ha in Hrest. injection Hrest as <-.
  cbn [Parser.nodes Parser.edges Analyzer.nodes Analyzer.edges].
  rewrite Hkeep.
  assert (Hids' : map id (map (fun n => Analyzer.enrich (id n)
                      (finalAttributes nodes edges g0 (id n) (Analyzer.attributesOf n)))
                    nodes) = map snd m).
  { rewrite map_map. cbn [Analyzer.enrich id]. exact Hids. }
  rewrite Hids'.
  assert (Hends : forall e, In e edges ->
            source e <> target e /\ In (source e) (map snd m) /\ In (target e) (map snd m)).
  { intros e He.
    destruct (buildEdges_ends _ _ _ He) as (c & _ & Gs & Gt & _ & Hne & _).
    split; [assumption|].
    apply mapGet_In in Gs, Gt.
    split; [exact (in_map snd _ _ Gs) | exact (in_map snd _ _ Gt)]. }
  split.
  { rewrite En. f_equal. rewrite map_map. cbn [Analyzer.enrich name].
    rewrite <- Hnames at 1. apply map_ext. intros n. now rewrite final_name. }
  split; [assumption|]. split; [assumption|].
  apply keptEdges_all. intros e He. now apply Hends.
Qed.

Lemma upload_reading (randomUUID : nat -> jsstring) (payload : value) :
  UploadPage.handleFileUpload randomUUID payload
  = reading _ payload (fun cs names =>
      let minted := Parser.mintNodes randomUUID names in
      match Analyzer.analyzeNetwork (fst minted) (Parser.buildEdges (snd minted) cs) with
      | Some analyzedData =>
          Some (Parser.mkParseResult (Analyzer.nodes analyzedData)
                                     (Analyzer.edges analyzedData))
      | None => None
      end).
Proof.
  unfold UploadPage.handleFileUpload. rewrite processWithGemini_reading.
  destruct payload; try reflexivity;
    (match goal with
     | |- context [Parser.canonicalEdgesOf ?rs] =>
         destruct (Parser.canonicalEdgesOf rs) as [cs|]; [|reflexivity]
     end;
     match goal with
     | |- context [Parser.canonicalNameSet ?ss ?c] =>
         destruct (Parser.canonicalNameSet ss c) as [names|]; [|reflexivity]
     end;
     match goal with
     | |- context [Parser.qualitySignalsOf ?m] =>
         destruct (Parser.qualitySignalsOf m); reflexivity
     end).
Qed.
End Closed.

(** ** The ids hold no colon *)

Lemma digitChar_no_colon (d : Z) : 0 <= d -> digitChar d <> 58.
Proof.
  unfold digitChar. intros Hd. destruct (Z.ltb_spec d 10); lia.
Qed.

Lemma digitsAcc_no_colon (radix : Z) (fuel : nat) :
  0 < radix ->
  forall n acc, ~ In 58 acc -> ~ In 58 (digitsAcc radix fuel n acc).
Proof.
  intros Hr. induction fuel as [|fuel IH]; intros n acc Hacc; cbn [digitsAcc];
    [assumption|].
  assert (H : ~ In 58 (digitChar (n mod radix) :: acc)).
  { intros [E | Hin]; [|contradiction].
    apply (digitChar_no_colon (n mod radix)); [|assumption].
    apply Z.mod_pos_bound. assumption. }
  destruct (n / radix =? 0); [assumption | now apply IH].
Qed.

Lemma intToString_no_colon (radix n : Z) : 0 < radix -> ~ In 58 (intToString radix n).
Proof. intros Hr. unfold intToString. apply digitsAcc_no_colon; auto. Qed.

Lemma buildStableStudentId_no_colon (name : jsstring) :
  ~ In 58 (Dashboard.buildStableStudentId name).
Proof.
  unfold Dashboard.buildStableStudentId. intros Hin.
  apply in_app_or in Hin as [Hin | Hin].
  - vm_compute in Hin. intuition discriminate.
  - revert Hin. apply intToString_no_colon. lia.
Qed.

Lemma withSuffix_no_colon (c : jsstring) (k : Z) :
  ~ In 58 c -> ~ In 58 (Dashboard.withSuffix c k).
Proof.
  unfold Dashboard.withSuffix. intros Hc Hin.
  apply in_app_or in Hin as [Hin | Hin]; [contradiction|].
  apply in_app_or in Hin as [Hin | Hin].
  - vm_compute in Hin. intuition discriminate.
  - revert Hin. apply intToString_no_colon. lia.
Qed.

Section ColonFree.
Context {host : Host}.

(** The ids that [previousIdByName] holds are ids of previous nodes. *)
Lemma previousIdByName_values (previous : option (list Node)) (k i : jsstring) :
  mapGet (Dashboard.previousIdByName previous) k = Some i ->
  exists nd, In nd (match previous with Some l => l | None => [] end) /\ id nd = i.
Proof.
  unfold Dashboard.previousIdByName.
  generalize (match previous with Some l => l | None => [] end). intros l. revert i.
  induction l as [|nd l IH] using rev_ind; intros i; [discriminate|].
  rewrite fold_left_app. cbn [fold_left].
  destruct (jsstring_eq_dec (Dashboard.normalizeStudentNameKey (name nd)) k) as [<- | Hne].
  - rewrite mapGet_mapSet_same. intros [= <-]. exists nd. split; [|reflexivity].
    apply in_or_app. right. now left.
  - rewrite mapGet_mapSet_other by assumption. intros H.
    destruct (IH i H) as (nd' & Hin & E). exists nd'. split; [|assumption].
    apply in_or_app. now left.
Qed.

Lemma resolve_no_colon (prev : list (jsstring * jsstring)) (names : list jsstring) :
  colonFree prev ->
  colonFree (snd (fold_left (Dashboard.resolveStep prev) names ([], []))).
Proof.
  intros Hprev.
  induction names as [|n names IH] using rev_ind; [intros k i; discriminate|].
  rewrite fold_left_app. cbn [fold_left].
  set (st := fold_left (Dashboard.resolveStep prev) names ([], [])) in *.
  unfold Dashboard.resolveStep. cbn [snd]. intros k i.
  destruct (jsstring_eq_dec n k) as [<- | Hne].
  - rewrite mapGet_mapSet_same. intros [= <-].
    assert (Hc : ~ In 58 (Dashboard.firstCandidate prev n)).
    { unfold Dashboard.firstCandidate.
      destruct (mapGet prev (Dashboard.normalizeStudentNameKey n)) as [r|] eqn:E;
        [|apply buildStableStudentId_no_colon].
      destruct (truthy_str r); [eapply Hprev; eauto | apply buildStableStudentId_no_colon]. }
    unfold Dashboard.freeCandidate.
    destruct (setHas (fst st) _); [now apply withSuffix_no_colon | assumption].
  - rewrite mapGet_mapSet_other by assumption. apply IH.
Qed.

(** X13.  When no id of a previous node holds a colon (as ["STU_"] followed
    by a UUID, or an id made by this function), no id that
    [resolveStudentIds] gives holds one: the hash is printed in base 36 and
    the suffix in base 10.  The key ["source::target::type"] of the merging
    loop then determines the triple, and every edge of the precision path
    carries the sum of the weights of the tuples with its ends and type.
    This holds for every list of names and of canonical edges, so for those
    of every response. *)
Theorem precision_ids_colon_free
  (names : list jsstring) (cs : list Parser.CanonicalEdge)
  (previous : option (list Node)) :
  (forall nd, In nd (match previous with Some l => l | None => [] end) ->
     ~ In 58 (id nd)) ->
  let m := Dashboard.resolveStudentIds names previous in
  colonFree m /\
  forall e, In e (Parser.buildEdges m cs) ->
    sumWeights (weightsOfTriple (resolved m) (triple e) cs) = Some (weight e).
Proof.
  intros Hprev m.
  assert (Hfree : colonFree m).
  { apply resolve_no_colon. intros k i Hk.
    apply previousIdByName_values in Hk as (nd & Hin & <-). now apply Hprev. }
  split; [assumption|]. now apply buildEdges_weight_sum.
Qed.
End ColonFree.

Section ColonFreeExamples.
#[local] Existing Instance Examples.asciiHost.

(** A witness of X13: Alice names Bob twice and Carol once, after an upload
    that gave Alice the id [STU_a]. *)
Lemma precision_ids_colon_free_witness :
  let cs :=
    [Parser.mkCanonical Examples.alice Examples.bob (lit "general") 1%float;
     Parser.mkCanonical Examples.alice (lit "Carol") (lit "general") 1%float;
     Parser.mkCanonical Examples.alice Examples.bob (lit "general") 2%float] in
  let previous := Some [freshNode Examples.idA Examples.alice] in
  Parser.canonicalEdgesOf
    [VObject [(lit "from", VString (lit "Alice")); (lit "to", VString (lit "Bob"))];
     VObject [(lit "from", VString (lit "Alice")); (lit "to", VString (lit "Carol"))];
     VObject [(lit "from", VString (lit "Alice")); (lit "to", VString (lit "Bob "));
              (lit "weight", VNumber 2%float)]] = Some cs /\
  Parser.canonicalNameSet [] cs = Some [Examples.alice; Examples.bob; lit "Carol"] /\
  let m := Dashboard.resolveStudentIds [Examples.alice; Examples.bob; lit "Carol"]
             previous in
  colonFree m /\
  forall e, In e (Parser.buildEdges m cs) ->
    sumWeights (weightsOfTriple (resolved m) (triple e) cs) = Some (weight e).
Proof.
  cbv zeta. split; [vm_compute; reflexivity|]. split; [vm_compute; reflexivity|].
  apply (precision_ids_colon_free
           [Examples.alice; Examples.bob; lit "Carol"]
           [Parser.mkCanonical Examples.alice Examples.bob (lit "general") 1%float;
            Parser.mkCanonical Examples.alice (lit "Carol") (lit "general") 1%float;
            Parser.mkCanonical Examples.alice Examples.bob (lit "general") 2%float]
           (Some [freshNode Examples.idA Examples.alice])).
  intros nd [<- | []]. vm_compute. intuition discriminate.
Defined.
End ColonFreeExamples.

(** ** Trimming *)

Lemma trimStart_idempotent (s : jsstring) : trimStart (trimStart s) = trimStart s.
Proof.
  induction s as [|c s IH]; [reflexivity|].
  cbn [trimStart]. destruct (isWhiteSpace c) eqn:E; [assumption|].
  cbn [trimStart]. now rewrite E.
Qed.

Lemma trimStart_head (s : jsstring) (c : Z) (r : jsstring) :
  trimStart s = c :: r -> isWhiteSpace c = false.
Proof.
  induction s as [|d s IH]; [discriminate|].
  cbn [trimStart]. destruct (isWhiteSpace d) eqn:E; [assumption|].
  intros [= <- _]. assumption.
Qed.

Lemma trimStart_fixed (c : Z) (r : jsstring) :
  isWhiteSpace c = false -> trimStart (c :: r) = c :: r.
Proof. intros H. cbn [trimStart]. now rewrite H. Qed.

(** What [trim] returns starts and ends with a character that is not white
    space, and [trim] leaves it as it is. *)
Lemma trim_starts (s : jsstring) : trimStart (trim s) = trim s.
Proof.
  unfold trim, trimEnd.
  destruct (trimStart_suffix (rev (trimStart s))) as [p E].
  set (u := trimStart (rev (trimStart s))) in *.
  destruct (rev u) as [|c r] eqn:Eu; [reflexivity|].
  apply trimStart_fixed.
  assert (Et : trimStart s = (c :: r) ++ rev p).
  { rewrite <- Eu, <- rev_app_distr, <- E. now rewrite rev_involutive. }
  cbn [app] in Et. now apply trimStart_head in Et.
Qed.

Lemma trim_ends (s : jsstring) : trimStart (rev (trim s)) = rev (trim s).
Proof.
  unfold trim, trimEnd. rewrite rev_involutive. apply trimStart_idempotent.
Qed.

Lemma trim_idempotent (s : jsstring) : trim (trim s) = trim s.
Proof.
  unfold trim at 1. rewrite trim_starts. unfold trimEnd.
  rewrite trim_ends. apply rev_involutive.
Qed.

(** ** The server's normaliser and the client's *)

Lemma fold_setAdd_spec (l : list jsstring) :
  forall set,
    NoDup set ->
    NoDup (fold_left setAdd l set) /\
    (forall x, In x (fold_left setAdd l set) <-> In x set \/ In x l).
Proof.
  induction l as [|a l IH]; intros set Hnd; cbn [fold_left].
  - split; [assumption|]. intros x. cbn. tauto.
  - destruct (IH (setAdd set a) (NoDup_setAdd _ _ Hnd)) as [H1 H2].
    split; [assumption|]. intros x. rewrite H2, In_setAdd. cbn. intuition.
Qed.

Lemma setAdd_present (set : list jsstring) (x : jsstring) :
  In x set -> setAdd set x = set.
Proof. intros H. unfold setAdd. apply setHas_true_iff in H. now rewrite H. Qed.

Lemma fold_setAdd_distinct (l : list jsstring) :
  forall set, NoDup (set ++ l) -> fold_left setAdd l set = set ++ l.
Proof.
  induction l as [|a l IH]; intros set Hnd; cbn [fold_left].
  - now rewrite app_nil_r.
  - assert (Ha : setHas set a = false).
    { apply setHas_false_iff. intros Hin. apply NoDup_remove_2 in Hnd.
      apply Hnd. apply in_or_app. now left. }
    unfold setAdd at 2. rewrite Ha. rewrite IH; rewrite <- app_assoc; auto.
Qed.

Section ServerAndClient.
Context {host : Host}.

Lemma addEnds_fold (rs : list AnalyzeRoute.AnalyzeRelationship) :
  forall set,
    NoDup set ->
    NoDup (fold_left AnalyzeRoute.addEnds rs set) /\
    (forall x, In x (fold_left AnalyzeRoute.addEnds rs set) <->
       In x set \/ exists r, In r rs /\ (x = AnalyzeRoute.rel_from r \/ x = AnalyzeRoute.rel_to r)).
Proof.
  induction rs as [|r rs IH]; intros set Hnd; cbn [fold_left].
  - split; [assumption|]. intros x. split; [auto|]. intros [H | (r & [] & _)]. exact H.
  - assert (Hnd' : NoDup (AnalyzeRoute.addEnds set r))
      by (unfold AnalyzeRoute.addEnds; auto using NoDup_setAdd).
    destruct (IH _ Hnd') as [H1 H2].
    split; [assumption|]. intros x. rewrite H2. unfold AnalyzeRoute.addEnds.
    rewrite !In_setAdd. split.
    + intros [[[H | H] | H] | (r' & Hr' & H)]; auto.
      * right. exists r. split; [now left | auto].
      * right. exists r. split; [now left | auto].
      * right. exists r'. split; [now right | auto].
    + intros [H | (r' & [<- | Hr'] & H)]; auto.
      * destruct H; auto.
      * right. exists r'. auto.
Qed.

(** The callback of the server is the callback of the client, but for the
    names of the members of what it returns. *)
Lemma server_normalizeRelationship (rel : value) :
  AnalyzeRoute.normalizeRelationship rel
  = option_map
      (option_map (fun c => AnalyzeRoute.mkRelationship
                              (Parser.c_source c) (Parser.c_target c)
                              (Parser.c_type c) (Parser.c_weight c)))
      (Parser.normalizeRelationship rel).
Proof.
  unfold AnalyzeRoute.normalizeRelationship, Parser.normalizeRelationship.
  destruct (negb (truthy rel) || negb (typeofObject rel)); [reflexivity|].
  destruct (ToString (nullish (field rel (lit "from")) (VString []))) as [f|];
    [|reflexivity].
  destruct (ToString (nullish (field rel (lit "to")) (VString []))) as [t|];
    [|reflexivity].
  destruct (ToString (nullish (field rel (lit "type")) (VString (lit "general"))))
    as [ty|]; [|reflexivity].
  destruct (ToNumber (field rel (lit "weight"))) as [w|]; [|reflexivity].
  destruct (negb (truthy_str (trim f)) || negb (truthy_str (trim t))
            || streq (trim f) (trim t)); reflexivity.
Qed.

Lemma server_normalizeRelationship_None_iff (rel : value) :
  AnalyzeRoute.normalizeRelationship rel = None <-> convertible rel = false.
Proof.
  rewrite server_normalizeRelationship, <- normalizeRelationship_None_iff.
  destruct (Parser.normalizeRelationship rel); cbn; split; congruence.
Qed.

Lemma relationshipsOf_None_iff (items : list value) :
  AnalyzeRoute.relationshipsOf items = None <->
  exists rel, In rel items /\ convertible rel = false.
Proof.
  rewrite <- forallb_false_iff.
  induction items as [|rel rest IH]; cbn [AnalyzeRoute.relationshipsOf forallb].
  - split; discriminate.
  - rewrite andb_false_iff, <- IH, <- server_normalizeRelationship_None_iff.
    destruct (AnalyzeRoute.normalizeRelationship rel) as [o|].
    + destruct (AnalyzeRoute.relationshipsOf rest); split; try discriminate; auto.
      intros [H | H]; discriminate.
    + split; auto.
Qed.

Lemma studentsOf_None_iff (items : list value) :
  AnalyzeRoute.studentsOf items = None <->
  exists s, In s items /\ printable s = false.
Proof.
  rewrite <- forallb_false_iff.
  induction items as [|v rest IH]; cbn [AnalyzeRoute.studentsOf forallb].
  - split; discriminate.
  - rewrite andb_false_iff, <- IH.
    rewrite <- (printable_nullish v []), <- ToString_None_iff.
    destruct (ToString (nullish v (VString []))) as [text|].
    + destruct (AnalyzeRoute.studentsOf rest); split; try discriminate; auto.
      intros [H | H]; discriminate.
    + split; auto.
Qed.

Lemma in_relationshipsOf (items : list value)
      (rs : list AnalyzeRoute.AnalyzeRelationship) (r : AnalyzeRoute.AnalyzeRelationship) :
  AnalyzeRoute.relationshipsOf items = Some rs ->
  In r rs ->
  exists rel, In rel items /\ AnalyzeRoute.normalizeRelationship rel = Some (Some r).
Proof.
  revert rs. induction items as [|v items IH]; intros rs;
    cbn [AnalyzeRoute.relationshipsOf].
  - intros [= <-] [].
  - destruct (AnalyzeRoute.normalizeRelationship v) as [o|] eqn:E; [|discriminate].
    destruct (AnalyzeRoute.relationshipsOf items) as [l|]; [|discriminate].
    intros [= <-] H.
    assert (Hl : In r l -> exists rel, In rel (v :: items) /\
                   AnalyzeRoute.normalizeRelationship rel = Some (Some r)).
    { intros Hin. destruct (IH l eq_refl Hin) as (rel & Hrel & Hr).
      exists rel. split; [now right | assumption]. }
    destruct o as [e|]; [|now apply Hl].
    destruct H as [<- | H]; [|now apply Hl].
    exists v. split; [now left | assumption].
Qed.

(** What the normaliser lets through: two different names and a type, all
    trimmed and not empty, and a weight that is finite and positive. *)
Lemma normalizeRelationship_kept (rel : value) (r : AnalyzeRoute.AnalyzeRelationship) :
  AnalyzeRoute.normalizeRelationship rel = Some (Some r) ->
  properName (AnalyzeRoute.rel_from r) /\
  properName (AnalyzeRoute.rel_to r) /\
  properName (AnalyzeRoute.rel_type r) /\
  AnalyzeRoute.rel_from r <> AnalyzeRoute.rel_to r /\
  positiveFinite (AnalyzeRoute.rel_weight r) = true.
Proof.
  unfold AnalyzeRoute.normalizeRelationship.
  destruct (negb (truthy rel) || negb (typeofObject rel)); [discriminate|].
  destruct (ToString (nullish (field rel (lit "from")) (VString []))) as [f0|];
    [|discriminate].
  destruct (ToString (nullish (field rel (lit "to")) (VString []))) as [t0|];
    [|discriminate].
  destruct (ToString (nullish (field rel (lit "type")) (VString (lit "general"))))
    as [ty0|]; [|discriminate].
  destruct (ToNumber (field rel (lit "weight"))) as [w|]; [|discriminate].
  set (f := trim f0). set (t := trim t0). set (ty := trim ty0).
  destruct (truthy_str f) eqn:Ef; cbn [negb orb]; [|discriminate].
  destruct (truthy_str t) eqn:Et; cbn [negb orb]; [|discriminate].
  destruct (streq f t) eqn:Eft; [discriminate|].
  intros [= <-]. cbn [AnalyzeRoute.rel_from AnalyzeRoute.rel_to AnalyzeRoute.rel_type
                        AnalyzeRoute.rel_weight].
  split; [split; [now destruct f | apply trim_idempotent]|].
  split; [split; [now destruct t | apply trim_idempotent]|].
  split.
  { destruct (truthy_str ty) eqn:Ety.
    - split; [now destruct ty | apply trim_idempotent].
    - split; [discriminate | reflexivity]. }
  split; [now apply streq_false_iff|].
  unfold positiveFinite.
  destruct (PrimFloat.is_finite w && (0 <? w)%float) eqn:Ew; [assumption | reflexivity].
Qed.

(** The client's normaliser returns a relationship of the server as it is. *)
Lemma client_reads_relationship (r : AnalyzeRoute.AnalyzeRelationship) :
  properName (AnalyzeRoute.rel_from r) ->
  properName (AnalyzeRoute.rel_to r) ->
  properName (AnalyzeRoute.rel_type r) ->
  AnalyzeRoute.rel_from r <> AnalyzeRoute.rel_to r ->
  positiveFinite (AnalyzeRoute.rel_weight r) = true ->
  Parser.normalizeRelationship (relationshipValue r) = Some (Some (canonicalOf r)).
Proof.
  destruct r as [f t ty w]. cbn [AnalyzeRoute.rel_from AnalyzeRoute.rel_to
                                  AnalyzeRoute.rel_type AnalyzeRoute.rel_weight].
  intros [Hf Ef] [Ht Et] [Hty Ety] Hne Hw.
  unfold Parser.normalizeRelationship, relationshipValue, canonicalOf.
  cbn [truthy typeofObject negb orb field AnalyzeRoute.rel_from AnalyzeRoute.rel_to
       AnalyzeRoute.rel_type AnalyzeRoute.rel_weight].
  change (getProp _ (lit "from")) with (VString f).
  change (getProp _ (lit "to")) with (VString t).
  change (getProp _ (lit "type")) with (VString ty).
  change (getProp _ (lit "weight")) with (VNumber w).
  cbn [nullish ToString ToNumber]. rewrite Ef, Et, Ety.
  unfold positiveFinite in Hw. rewrite Hw.
  apply streq_false_iff in Hne. rewrite Hne.
  destruct f; [contradiction|]. destruct t; [contradiction|].
  destruct ty; [contradiction|]. reflexivity.
Qed.
End ServerAndClient.

Section ServerResult.
Context {host : Host}.

Lemma studentsOf_proper (items : list value) (l : list jsstring) (s : jsstring) :
  AnalyzeRoute.studentsOf items = Some l -> In s l -> properName s.
Proof.
  revert l. induction items as [|v items IH]; intros l; cbn [AnalyzeRoute.studentsOf].
  - intros [= <-] [].
  - destruct (ToString (nullish v (VString []))) as [text|]; [|discriminate].
    destruct (AnalyzeRoute.studentsOf items) as [names|]; [|discriminate].
    intros [= <-] H.
    destruct (truthy_str (trim text)) eqn:Et; [|now apply (IH names)].
    destruct H as [<- | H]; [|now apply (IH names)].
    split; [|apply trim_idempotent]. intros E. now rewrite E in Et.
Qed.

Lemma relationshipsOf_kept (items : list value)
      (rs : list AnalyzeRoute.AnalyzeRelationship) (r : AnalyzeRoute.AnalyzeRelationship) :
  AnalyzeRoute.relationshipsOf items = Some rs ->
  In r rs ->
  properName (AnalyzeRoute.rel_from r) /\
  properName (AnalyzeRoute.rel_to r) /\
  properName (AnalyzeRoute.rel_type r) /\
  AnalyzeRoute.rel_from r <> AnalyzeRoute.rel_to r /\
  positiveFinite (AnalyzeRoute.rel_weight r) = true.
Proof.
  intros E H. destruct (in_relationshipsOf _ _ _ E H) as (rel & _ & Hr).
  now apply (normalizeRelationship_kept rel).
Qed.

Lemma questionTypesOf_None_iff (es : list (jsstring * value)) :
  forall acc,
    AnalyzeRoute.questionTypesOf es acc = None <->
    exists v, In v (map snd es) /\ printable v = false.
Proof.
  induction es as [|[key value] es IH]; intros acc;
    cbn [AnalyzeRoute.questionTypesOf map snd].
  - split; [discriminate | intros (v & [] & _)].
  - pose proof (ToString_None_iff (nullish value (VString []))) as Hv.
    rewrite printable_nullish in Hv.
    destruct (ToString (nullish value (VString []))) as [text|].
    + rewrite IH. split.
      * intros (v & Hin & Hp). exists v. split; [now right | assumption].
      * intros (v & [<- | Hin] & Hp); [|now exists v].
        apply Hv in Hp. discriminate.
    + split; [|reflexivity]. intros _. exists value. split; [now left | now apply Hv].
Qed.

Lemma map_snd_combine_seq (items : list value) :
  forall start,
    map snd (combine (map (fun i => intToString 10 (Z.of_nat i))
                          (seq start (length items))) items)
    = items.
Proof.
  induction items as [|v items IH]; intros start; [reflexivity|].
  cbn [length seq map combine snd]. now rewrite IH.
Qed.

(** The values that the loop over the types of the questions converts. *)
Lemma entries_values (payload : value) (v : value) :
  let raw := answerMetadata payload (lit "question_types") in
  In v (map snd (if truthy raw && typeofObject raw
                 then AnalyzeRoute.entries raw else [])) <->
  In v (questionTypeValues payload).
Proof.
  cbv zeta. unfold questionTypeValues.
  destruct (answerMetadata payload (lit "question_types")) as [| |b|x|s|items|props];
    try (cbn; tauto).
  - destruct b; cbn; tauto.
  - destruct (truthy (VNumber x)); cbn; tauto.
  - destruct (truthy (VString s)); cbn; tauto.
  - cbn [truthy typeofObject andb AnalyzeRoute.entries].
    now rewrite map_snd_combine_seq.
  - cbn [truthy typeofObject andb AnalyzeRoute.entries].
    rewrite map_map. cbn [snd]. rewrite !in_map_iff.
    destruct (fold_setAdd_spec (map fst props) [] (NoDup_nil _)) as [_ Hin].
    split.
    + intros (k & <- & Hk). apply Hin in Hk as [[] | Hk].
      apply in_map_iff in Hk as (kv & <- & Hkv). now exists kv.
    + intros (kv & <- & Hkv). exists (fst kv). split; [reflexivity|].
      apply Hin. right. now apply in_map.
Qed.

Lemma metadataMember_answer (payload : value) (k : jsstring) :
  AnalyzeRoute.metadataMember
    (if truthy payload && typeofObject payload then payload else VObject []) k
  = answerMetadata payload k.
Proof.
  unfold AnalyzeRoute.metadataMember, answerMetadata. cbv zeta.
  destruct (field _ (lit "metadata")) as [| |b|x|s|items|props]; try reflexivity.
  - now destruct b.
  - now destruct (truthy (VNumber x)).
  - now destruct (truthy (VString s)).
Qed.

(** The normaliser in terms of the arrays of the answer. *)
Lemma normalizeGeminiPayload_arrays (payload : value) :
  AnalyzeRoute.normalizeGeminiPayload payload
  = match AnalyzeRoute.studentsOf (arrayMember payload (lit "students")),
          AnalyzeRoute.relationshipsOf (arrayMember payload (lit "relationships")),
          (let raw := answerMetadata payload (lit "question_types") in
           AnalyzeRoute.questionTypesOf
             (if truthy raw && typeofObject raw then AnalyzeRoute.entries raw else []) []),
          AnalyzeRoute.studentsOf (noteValues payload) with
    | Some students, Some rs, Some _, Some _ =>
        Some (AnalyzeRoute.mkAnalyzeResult
                (fold_left AnalyzeRoute.addEnds rs (fold_left setAdd students [])) rs)
    | _, _, _, _ => None
    end.
Proof.
  unfold AnalyzeRoute.normalizeGeminiPayload, arrayMember, noteValues. cbv zeta.
  rewrite !metadataMember_answer.
  set (obj := if truthy payload && typeofObject payload then payload else VObject []).
  assert (Hs : match field obj (lit "students") with
               | VArray items => AnalyzeRoute.studentsOf items
               | _ => Some []
               end = AnalyzeRoute.studentsOf (arrayOrEmpty (field obj (lit "students"))))
    by (destruct (field obj (lit "students")); reflexivity).
  assert (Hr : match field obj (lit "relationships") with
               | VArray items => AnalyzeRoute.relationshipsOf items
               | _ => Some []
               end = AnalyzeRoute.relationshipsOf
                       (arrayOrEmpty (field obj (lit "relationships"))))
    by (destruct (field obj (lit "relationships")); reflexivity).
  assert (Hn : match answerMetadata payload (lit "normalization_notes") with
               | VArray items => AnalyzeRoute.studentsOf items
               | _ => Some []
               end = AnalyzeRoute.studentsOf
                       (arrayOrEmpty (answerMetadata payload (lit "normalization_notes"))))
    by (destruct (answerMetadata payload (lit "normalization_notes")); reflexivity).
  rewrite Hs, Hr, Hn.
  destruct (AnalyzeRoute.studentsOf (arrayOrEmpty (field obj (lit "students"))));
    [|reflexivity].
  destruct (AnalyzeRoute.relationshipsOf (arrayOrEmpty (field obj (lit "relationships"))));
    [|reflexivity].
  destruct (truthy (answerMetadata payload (lit "question_types"))
            && typeofObject (answerMetadata payload (lit "question_types")));
    cbn [AnalyzeRoute.questionTypesOf]; reflexivity.
Qed.

(** The result of the server in terms of its two lists. *)
Lemma normalizeGeminiPayload_parts (payload : value) (r : AnalyzeRoute.AnalyzeResult) :
  AnalyzeRoute.normalizeGeminiPayload payload = Some r ->
  exists students items,
    AnalyzeRoute.relationshipsOf items = Some (AnalyzeRoute.relationships r) /\
    (forall s, In s students -> properName s) /\
    AnalyzeRoute.students r
    = fold_left AnalyzeRoute.addEnds (AnalyzeRoute.relationships r)
                (fold_left setAdd students []).
Proof.
  rewrite normalizeGeminiPayload_arrays. cbv zeta.
  destruct (AnalyzeRoute.studentsOf (arrayMember payload (lit "students")))
    as [students|] eqn:Es; [|discriminate].
  destruct (AnalyzeRoute.relationshipsOf (arrayMember payload (lit "relationships")))
    as [rs|] eqn:Er; [|discriminate].
  destruct (AnalyzeRoute.questionTypesOf _ []); [|discriminate].
  destruct (AnalyzeRoute.studentsOf (noteValues payload)); [|discriminate].
  intros [= <-]. cbn [AnalyzeRoute.relationships AnalyzeRoute.students].
  exists students, (arrayMember payload (lit "relationships")).
  split; [assumption|]. split; [|reflexivity].
  intros s. apply (studentsOf_proper _ _ _ Es).
Qed.

Lemma normalizeGeminiPayload_students (payload : value) (r : AnalyzeRoute.AnalyzeResult) :
  AnalyzeRoute.normalizeGeminiPayload payload = Some r ->
  NoDup (AnalyzeRoute.students r) /\
  (forall s, In s (AnalyzeRoute.students r) -> properName s) /\
  (forall e, In e (AnalyzeRoute.relationships r) ->
     In (AnalyzeRoute.rel_from e) (AnalyzeRoute.students r) /\
     In (AnalyzeRoute.rel_to e) (AnalyzeRoute.students r)).
Proof.
  intros Hr.
  destruct (normalizeGeminiPayload_parts payload r Hr) as (students & items & Er & Hs & Es).
  rewrite Es.
  destruct (fold_setAdd_spec students [] (NoDup_nil _)) as [Hnd0 Hin0].
  destruct (addEnds_fold (AnalyzeRoute.relationships r) _ Hnd0) as [Hnd Hin].
  split; [assumption|]. split.
  - intros s H. apply Hin in H as [H | (e & He & H)].
    + apply Hin0 in H as [[] | H]. now apply Hs.
    + apply (relationshipsOf_kept _ _ _ Er) in He as (Hf & Ht & _).
      now destruct H; subst.
  - intros e He. split; apply Hin; right; exists e; auto.
Qed.

(** X14.  [normalizeGeminiPayload] throws exactly when [String] or [Number]
    does: on an entry of [students] that cannot be converted, on an entry
    of [relationships] with a member that cannot, or on a type of a
    question or a note of the metadata that cannot.  Otherwise its result
    is a closed graph over clean names: no student is listed twice, every
    name is trimmed and not empty, and every relationship joins two
    different listed students, with a type that is trimmed and not empty
    and a weight that is finite and positive. *)
Theorem normalizeGeminiPayload_closed (payload : value) :
  (AnalyzeRoute.normalizeGeminiPayload payload = None <-> unreadableAnswer payload) /\
  (forall r, AnalyzeRoute.normalizeGeminiPayload payload = Some r ->
     NoDup (AnalyzeRoute.students r) /\
     (forall s, In s (AnalyzeRoute.students r) -> properName s) /\
     (forall e, In e (AnalyzeRoute.relationships r) ->
        AnalyzeRoute.rel_from e <> AnalyzeRoute.rel_to e /\
        In (AnalyzeRoute.rel_from e) (AnalyzeRoute.students r) /\
        In (AnalyzeRoute.rel_to e) (AnalyzeRoute.students r) /\
        properName (AnalyzeRoute.rel_type e) /\
        positiveFinite (AnalyzeRoute.rel_weight e) = true)).
Proof.
  split.
  - rewrite normalizeGeminiPayload_arrays. cbv zeta. unfold unreadableAnswer.
    pose proof (studentsOf_None_iff (arrayMember payload (lit "students"))) as Hs.
    pose proof (relationshipsOf_None_iff (arrayMember payload (lit "relationships")))
      as Hr.
    pose proof (questionTypesOf_None_iff
                  (if truthy (answerMetadata payload (lit "question_types"))
                      && typeofObject (answerMetadata payload (lit "question_types"))
                   then AnalyzeRoute.entries (answerMetadata payload (lit "question_types"))
                   else []) []) as Hq.
    assert (Hq' : AnalyzeRoute.questionTypesOf
                    (if truthy (answerMetadata payload (lit "question_types"))
                        && typeofObject (answerMetadata payload (lit "question_types"))
                     then AnalyzeRoute.entries
                            (answerMetadata payload (lit "question_types"))
                     else []) [] = None <->
                  exists v, In v (questionTypeValues payload) /\ printable v = false).
    { rewrite Hq. split; intros (v & Hin & Hp); exists v; split; auto;
        now apply (entries_values payload v). }
    clear Hq.
    pose proof (studentsOf_None_iff (noteValues payload)) as Hn.
    destruct (AnalyzeRoute.studentsOf (arrayMember payload (lit "students")));
      [|split; [intros _; left; now apply Hs | reflexivity]].
    destruct (AnalyzeRoute.relationshipsOf (arrayMember payload (lit "relationships")));
      [|split; [intros _; right; left; now apply Hr | reflexivity]].
    destruct (AnalyzeRoute.questionTypesOf _ []);
      [|split; [intros _; right; right; left; now apply Hq' | reflexivity]].
    destruct (AnalyzeRoute.studentsOf (noteValues payload));
      [|split; [intros _; right; right; right; now apply Hn | reflexivity]].
    split; [discriminate|].
    intros [H | [H | [H | H]]].
    + apply Hs in H. discriminate.
    + apply Hr in H. discriminate.
    + apply Hq' in H. discriminate.
    + apply Hn in H. discriminate.
  - intros r Hr.
    destruct (normalizeGeminiPayload_students payload r Hr) as (Hnd & Hp & Hends).
    split; [assumption|]. split; [assumption|].
    intros e He. destruct (Hends e He) as [Hf Ht].
    destruct (normalizeGeminiPayload_parts payload r Hr) as (students & items & Er & _ & _).
    apply (relationshipsOf_kept _ _ _ Er) in He as (_ & _ & Hty & Hne & Hw).
    auto.
Qed.

Lemma addEndpoints_present (cs : list Parser.CanonicalEdge) (set : list jsstring) :
  (forall c, In c cs -> In (Parser.c_source c) set /\ In (Parser.c_target c) set) ->
  fold_left Parser.addEndpoints cs set = set.
Proof.
  induction cs as [|c cs IH]; intros H; cbn [fold_left]; [reflexivity|].
  destruct (H c (or_introl eq_refl)) as [Hs Ht].
  unfold Parser.addEndpoints at 2.
  rewrite (setAdd_present set _ Hs), (setAdd_present set _ Ht).
  apply IH. intros c' Hc'. apply H. now right.
Qed.

Lemma addStudent_strings (names : list jsstring) :
  (forall s, In s names -> properName s) ->
  forall set,
    Parser.addStudents (map VString names) set = Some (fold_left setAdd names set).
Proof.
  induction names as [|n names IH]; intros H set;
    cbn [fold_left map Parser.addStudents]; [reflexivity|].
  destruct (H n (or_introl eq_refl)) as [Hn En].
  unfold Parser.addStudent. cbn [nullish ToString]. rewrite En.
  destruct n; [contradiction|]. cbn [truthy_str].
  apply IH. intros s Hs. apply H. now right.
Qed.

Lemma canonicalEdgesOf_response (rs : list AnalyzeRoute.AnalyzeRelationship) :
  (forall r, In r rs ->
     properName (AnalyzeRoute.rel_from r) /\
     properName (AnalyzeRoute.rel_to r) /\
     properName (AnalyzeRoute.rel_type r) /\
     AnalyzeRoute.rel_from r <> AnalyzeRoute.rel_to r /\
     positiveFinite (AnalyzeRoute.rel_weight r) = true) ->
  Parser.canonicalEdgesOf (map relationshipValue rs) = Some (map canonicalOf rs).
Proof.
  induction rs as [|r rs IH]; intros H; cbn [map Parser.canonicalEdgesOf]; [reflexivity|].
  destruct (H r (or_introl eq_refl)) as (Hf & Ht & Hty & Hne & Hw).
  rewrite client_reads_relationship by assumption.
  rewrite IH; [reflexivity|]. intros r' Hr'. apply H. now right.
Qed.

(** X15.  The client repeats the normalisation of the server on the response
    and changes nothing: every relationship of the server passes the
    client's normaliser as it is, in order, and the set of canonical names
    that the client collects is the student list of the server, in order.
    The node count of the client is the student count that the route
    reports on.  ([r] is the result of the server; the client's loops
    return on it.) *)
Theorem client_reads_server_response (payload : value) (r : AnalyzeRoute.AnalyzeResult) :
  AnalyzeRoute.normalizeGeminiPayload payload = Some r ->
  Parser.canonicalEdgesOf (responseRelationships r)
  = Some (map canonicalOf (AnalyzeRoute.relationships r)) /\
  Parser.canonicalNameSet (responseStudents r)
    (map canonicalOf (AnalyzeRoute.relationships r))
  = Some (AnalyzeRoute.students r).
Proof.
  intros Hr.
  destruct (normalizeGeminiPayload_students payload r Hr) as (Hnd & Hp & Hends).
  destruct (normalizeGeminiPayload_parts payload r Hr) as (students & items & Er & _ & _).
  split.
  { unfold responseRelationships. apply canonicalEdgesOf_response.
    intros e He. now apply (relationshipsOf_kept _ _ _ Er). }
  unfold Parser.canonicalNameSet, responseStudents.
  rewrite addStudent_strings by assumption.
  rewrite fold_setAdd_distinct by assumption. cbn [app]. f_equal.
  apply addEndpoints_present. intros c Hc.
  apply in_map_iff in Hc as [e [<- He]]. cbn [canonicalOf Parser.c_source Parser.c_target].
  now apply Hends.
Qed.
End ServerResult.

Section ServerResultExamples.
#[local] Existing Instance Examples.asciiHost.

(** A witness of X15: the model lists Carol and reports that Alice names
    Bob, with names to trim and a weight to replace. *)
Lemma client_reads_server_response_witness :
  let r := AnalyzeRoute.mkAnalyzeResult
             [lit "Carol"; Examples.alice; Examples.bob]
             [AnalyzeRoute.mkRelationship Examples.alice Examples.bob
                (lit "friend") 1%float] in
  AnalyzeRoute.normalizeGeminiPayload
    (VObject [(lit "students", VArray [VString (lit " Carol "); VNull]);
              (lit "relationships",
               VArray [VObject [(lit "from", VString (lit "Alice "));
                                (lit "to", VString (lit " Bob"));
                                (lit "type", VString (lit "friend"));
                                (lit "weight", VNumber (-1)%float)]])]) = Some r /\
  Parser.canonicalEdgesOf (responseRelationships r)
  = Some (map canonicalOf (AnalyzeRoute.relationships r)) /\
  Parser.canonicalNameSet (responseStudents r)
    (map canonicalOf (AnalyzeRoute.relationships r))
  = Some (AnalyzeRoute.students r).
Proof.
  cbv zeta. split; [vm_compute; reflexivity|].
  apply (client_reads_server_response
           (VObject [(lit "students", VArray [VString (lit " Carol "); VNull]);
                     (lit "relationships",
                      VArray [VObject [(lit "from", VString (lit "Alice "));
                                       (lit "to", VString (lit " Bob"));
                                       (lit "type", VString (lit "friend"));
                                       (lit "weight", VNumber (-1)%float)]])])).
  vm_compute. reflexivity.
Defined.

(** An answer of the model on which the normaliser throws: a student that
    is an object with a member [toString]. *)
Lemma normalizeGeminiPayload_throws :
  AnalyzeRoute.normalizeGeminiPayload
    (VObject [(lit "students",
               VArray [VObject [(lit "toString", VNull); (lit "valueOf", VNull)]])])
  = None.
Proof. vm_compute. reflexivity. Qed.
End ServerResultExamples.

(** ** The CSV path *)

Lemma targetsOf_proper (response t : jsstring) :
  In t (CsvParser.targetsOf response) -> properName t.
Proof.
  unfold CsvParser.targetsOf. intros H. apply filter_In in H as [Hin Ht].
  apply in_map_iff in Hin as [p [<- _]].
  split; [|apply trim_idempotent]. intros E. now rewrite E in Ht.
Qed.

Lemma cellText_proper (row : CsvParser.Row) (col s : jsstring) :
  CsvParser.cellText row col = CsvParser.Resolve s -> truthy_str s = true -> properName s.
Proof.
  unfold CsvParser.cellText. intros H Hs.
  assert (E : exists x, s = trim x).
  { destruct (CsvParser.getCell row col) as [[s0|items]| |]; try discriminate;
      injection H as <-; eauto. }
  destruct E as [x ->]. split; [|apply trim_idempotent].
  intros E. now rewrite E in Hs.
Qed.

Section CsvLoop.
Context {host : Host}.
Variable data : list CsvParser.Row.

Lemma getRelType_known (col : jsstring) : In (CsvParser.getRelType col) relationTypes.
Proof.
  unfold CsvParser.getRelType, relationTypes.
  destruct (find _ CsvParser.typeMap) as [entry|] eqn:E.
  - apply find_some in E as [Hin _]. apply in_or_app. left. now apply in_map.
  - apply in_or_app. right. now left.
Qed.

(** What holds of the pair ([nodeSet], [rawEdges]) all along the loop. *)
#[local] Abbreviation inv := (fun st : CsvParser.State =>
  NoDup (fst st) /\
  (forall n, In n (fst st) -> properName n) /\
  (forall e, In e (snd st) ->
     source e <> target e /\ In (source e) (fst st) /\ In (target e) (fst st) /\
     fromCell data e)).

#[local] Abbreviation whenResolved := (fun (P : CsvParser.State -> Prop)
                                        (acc : CsvParser.Outcome CsvParser.State) =>
  match acc with
  | CsvParser.Resolve st => P st
  | CsvParser.Reject _ => True
  end).

Lemma inv_setAdd (st : CsvParser.State) (n : jsstring) (edges : list Edge) :
  inv st -> properName n ->
  (forall e, In e edges ->
     In e (snd st) \/
     (source e <> target e /\ In (source e) (setAdd (fst st) n) /\
      In (target e) (setAdd (fst st) n) /\ fromCell data e)) ->
  inv (setAdd (fst st) n, edges).
Proof.
  intros (Hnd & Hp & He) Hn Hedges. cbn [fst snd].
  split; [now apply NoDup_setAdd|]. split.
  - intros m Hm. apply In_setAdd in Hm as [Hm | ->]; auto.
  - intros e Hin. destruct (Hedges e Hin) as [Hold | Hnew]; [|assumption].
    destruct (He e Hold) as (H1 & H2 & H3 & H4).
    split; [assumption|]. split; [apply In_setAdd; now left|].
    split; [apply In_setAdd; now left | assumption].
Qed.

Lemma targets_inv (row : CsvParser.Row) (col response sourceName : jsstring)
      (targets : list jsstring) :
  In row data -> In col (relationshipColumns data) ->
  CsvParser.cellText row (respondentColumn data) = CsvParser.Resolve sourceName ->
  CsvParser.cellText row col = CsvParser.Resolve response ->
  (forall t, In t targets -> In t (CsvParser.targetsOf response)) ->
  forall st,
    inv st /\ In sourceName (fst st) ->
    inv (fold_left (CsvParser.targetStep sourceName (CsvParser.getRelType col)) targets st)
    /\ In sourceName
          (fst (fold_left (CsvParser.targetStep sourceName (CsvParser.getRelType col))
                          targets st)).
Proof.
  intros Hrow Hcol Hsrc Hresp.
  induction targets as [|t targets IH]; intros Hts st [Hinv Hs]; cbn [fold_left];
    [now split|].
  apply IH; [intros t' Ht'; apply Hts; now right|].
  unfold CsvParser.targetStep.
  destruct (truthy_str t && negb (streq t sourceName)) eqn:E; [|now split].
  apply andb_true_iff in E as [_ Hne]. apply negb_true_iff, streq_false_iff in Hne.
  assert (Ht : In t (CsvParser.targetsOf response)) by (apply Hts; now left).
  split; [|cbn [fst]; apply In_setAdd; now left].
  apply inv_setAdd; [assumption | now apply (targetsOf_proper response) |].
  intros e He. apply in_app_or in He as [He | [<- | []]]; [now left | right].
  cbn [source target].
  split; [congruence|]. split; [apply In_setAdd; now left|].
  split; [apply In_setAdd; now right|].
  exists row, col, response. cbn [source target type]. auto 7.
Qed.

Lemma cols_inv (row : CsvParser.Row) (sourceName : jsstring) (cols : list jsstring) :
  In row data ->
  CsvParser.cellText row (respondentColumn data) = CsvParser.Resolve sourceName ->
  (forall col, In col cols -> In col (relationshipColumns data)) ->
  forall acc,
    whenResolved (fun st => inv st /\ In sourceName (fst st)) acc ->
    whenResolved (fun st => inv st /\ In sourceName (fst st))
                 (fold_left (CsvParser.colStep row sourceName) cols acc).
Proof.
  intros Hrow Hsrc.
  induction cols as [|col cols IH]; intros Hcols acc Hacc; cbn [fold_left];
    [assumption|].
  apply IH; [intros c Hc; apply Hcols; now right|].
  destruct acc as [st|e]; [|exact I]. cbn [CsvParser.colStep CsvParser.bind].
  unfold CsvParser.colStep. cbn [CsvParser.bind].
  destruct (CsvParser.cellText row col) as [response|e] eqn:Er; [|exact I].
  cbn [CsvParser.bind].
  destruct (negb (truthy_str response)); [assumption|]. cbv beta.
  apply (targets_inv row col response); auto. apply Hcols. now left.
Qed.

Lemma rows_inv (rows : list CsvParser.Row) :
  (forall row, In row rows -> In row data) ->
  forall acc,
    whenResolved inv acc ->
    whenResolved inv
      (fold_left (CsvParser.rowStep (respondentColumn data) (relationshipColumns data))
                 rows acc).
Proof.
  induction rows as [|row rows IH]; intros Hrows acc Hacc; cbn [fold_left];
    [assumption|].
  apply IH; [intros r Hr; apply Hrows; now right|].
  destruct acc as [st|e]; [|exact I].
  unfold CsvParser.rowStep. cbn [CsvParser.bind].
  destruct (CsvParser.cellText row (respondentColumn data)) as [sourceName|e] eqn:Es;
    [|exact I].
  cbn [CsvParser.bind].
  destruct (truthy_str sourceName) eqn:Et; cbn [negb]; [|assumption].
  assert (Hrow : In row data) by (apply Hrows; now left).
  pose proof (cols_inv row sourceName (relationshipColumns data) Hrow Es
                (fun col H => H)
                (CsvParser.Resolve (setAdd (fst st) sourceName, snd st))) as H.
  destruct (fold_left _ _ _) as [st'|e]; [|exact I].
  apply H. split; [|cbn [fst]; apply In_setAdd; now right].
  apply inv_setAdd; [assumption | now apply (cellText_proper row (respondentColumn data)) |].
  intros e He. now left.
Qed.

(** [processCsvData] resolves exactly when the loop does, with the nodes
    and edges made of the final pair. *)
Lemma processCsvData_resolved (r : Parser.ParseResult) :
  CsvParser.processCsvData data = CsvParser.Resolve r ->
  exists st,
    fold_left (CsvParser.rowStep (respondentColumn data) (relationshipColumns data))
              data (CsvParser.Resolve ([], []))
    = CsvParser.Resolve st /\
    r = Parser.mkParseResult (map (fun name => freshNode name name) (fst st))
                             (Parser.mergeCsvEdges (snd st)).
Proof.
  unfold CsvParser.processCsvData, relationshipColumns, respondentColumn.
  destruct data as [|row0 rest] eqn:Ed; [discriminate|]. cbn [hd].
  destruct (length (CsvParser.columnsOf row0) <? 2)%nat; [discriminate|].
  destruct (CsvParser.relationshipColsOf _ _) as [|c cs] eqn:Ec; [discriminate|].
  destruct (fold_left _ _ _) as [st|e]; cbn [CsvParser.bind]; [|discriminate].
  intros [= <-]. now exists st.
Qed.

Lemma mergeCsvEdges_from_raw (rawEdges : list Edge) (e : Edge) :
  In e (Parser.mergeCsvEdges rawEdges) ->
  exists e0, In e0 rawEdges /\ triple e = triple e0.
Proof.
  rewrite mergeCsvEdges_merged. intros He.
  apply in_map_iff in He as [[k e'] [E Hin]]. cbn [snd] in E. subst e'.
  apply In_mapGet in Hin; [|apply merged_keys_NoDup].
  destruct (merged_triple _ _ _ _ _ Hin) as (x & e0 & Hx & Hp & Ht).
  unfold csvFiled in Hp. injection Hp as _ <-. now exists x.
Qed.

Lemma fromCell_triple (e e0 : Edge) : triple e = triple e0 -> fromCell data e0 -> fromCell data e.
Proof.
  unfold triple. intros [= Es Et Ety] (row & col & response & H).
  exists row, col, response. now rewrite Es, Et, Ety.
Qed.

Lemma processCsvData_spec (r : Parser.ParseResult) :
  CsvParser.processCsvData data = CsvParser.Resolve r ->
  closedResult r /\
  (forall n, In n (Parser.nodes r) -> id n = name n /\ label n = name n) /\
  (forall e, In e (Parser.edges r) -> fromCell data e).
Proof.
  intros Hr. destruct (processCsvData_resolved r Hr) as (st & Hst & ->).
  pose proof (rows_inv data (fun row H => H) (CsvParser.Resolve ([], []))) as Hinv.
  rewrite Hst in Hinv. cbv beta in Hinv.
  destruct Hinv as (Hnd & Hp & He).
  { split; [constructor|]. split; intros ? []. }
  cbn [Parser.nodes Parser.edges].
  assert (Hids : map id (map (fun name => freshNode name name) (fst st)) = fst st).
  { rewrite map_map. cbn [id freshNode]. apply map_id. }
  assert (Hedge : forall e, In e (Parser.mergeCsvEdges (snd st)) ->
            source e <> target e /\ In (source e) (fst st) /\ In (target e) (fst st) /\
            fromCell data e).
  { intros e Hin. apply mergeCsvEdges_from_raw in Hin as (e0 & Hin0 & Ht).
    destruct (He e0 Hin0) as (H1 & H2 & H3 & H4).
    pose proof (fromCell_triple e e0 Ht H4) as H5.
    unfold triple in Ht. injection Ht as -> -> _. auto. }
  split; [|split].
  - unfold closedResult. cbn [Parser.nodes Parser.edges]. rewrite Hids.
    split; [assumption|]. split.
    + intros n Hn. apply in_map_iff in Hn as [m [<- Hm]]. cbn [name freshNode].
      now apply Hp.
    + intros e Hin. destruct (Hedge e Hin) as (H1 & H2 & H3 & _). auto.
  - intros n Hn. apply in_map_iff in Hn as [m [<- Hm]]. now split.
  - intros e Hin. now apply Hedge.
Qed.
End CsvLoop.

Section CsvResult.
Context {host : Host}.

(** X16.  When [processCsvData] resolves, its result is a closed graph: no
    two nodes with one id, every node named by a trimmed, non-empty string
    that is also its id and its label, and every edge between two different
    nodes of the result.  [analyzeNetwork] then leaves none of these edges
    out of its graph. *)
Theorem processCsvData_result_closed (data : list CsvParser.Row) (r : Parser.ParseResult) :
  CsvParser.processCsvData data = CsvParser.Resolve r ->
  closedResult r /\
  (forall n, In n (Parser.nodes r) -> id n = name n /\ label n = name n) /\
  keptEdges (map id (Parser.nodes r)) (Parser.edges r) = Parser.edges r.
Proof.
  intros Hr. destruct (processCsvData_spec data r Hr) as (Hc & Hn & _).
  split; [assumption|]. split; [assumption|].
  apply keptEdges_all. intros e He.
  destruct Hc as (_ & _ & Hends). destruct (Hends e He) as (_ & Hs & Ht). auto.
Qed.

(** X17.  No edge is invented: every edge of the result was read from a
    cell.  Its source is the trimmed respondent cell of a row, its target
    one of the names listed in a relationship column of that same row, and
    its type the type of that column, one of the ten types of [getRelType]. *)
Theorem processCsvData_edges_from_cells
  (data : list CsvParser.Row) (r : Parser.ParseResult) :
  CsvParser.processCsvData data = CsvParser.Resolve r ->
  Forall (fun e => fromCell data e /\ In (type e) relationTypes) (Parser.edges r).
Proof.
  intros Hr. apply Forall_forall. intros e He.
  destruct (processCsvData_spec data r Hr) as (_ & _ & Hcell).
  pose proof (Hcell e He) as Hf. split; [assumption|].
  destruct Hf as (row & col & response & _ & _ & _ & _ & _ & ->).
  apply getRelType_known.
Qed.

Lemma cellText_resolves (row : CsvParser.Row) (col : jsstring) :
  setHas JSObject.objectPrototypeKeys col = false ->
  (forall items, mapGet row col <> Some (CsvParser.Fields items)) ->
  exists s, CsvParser.cellText row col = CsvParser.Resolve s.
Proof.
  intros H Hf. unfold CsvParser.cellText, CsvParser.getCell, JSObject.get.
  destruct (mapGet row col) as [[s|items]|]; [eauto | now destruct (Hf items) |].
  rewrite H. eauto.
Qed.

Lemma cols_resolve (row : CsvParser.Row) (sourceName : jsstring) (cols : list jsstring) :
  (forall col, In col cols -> setHas JSObject.objectPrototypeKeys col = false) ->
  (forall col items, In col cols -> mapGet row col <> Some (CsvParser.Fields items)) ->
  forall st, exists st',
    fold_left (CsvParser.colStep row sourceName) cols (CsvParser.Resolve st)
    = CsvParser.Resolve st'.
Proof.
  induction cols as [|col cols IH]; intros H Hf st; cbn [fold_left]; [eauto|].
  unfold CsvParser.colStep at 2. cbn [CsvParser.bind].
  destruct (cellText_resolves row col (H col (or_introl eq_refl))
              (fun items => Hf col items (or_introl eq_refl))) as [response ->].
  cbn [CsvParser.bind].
  destruct (negb (truthy_str response)); apply IH;
    try (intros c Hc; apply H; now right);
    try (intros c items Hc; apply Hf; now right).
Qed.

Lemma rows_resolve (respondentCol : jsstring) (cols : list jsstring)
      (rows : list CsvParser.Row) :
  setHas JSObject.objectPrototypeKeys respondentCol = false ->
  (forall col, In col cols -> setHas JSObject.objectPrototypeKeys col = false) ->
  (forall row col items, In row rows -> col = respondentCol \/ In col cols ->
     mapGet row col <> Some (CsvParser.Fields items)) ->
  forall st, exists st',
    fold_left (CsvParser.rowStep respondentCol cols) rows (CsvParser.Resolve st)
    = CsvParser.Resolve st'.
Proof.
  intros Hr Hc. induction rows as [|row rows IH]; intros Hf st; cbn [fold_left];
    [eauto|].
  assert (Hrest : forall row' col items, In row' rows ->
            col = respondentCol \/ In col cols ->
            mapGet row' col <> Some (CsvParser.Fields items)).
  { intros row' col items Hin. apply Hf. now right. }
  unfold CsvParser.rowStep at 2. cbn [CsvParser.bind].
  destruct (cellText_resolves row respondentCol Hr
              (fun items => Hf row respondentCol items (or_introl eq_refl)
                               (or_introl eq_refl))) as [sourceName ->].
  cbn [CsvParser.bind].
  destruct (negb (truthy_str sourceName)); [now apply IH|].
  set (acc := fold_left (CsvParser.colStep row sourceName) cols _).
  assert (H : exists st', acc = CsvParser.Resolve st').
  { apply cols_resolve; [assumption|].
    intros col items Hcol. apply Hf; [now left | now right]. }
  destruct H as [st' ->]. now apply IH.
Qed.

Lemma respondentColOf_in (columns : list jsstring) :
  columns <> [] -> In (CsvParser.respondentColOf columns) columns.
Proof.
  intros Hne. unfold CsvParser.respondentColOf.
  assert (Hhd : In (hd [] columns) columns) by (destruct columns; [contradiction | now left]).
  destruct (find _ columns) as [col|] eqn:E; [|assumption].
  destruct (truthy_str col); [|assumption].
  now apply find_some in E as [Hin _].
Qed.

(** X18.  When the table has a row, two columns at least and a relationship
    column, no column is named like a member of [Object.prototype], and no
    row holds an array under the name of a column (as a row does under
    [__parsed_extra] when its line has more fields than the header),
    [processCsvData] resolves: none of the three errors is thrown and every
    cell that the loop reads is a string or absent. *)
Theorem processCsvData_resolves (data : list CsvParser.Row) :
  data <> [] ->
  (2 <= length (hd [] data))%nat ->
  relationshipColumns data <> [] ->
  (forall col, In col (CsvParser.columnsOf (hd [] data)) ->
     setHas JSObject.objectPrototypeKeys col = false) ->
  Forall (fun row =>
            Forall (fun col => forall items,
                      mapGet row col <> Some (CsvParser.Fields items))
                   (CsvParser.columnsOf (hd [] data)))
         data ->
  exists r, CsvParser.processCsvData data = CsvParser.Resolve r.
Proof.
  unfold relationshipColumns, respondentColumn, CsvParser.processCsvData.
  destruct data as [|row0 rest]; [contradiction|]. cbn [hd].
  intros _ Hlen Hrel Hproto Hfields.
  assert (Hcols : length (CsvParser.columnsOf row0) = length row0)
    by apply length_map.
  destruct (Nat.ltb_spec (length (CsvParser.columnsOf row0)) 2) as [Hlt | _]; [lia|].
  set (columns := CsvParser.columnsOf row0) in *.
  set (respondentCol := CsvParser.respondentColOf columns) in *.
  assert (Hresp : In respondentCol columns).
  { apply respondentColOf_in. intros E. rewrite E in Hcols. cbn in Hcols. lia. }
  destruct (CsvParser.relationshipColsOf columns respondentCol) as [|c cs] eqn:Ec;
    [contradiction|].
  assert (Hsub : forall col, In col (c :: cs) -> In col columns).
  { intros col Hcol. rewrite <- Ec in Hcol.
    unfold CsvParser.relationshipColsOf in Hcol.
    now apply filter_In in Hcol as [Hin _]. }
  set (acc := fold_left _ (row0 :: rest) _).
  assert (H : exists st, acc = CsvParser.Resolve st).
  { apply rows_resolve.
    - now apply Hproto.
    - intros col Hcol. apply Hproto. now apply Hsub.
    - intros row col items Hrow Hcol.
      rewrite Forall_forall in Hfields. specialize (Hfields row Hrow).
      rewrite Forall_forall in Hfields. apply Hfields.
      destruct Hcol as [-> | Hcol]; [assumption | now apply Hsub]. }
  destruct H as [st ->]. cbn [CsvParser.bind]. eauto.
Qed.

Lemma rows_reject (respondentCol : jsstring) (cols : list jsstring)
      (rows : list CsvParser.Row) (e : CsvParser.CsvError) :
  fold_left (CsvParser.rowStep respondentCol cols) rows (CsvParser.Reject e)
  = CsvParser.Reject e.
Proof. induction rows as [|row rows IH]; cbn [fold_left]; [reflexivity | exact IH]. Qed.

(** X19.  The rows are read under the trimmed name of the respondent column.
    When no row has a property of that name (the header of the file has
    white space around it), every respondent cell reads as empty, every row
    is skipped, and the function resolves with no node and no edge instead
    of reporting an error. *)
Theorem untrimmed_respondent_header_reads_nothing
  (data : list CsvParser.Row) (r : Parser.ParseResult) :
  CsvParser.processCsvData data = CsvParser.Resolve r ->
  (forall row, In row data -> mapGet row (respondentColumn data) = None) ->
  Parser.nodes r = [] /\ Parser.edges r = [].
Proof.
  intros Hr Hmiss. destruct (processCsvData_resolved data r Hr) as (st & Hst & ->).
  assert (H : forall rows, (forall row, In row rows -> In row data) ->
            forall st',
              fold_left (CsvParser.rowStep (respondentColumn data) (relationshipColumns data))
                        rows (CsvParser.Resolve ([], []))
              = CsvParser.Resolve st' -> st' = ([], [])).
  { induction rows as [|row rows IH]; intros Hrows st'; cbn [fold_left].
    - now intros [= <-].
    - unfold CsvParser.rowStep at 2. cbn [CsvParser.bind].
      unfold CsvParser.cellText, CsvParser.getCell, JSObject.get.
      rewrite (Hmiss row (Hrows row (or_introl eq_refl))).
      destruct (setHas JSObject.objectPrototypeKeys (respondentColumn data));
        cbn [CsvParser.bind].
      + rewrite rows_reject. discriminate.
      + change (trim []) with (@nil Z). cbn [truthy_str negb].
        apply IH. intros r' Hr'. apply Hrows. now right. }
  rewrite (H data (fun row Hrow => Hrow) st Hst). split; reflexivity.
Qed.
End CsvResult.

Section CsvExamples.
#[local] Existing Instance Examples.asciiHost.

(** Two answers of a survey: Alice names Bob and Carol, Bob names Alice
    twice. *)
Lemma processCsvData_example :
  CsvParser.processCsvData Examples.survey
  = CsvParser.Resolve
      (Parser.mkParseResult
         [Examples.aliceNode; Examples.bobNode; Examples.carolNode]
         [mkEdge Examples.alice Examples.bob (lit "general") 1%float;
          mkEdge Examples.alice Examples.carol (lit "general") 1%float;
          mkEdge Examples.bob Examples.alice (lit "general") 2%float]).
Proof. vm_compute. reflexivity. Qed.

(** A witness of X16: the survey. *)
Lemma processCsvData_result_closed_witness :
  closedResult
    (Parser.mkParseResult
       [Examples.aliceNode; Examples.bobNode; Examples.carolNode]
       [mkEdge Examples.alice Examples.bob (lit "general") 1%float;
        mkEdge Examples.alice Examples.carol (lit "general") 1%float;
        mkEdge Examples.bob Examples.alice (lit "general") 2%float]) /\
  (forall n,
     In n (Parser.nodes
             (Parser.mkParseResult
                [Examples.aliceNode; Examples.bobNode; Examples.carolNode]
                [mkEdge Examples.alice Examples.bob (lit "general") 1%float;
                 mkEdge Examples.alice Examples.carol (lit "general") 1%float;
                 mkEdge Examples.bob Examples.alice (lit "general") 2%float])) ->
     id n = name n /\ label n = name n) /\
  keptEdges
    (map id (Parser.nodes
               (Parser.mkParseResult
                  [Examples.aliceNode; Examples.bobNode; Examples.carolNode]
                  [mkEdge Examples.alice Examples.bob (lit "general") 1%float;
                   mkEdge Examples.alice Examples.carol (lit "general") 1%float;
                   mkEdge Examples.bob Examples.alice (lit "general") 2%float])))
    (Parser.edges
       (Parser.mkParseResult
          [Examples.aliceNode; Examples.bobNode; Examples.carolNode]
          [mkEdge Examples.alice Examples.bob (lit "general") 1%float;
           mkEdge Examples.alice Examples.carol (lit "general") 1%float;
           mkEdge Examples.bob Examples.alice (lit "general") 2%float]))
  = Parser.edges
      (Parser.mkParseResult
         [Examples.aliceNode; Examples.bobNode; Examples.carolNode]
         [mkEdge Examples.alice Examples.bob (lit "general") 1%float;
          mkEdge Examples.alice Examples.carol (lit "general") 1%float;
          mkEdge Examples.bob Examples.alice (lit "general") 2%float]).
Proof.
  apply (processCsvData_result_closed Examples.survey). vm_compute. reflexivity.
Defined.

(** A witness of X17: the survey. *)
Lemma processCsvData_edges_from_cells_witness :
  Forall (fun e => fromCell Examples.survey e /\ In (type e) relationTypes)
         [mkEdge Examples.alice Examples.bob (lit "general") 1%float;
          mkEdge Examples.alice Examples.carol (lit "general") 1%float;
          mkEdge Examples.bob Examples.alice (lit "general") 2%float].
Proof.
  apply (processCsvData_edges_from_cells Examples.survey
           (Parser.mkParseResult
              [Examples.aliceNode; Examples.bobNode; Examples.carolNode]
              [mkEdge Examples.alice Examples.bob (lit "general") 1%float;
               mkEdge Examples.alice Examples.carol (lit "general") 1%float;
               mkEdge Examples.bob Examples.alice (lit "general") 2%float])).
  vm_compute. reflexivity.
Defined.

(** A witness of X18: the survey. *)
Lemma processCsvData_resolves_witness :
  exists r, CsvParser.processCsvData Examples.survey = CsvParser.Resolve r.
Proof.
  apply (processCsvData_resolves Examples.survey).
  - discriminate.
  - simpl. lia.
  - vm_compute. discriminate.
  - intros col Hcol. vm_compute in Hcol.
    repeat (destruct Hcol as [<- | Hcol]; [vm_compute; reflexivity|]). contradiction.
  - repeat constructor; intros items; vm_compute; discriminate.
Defined.

(** A line with more fields than the header: the first row holds the two
    extra fields as an array under [__parsed_extra], which is then a
    relationship column, and the promise is rejected by the [TypeError] of
    [.trim()]. *)
Lemma extra_fields_reject :
  CsvParser.processCsvData
    [[(lit "name", CsvParser.Text (lit "Alice"));
      (lit "friend", CsvParser.Text (lit "Bob"));
      (lit "__parsed_extra", CsvParser.Fields [lit "Carol"; lit "Dave"])]]
  = CsvParser.Reject CsvParser.TrimIsNotAFunction.
Proof. vm_compute. reflexivity. Qed.

(** A witness of X19: the header [" name"], with a space in front. *)
Lemma untrimmed_respondent_header_reads_nothing_witness :
  Parser.nodes (Parser.mkParseResult [] []) = [] /\
  Parser.edges (Parser.mkParseResult [] []) = [].
Proof.
  apply (untrimmed_respondent_header_reads_nothing Examples.untrimmedSurvey).
  - vm_compute. reflexivity.
  - intros row [<- | []]. vm_compute. reflexivity.
Defined.
End CsvExamples.

(** ** No nomination is lost on the CSV path *)

Section CsvComplete.
Context {host : Host}.






End CsvComplete.

Section CsvCompleteExamples.
#[local] Existing Instance Examples.asciiHost.


(** Why the headers must be trimmed: under the header [" friend"] the
    nomination of Bob is read under the name ["friend"], which no row has,
    and the table resolves with Alice alone and no edge. *)
Lemma untrimmed_header_loses_a_nomination :
  CsvParser.processCsvData
    [[(lit "name", CsvParser.Text (lit "Alice"));
      (lit " friend", CsvParser.Text (lit "Bob"))]]
  = CsvParser.Resolve (Parser.mkParseResult [Examples.aliceNode] []).
Proof. vm_compute. reflexivity. Qed.
End CsvCompleteExamples.

(** ** The upload *)

Section Upload.
Context {host : Host} {lib : G.Metrics}.

(** X21.  [handleFileUpload] throws exactly when [processWithGemini] does:
    on a body that is [null], on a relationship with a member that cannot
    be converted, on a student or on a quality signal that cannot.
    Otherwise the upload keeps every student when the UUIDs of the run do
    not repeat: it hands on one node for every canonical name, in order, no
    two with one id, and every edge between two different nodes; the graph
    of the analysis holds all the edges. *)
Theorem upload_keeps_every_student
  (randomUUID : nat -> jsstring) (payload : value) :
  (forall i j, randomUUID i = randomUUID j -> i = j) ->
  (UploadPage.handleFileUpload randomUUID payload = None <-> unreadable payload) /\
  (forall r, UploadPage.handleFileUpload randomUUID payload = Some r ->
     exists cs,
       Parser.canonicalEdgesOf (payloadRelationships payload) = Some cs /\
       Parser.canonicalNameSet (payloadStudents payload) cs
       = Some (map name (Parser.nodes r)) /\
       NoDup (map id (Parser.nodes r)) /\
       Forall (fun e => source e <> target e /\
                        In (source e) (map id (Parser.nodes r)) /\
                        In (target e) (map id (Parser.nodes r)))
              (Parser.edges r) /\
       keptEdges (map id (Parser.nodes r)) (Parser.edges r) = Parser.edges r).
Proof.
  intros Hinj. rewrite upload_reading.
  destruct (reading_spec _ payload (fun cs names =>
              let minted := Parser.mintNodes randomUUID names in
              match Analyzer.analyzeNetwork (fst minted)
                                            (Parser.buildEdges (snd minted) cs) with
              | Some analyzedData =>
                  Some (Parser.mkParseResult (Analyzer.nodes analyzedData)
                                             (Analyzer.edges analyzedData))
              | None => None
              end))
    as [Hiff Hsome].
  { intros cs names. cbv zeta.
    destruct (analyzeNetwork_spec
                (fst (Parser.mintNodes randomUUID names))
                (Parser.buildEdges (snd (Parser.mintNodes randomUUID names)) cs))
      as (g0 & _ & _ & _ & _ & _ & Hr).
    cbv zeta in Hr. rewrite Hr. discriminate. }
  split; [exact Hiff|].
  intros r Hr. destruct (Hsome r Hr) as (cs & names & Ecs & En & Hrest).
  cbv zeta in Hrest. exists cs. split; [assumption|].
  destruct (canonicalNameSet_spec _ cs names En) as [Hnd _].
  destruct (mintNodes_state randomUUID names Hnd) as (Hnames & Hs & Hids).
  set (minted := Parser.mintNodes randomUUID names) in *.
  set (nodes := fst minted) in *.
  set (edges := Parser.buildEdges (snd minted) cs) in *.
  assert (Hndi : NoDup (map id nodes)).
  { rewrite Hids. apply NoDup_map_injective; [|apply seq_NoDup].
    intros a b E. apply app_inv_head in E. now apply Hinj. }
  assert (Hkeep : keepFirst [] nodes = nodes) by now apply keepFirst_distinct.
  destruct (analyzeNetwork_spec nodes edges) as (g0 & _ & _ & _ & _ & _ & Ha).
  cbv zeta in Ha. rewrite Ha in Hrest. injection Hrest as <-.
  cbn [Parser.nodes Parser.edges Analyzer.nodes Analyzer.edges].
  rewrite Hkeep.
  assert (Hids' : map id (map (fun n => Analyzer.enrich (id n)
                      (finalAttributes nodes edges g0 (id n) (Analyzer.attributesOf n)))
                    nodes) = map id nodes).
  { rewrite map_map. reflexivity. }
  rewrite Hids'.
  assert (Hends : forall e, In e edges ->
            source e <> target e /\ In (source e) (map id nodes) /\
            In (target e) (map id nodes)).
  { intros e He.
    destruct (buildEdges_ends _ _ _ He) as (c & _ & Gs & Gt & _ & Hne & _).
    split; [assumption|].
    apply mapGet_In in Gs, Gt. rewrite Hs in Gs, Gt.
    apply in_map_iff in Gs as [ns [Es Hns]], Gt as [nt [Et Hnt]].
    injection Es as _ Es. injection Et as _ Et. rewrite <- Es, <- Et.
    split; now apply in_map. }
  split.
  { rewrite En. f_equal. rewrite map_map. cbn [Analyzer.enrich name].
    rewrite <- Hnames at 1. apply map_ext. intros n. now rewrite final_name. }
  split; [assumption|]. split; [now apply Forall_forall|].
  apply keptEdges_all. intros e He. now apply Hends.
Qed.
End Upload.

Section UploadExamples.
#[local] Existing Instance Examples.asciiHost.
#[local] Existing Instance Examples.quietLibrary.

(** A witness of X21: Alice names Bob, the UUIDs are counted. *)
Lemma upload_keeps_every_student_witness :
  (UploadPage.handleFileUpload Examples.countingUUID
     (Examples.body [] [Examples.goodTuple]) = None <->
   unreadable (Examples.body [] [Examples.goodTuple])) /\
  (forall r,
     UploadPage.handleFileUpload Examples.countingUUID
       (Examples.body [] [Examples.goodTuple]) = Some r ->
     exists cs,
       Parser.canonicalEdgesOf
         (payloadRelationships (Examples.body [] [Examples.goodTuple])) = Some cs /\
       Parser.canonicalNameSet
         (payloadStudents (Examples.body [] [Examples.goodTuple])) cs
       = Some (map name (Parser.nodes r)) /\
       NoDup (map id (Parser.nodes r)) /\
       Forall (fun e => source e <> target e /\
                        In (source e) (map id (Parser.nodes r)) /\
                        In (target e) (map id (Parser.nodes r)))
              (Parser.edges r) /\
       keptEdges (map id (Parser.nodes r)) (Parser.edges r) = Parser.edges r).
Proof.
  apply (upload_keeps_every_student Examples.countingUUID
           (Examples.body [] [Examples.goodTuple])).
  exact countingUUID_inj.
Defined.

(** The upload of the witness: two nodes and the edge between them. *)
Lemma upload_example :
  option_map (fun r => (map name (Parser.nodes r), map id (Parser.nodes r),
                        map triple (Parser.edges r)))
    (UploadPage.handleFileUpload Examples.countingUUID
       (Examples.body [] [Examples.goodTuple]))
  = Some ([Examples.alice; Examples.bob], [lit "STU_0"; lit "STU_1"],
          [(lit "STU_0", lit "STU_1", lit "general")]).
Proof. vm_compute. reflexivity. Qed.

(** Bodies on which the upload throws: [null], and a quality signal that
    is an object with a member [toString]. *)
Lemma upload_throws :
  UploadPage.handleFileUpload Examples.countingUUID VNull = None /\
  UploadPage.handleFileUpload Examples.countingUUID
    (VObject [(lit "relationships", VArray [Examples.goodTuple]);
              (lit "metadata",
               VObject [(lit "quality_signals",
                         VObject [(lit "respondent_count",
                                   VObject [(lit "toString", VNull)])])])])
  = None.
Proof. vm_compute. split; reflexivity. Qed.

(** Why the UUIDs must not repeat: with one UUID for all, the second
    student has the id of the first and is left out of the analysis, and
    the edge between them is never made. *)
Lemma repeated_uuid_loses_a_student :
  UploadPage.handleFileUpload (fun _ => lit "0")
    (Examples.body [] [Examples.goodTuple])
  = Some (Parser.mkParseResult
            [mkNode (lit "STU_0") Examples.alice Examples.alice 1%float
                    (Some 0%float) (Some 0%float) (Some 0%float) (Some 0%float)
                    (Some 0%float) (Some 1%N)]
            []).
Proof. vm_compute. reflexivity. Qed.
End UploadExamples.

(** ** The models that the route calls *)

Section Models.
Context {host : Host}.

Lemma aliasMap_known (k name : jsstring) :
  mapGet AnalyzeRoute.aliasMap k = Some name -> In name knownModels.
Proof.
  intros H. apply mapGet_In in H.
  assert (Hall : forallb (fun kv => setHas knownModels (snd kv)) AnalyzeRoute.aliasMap
                 = true) by (vm_compute; reflexivity).
  rewrite forallb_forall in Hall. apply Hall in H. now apply setHas_true_iff in H.
Qed.

Lemma resolveGeminiModel_known (model : option jsstring) :
  knownChoice (AnalyzeRoute.resolveGeminiModel model).
Proof.
  assert (Hflash : In AnalyzeRoute.flashModel knownModels) by (right; right; now left).
  unfold AnalyzeRoute.resolveGeminiModel.
  destruct (negb (truthy_str _)); [exact Hflash|].
  unfold JSObject.get.
  destruct (mapGet AnalyzeRoute.aliasMap _) as [name|] eqn:E.
  - cbn [knownChoice]. destruct (truthy_str name); [|exact Hflash].
    now apply aliasMap_known in E.
  - destruct (setHas JSObject.objectPrototypeKeys _) eqn:Ep; [|exact Hflash].
    cbn [knownChoice]. now apply setHas_true_iff.
Qed.

(** X22.  The request does not choose the model freely: whatever string it
    sends, the model that the route runs first is one of the three known
    models, unless the string (trimmed, in lower case) names a member of
    [Object.prototype], which [aliasMap[normalized]] then returns in place
    of a model name.  The same holds of [resolveGeminiModel] itself. *)
Theorem analyze_route_runs_known_models :
  (forall model, knownChoice (AnalyzeRoute.resolveGeminiModel model)) /\
  (forall requestedModel, knownChoice (AnalyzeRoute.primaryModelOf requestedModel)).
Proof.
  split; [apply resolveGeminiModel_known|].
  intros requestedModel. unfold AnalyzeRoute.primaryModelOf.
  destruct (negb (truthy_str requestedModel) || _).
  - right. right. now left.
  - apply resolveGeminiModel_known.
Qed.
End Models.

(** ** The key of a name and white space *)

#[local] Abbreviation blank := (Forall (fun c => isWhiteSpace c = true)).

Lemma trimStart_split (s : jsstring) : exists p, s = p ++ trimStart s /\ blank p.
Proof.
  induction s as [|c s (p & E & Hp)]; [exists []; split; [reflexivity | constructor]|].
  cbn [trimStart]. destruct (isWhiteSpace c) eqn:Ec.
  - exists (c :: p). split; [cbn; now rewrite <- E | now constructor].
  - exists []. split; [reflexivity | constructor].
Qed.

Lemma trimStart_blank_prefix (pad s : jsstring) :
  blank pad -> trimStart (pad ++ s) = trimStart s.
Proof.
  induction 1 as [|c pad Hc _ IH]; [reflexivity|].
  cbn [app trimStart]. now rewrite Hc.
Qed.

Lemma trimStart_blank (s : jsstring) : blank s -> trimStart s = [].
Proof.
  intros H. rewrite <- (app_nil_r s). now rewrite trimStart_blank_prefix.
Qed.

Lemma trimStart_app (s x : jsstring) :
  trimStart s <> [] -> trimStart (s ++ x) = trimStart s ++ x.
Proof.
  induction s as [|c s IH]; [contradiction|].
  cbn [app trimStart]. destruct (isWhiteSpace c); auto.
Qed.

Lemma trimEnd_blank_suffix (s pad : jsstring) :
  blank pad -> trimEnd (s ++ pad) = trimEnd s.
Proof.
  intros H. unfold trimEnd. rewrite rev_app_distr.
  rewrite trimStart_blank_prefix; [reflexivity | now apply Forall_rev].
Qed.

Lemma trimEnd_split (s : jsstring) : exists p, s = trimEnd s ++ p /\ blank p.
Proof.
  destruct (trimStart_split (rev s)) as (p & E & Hp).
  exists (rev p). split; [|now apply Forall_rev].
  unfold trimEnd. rewrite <- rev_app_distr, <- E. now rewrite rev_involutive.
Qed.

(** White space around a string does not change what [trim] returns. *)
Lemma trim_padded (pad s pad' : jsstring) :
  blank pad -> blank pad' -> trim (pad ++ s ++ pad') = trim s.
Proof.
  intros Hp Hp'. unfold trim. rewrite trimStart_blank_prefix by assumption.
  destruct (trimStart s) as [|c r] eqn:E.
  - destruct (trimStart_split s) as (p & Es & Hb). rewrite E, app_nil_r in Es. subst p.
    rewrite trimStart_blank; [reflexivity|]. apply Forall_app. now split.
  - rewrite trimStart_app by (rewrite E; discriminate).
    rewrite E. now apply trimEnd_blank_suffix.
Qed.

(** A string that starts and ends with a character that is not white space
    is left as it is. *)
Lemma trim_fixed (s : jsstring) :
  trimStart s = s -> trimStart (rev s) = rev s -> trim s = s.
Proof.
  intros H1 H2. unfold trim, trimEnd. rewrite H1, H2. apply rev_involutive.
Qed.

Lemma trimStart_app_fixed (s x : jsstring) :
  s <> [] -> trimStart s = s -> trimStart (s ++ x) = s ++ x.
Proof.
  intros Hne H. rewrite trimStart_app by now rewrite H. now rewrite H.
Qed.

(** A run of white space in front of [r] collapses as one space does. *)
Lemma collapse_blank_prefix (x r : jsstring) :
  blank x -> collapseFrom true (x ++ r) = collapseFrom true r.
Proof.
  induction 1 as [|c x Hc _ IH]; [reflexivity|].
  cbn [app collapseFrom]. now rewrite Hc.
Qed.

Lemma collapse_run (a x r : jsstring) :
  blank x -> x <> [] ->
  forall inRun, collapseFrom inRun (a ++ x ++ r) = collapseFrom inRun (a ++ 32 :: r).
Proof.
  intros Hx Hne. induction a as [|c a IH]; intros inRun.
  - cbn [app]. destruct Hx as [|d x Hd Hx]; [contradiction|].
    cbn [app collapseFrom]. rewrite Hd. change (isWhiteSpace 32) with true. cbv iota.
    now rewrite collapse_blank_prefix.
  - cbn [app collapseFrom]. destruct (isWhiteSpace c); [destruct inRun|]; now rewrite IH.
Qed.

(** [trim] on two parts with white space between them. *)
Lemma trim_around_run (a x b : jsstring) :
  blank x -> x <> [] ->
  trim (a ++ x ++ b)
  = match trimStart a, trimEnd b with
    | [], _ => trim b
    | _, [] => trim a
    | _ :: _, _ :: _ => trimStart a ++ x ++ trimEnd b
    end.
Proof.
  intros Hx Hne.
  destruct (trimStart_split a) as (pa & Ea & Hpa).
  destruct (trimEnd_split b) as (pb & Eb & Hpb).
  destruct (trimStart a) as [|c a'] eqn:Eta.
  - rewrite app_nil_r in Ea. subst pa.
    rewrite app_assoc. rewrite <- (app_nil_r b) at 1.
    apply trim_padded; [apply Forall_app; now split | constructor].
  - destruct (trimEnd b) as [|d b'] eqn:Eteb.
    + cbn [app] in Eb. subst pb.
      change (a ++ x ++ b) with ([] ++ a ++ (x ++ b)).
      apply trim_padded; [constructor | apply Forall_app; now split].
    + rewrite Ea at 1. rewrite Eb at 1.
      replace ((pa ++ c :: a') ++ x ++ (d :: b') ++ pb)
        with (pa ++ ((c :: a') ++ x ++ d :: b') ++ pb)
        by (rewrite <- !app_assoc; reflexivity).
      rewrite trim_padded by assumption.
      apply trim_fixed.
      * cbn [app]. apply trimStart_fixed. now apply trimStart_head in Eta.
      * assert (Er : trimStart (rev b) = rev (d :: b')).
        { unfold trimEnd in Eteb. rewrite <- Eteb. now rewrite rev_involutive. }
        rewrite !rev_app_distr, <- app_assoc.
        apply trimStart_app_fixed.
        -- intros E. apply (f_equal (@rev Z)) in E. rewrite rev_involutive in E.
           discriminate.
        -- rewrite <- Er. apply trimStart_idempotent.
Qed.

Section KeyAndWhiteSpace.
Context {host : Host}.

(** X23.  The key under which a previous id is looked up ignores white
    space as far as a reader would: white space around a name, and which
    white space and how much of it stands between two parts of a name,
    change nothing. *)
Theorem normalizeStudentNameKey_white_space (pad pad' ws a b : jsstring) :
  Forall (fun c => isWhiteSpace c = true) pad ->
  Forall (fun c => isWhiteSpace c = true) pad' ->
  Forall (fun c => isWhiteSpace c = true) ws ->
  ws <> [] ->
  Dashboard.normalizeStudentNameKey (pad ++ a ++ pad')
  = Dashboard.normalizeStudentNameKey a /\
  Dashboard.normalizeStudentNameKey (a ++ ws ++ b)
  = Dashboard.normalizeStudentNameKey (a ++ [32] ++ b).
Proof.
  intros Hp Hp' Hw Hne. unfold Dashboard.normalizeStudentNameKey. split.
  - now rewrite trim_padded.
  - f_equal. rewrite (trim_around_run a ws b) by assumption.
    rewrite (trim_around_run a [32] b);
      [|repeat constructor | discriminate].
    destruct (trimStart a) as [|c a']; [reflexivity|].
    destruct (trimEnd b) as [|d b']; [reflexivity|].
    unfold collapseWhiteSpace. now apply collapse_run.
Qed.
End KeyAndWhiteSpace.

(** A witness of X23: a name with a space in front, a tab and two spaces
    inside, and a line feed behind. *)
Lemma normalizeStudentNameKey_white_space_witness :
  Dashboard.normalizeStudentNameKey (host := Examples.asciiHost)
    ([32] ++ lit "Kim" ++ [10])
  = Dashboard.normalizeStudentNameKey (host := Examples.asciiHost) (lit "Kim") /\
  Dashboard.normalizeStudentNameKey (host := Examples.asciiHost)
    (lit "Kim" ++ [9; 32; 32] ++ lit "Min")
  = Dashboard.normalizeStudentNameKey (host := Examples.asciiHost)
      (lit "Kim" ++ [32] ++ lit "Min").
Proof.
  apply (normalizeStudentNameKey_white_space (host := Examples.asciiHost)
           [32] [10] [9; 32; 32] (lit "Kim") (lit "Min")).
  - repeat constructor.
  - repeat constructor.
  - repeat constructor.
  - discriminate.
Defined.

(** ** The names of the sheets *)

Lemma trim_nil_iff (s : jsstring) :
  trim s = [] <-> Forall (fun c => isWhiteSpace c = true) s.
Proof.
  split.
  - intros E. destruct (trimStart_split s) as (p & Es & Hp).
    destruct (trimEnd_split (trimStart s)) as (q & Eq & Hq).
    fold (trim s) in Eq. rewrite E in Eq. cbn [app] in Eq.
    rewrite Es, Eq. apply Forall_app. now split.
  - intros H. unfold trim. rewrite trimStart_blank by assumption. reflexivity.
Qed.

Lemma isSheetNameForbidden_spec (c : Z) :
  Excel.isSheetNameForbidden c = existsb (Z.eqb c) sheetForbidden.
Proof.
  unfold Excel.isSheetNameForbidden, sheetForbidden. cbn [existsb].
  now rewrite orb_false_r, !orb_assoc.
Qed.

Lemma sheetForbidden_In (c : Z) :
  existsb (Z.eqb c) sheetForbidden = false <-> ~ In c sheetForbidden.
Proof.
  split.
  - intros H Hin. assert (E : existsb (Z.eqb c) sheetForbidden = true).
    { apply existsb_exists. exists c. split; [assumption | apply Z.eqb_refl]. }
    congruence.
  - intros H. destruct (existsb (Z.eqb c) sheetForbidden) eqn:E; [|reflexivity].
    apply existsb_exists in E as (x & Hx & Ex). apply Z.eqb_eq in Ex. now subst x.
Qed.

(** X9.  [sanitizeSheetName] answers the fallback of the position exactly
    when the requested name holds no character that is neither white space
    nor one of [\ / : * ? [ ]]; when it holds one, the sheet name is the
    requested name without the forbidden characters, trimmed and cut after
    31 code units: it is not empty, holds none of the seven characters and
    starts with a character that is not white space. *)
Theorem sanitizeSheetName_spec (name fallback : jsstring) :
  ((forall c, In c name -> sheetText c = false) ->
     Excel.sanitizeSheetName name fallback = fallback) /\
  ((exists c, In c name /\ sheetText c = true) ->
     Excel.sanitizeSheetName name fallback
     = firstn 31 (trim (filter (fun c => negb (existsb (Z.eqb c) sheetForbidden)) name)) /\
     Excel.sanitizeSheetName name fallback <> [] /\
     (length (Excel.sanitizeSheetName name fallback) <= 31)%nat /\
     Forall (fun c => ~ In c sheetForbidden) (Excel.sanitizeSheetName name fallback) /\
     exists c rest,
       Excel.sanitizeSheetName name fallback = c :: rest /\ isWhiteSpace c = false).
Proof.
  unfold Excel.sanitizeSheetName.
  assert (Ef : filter (fun c => negb (Excel.isSheetNameForbidden c)) name
               = filter (fun c => negb (existsb (Z.eqb c) sheetForbidden)) name).
  { apply filter_ext. intros c. now rewrite isSheetNameForbidden_spec. }
  rewrite Ef. clear Ef.
  set (kept := filter (fun c => negb (existsb (Z.eqb c) sheetForbidden)) name).
  assert (Hkept : trim kept = [] <-> forall c, In c name -> sheetText c = false).
  { rewrite trim_nil_iff, Forall_forall. unfold kept, sheetText. split.
    - intros H c Hc. destruct (existsb (Z.eqb c) sheetForbidden) eqn:E;
        [now rewrite andb_false_r|].
      rewrite (H c); [reflexivity|]. apply filter_In. split; [assumption|].
      now rewrite E.
    - intros H c Hc. apply filter_In in Hc as [Hc E].
      specialize (H c Hc). rewrite E, andb_true_r in H.
      now apply negb_false_iff in H. }
  assert (Hok : Forall (fun c => ~ In c sheetForbidden) (trim kept)).
  { apply Forall_trim. apply Forall_forall. intros c Hc.
    apply filter_In in Hc as [_ E]. apply negb_true_iff in E.
    now apply sheetForbidden_In. }
  pose proof (trim_starts kept) as Hstart.
  split.
  - intros H. apply Hkept in H. now rewrite H.
  - intros (c & Hc & Hs).
    destruct (trim kept) as [|d r] eqn:E.
    { rewrite (proj1 Hkept eq_refl c Hc) in Hs. discriminate. }
    cbn [truthy_str negb]. split; [reflexivity|]. split.
    { apply firstn_neq_nil; [discriminate | lia]. }
    split; [apply firstn_le_length|]. split.
    { apply Forall_forall. intros x Hx. rewrite Forall_forall in Hok.
      apply Hok. rewrite <- (firstn_skipn 31 (d :: r)). apply in_or_app. now left. }
    exists d, (firstn 30 r). split; [reflexivity|].
    now apply (trimStart_head (d :: r) d r).
Qed.
